(** * Agentic-Text2SQL: the query-processing pipeline

    A shallow embedding of the pipeline of the repository
    (app/agents/sql_agent.py, app/services/llm_service.py,
    app/services/query_service.py, app/utils/mock_response.py,
    app/core/config.py) and the properties of its specification,
    followed by the stores and checks around it (app/db/mongo_client.py,
    app/db/postgres_client.py, app/core/auth.py,
    app/utils/sql_validator.py).

    Python strings are sequences of Unicode code points.  Everything the
    code obtains from outside the repository (the completion API, the
    database driver, sqlparse, the prompt store, the Unicode tables of
    the interpreter, the texts of the exceptions Python raises) is an
    explicit parameter.  What the model answers is data: the arguments
    of a function call are whatever json.loads makes of them, not what
    the schema of the function promises. *)

From Stdlib Require Import String Ascii DecimalString NArith Arith Bool Lia List.
Import ListNotations.

(** ** Python values *)

Module Py.

(** A character is a code point, a [str] a sequence of them. *)
Abbreviation char := N (only parsing).
Abbreviation str := (list N) (only parsing).

(** Literal of the source, written in ASCII. *)
Definition py (s : string) : str := map N_of_ascii (list_ascii_of_string s).

Fixpoint str_eqb (a b : str) : bool :=
  match a, b with
  | [], [] => true
  | x :: a', y :: b' => N.eqb x y && str_eqb a' b'
  | _, _ => false
  end.

(** Outcome of a call that may raise; [Raise msg] carries [str(e)]. *)
Inductive result (A : Type) : Type :=
| Ok (a : A)
| Raise (msg : str).
Arguments Ok {A} a.
Arguments Raise {A} msg.

(** The character tables of the interpreter beyond ASCII.  They are
    consulted for code points from 128 on only. *)
Record unicode : Type := {
  uni_isspace : char -> bool;       (* str.isspace, the class \s *)
  uni_isdecimal : char -> bool;     (* the class \d *)
  uni_isalnum : char -> bool;       (* str.isalnum, the class \w *)
  uni_lower : char -> char;         (* simple lower-case mapping used by re.IGNORECASE *)
  uni_upper : char -> str;          (* str.upper of one character *)
  uni_ignorecase : char -> char -> bool
    (* [uni_ignorecase p c]: the non-ASCII pattern character p matches c under re.IGNORECASE *)
}.

Definition between (lo hi c : N) : bool := N.leb lo c && N.leb c hi.
Definition is_ascii (c : char) : bool := N.ltb c 128.

Definition ascii_isupper (c : char) := between 65 90 c.
Definition ascii_islower (c : char) := between 97 122 c.
Definition ascii_isalpha (c : char) := ascii_isupper c || ascii_islower c.
Definition ascii_isdigit (c : char) := between 48 57 c.
Definition ascii_lower (c : char) : char := if ascii_isupper c then (c + 32)%N else c.
Definition ascii_upper (c : char) : char := if ascii_islower c then (c - 32)%N else c.

Section Tables.
Variable U : unicode.

(** \s on a str pattern: TAB..CR, FS..US and space below 128. *)
Definition isspace (c : char) : bool :=
  if is_ascii c then between 9 13 c || between 28 31 c || N.eqb c 32
  else uni_isspace U c.

(** \d on a str pattern. *)
Definition isdecimal (c : char) : bool :=
  if is_ascii c then ascii_isdigit c else uni_isdecimal U c.

(** \w on a str pattern: alphanumeric or underscore. *)
Definition isword (c : char) : bool :=
  if is_ascii c then ascii_isalpha c || ascii_isdigit c || N.eqb c 95
  else uni_isalnum U c.

Definition lower (c : char) : char :=
  if is_ascii c then ascii_lower c else uni_lower U c.

(** str.upper() *)
Definition upper (s : str) : str :=
  flat_map (fun c => if is_ascii c then [ascii_upper c] else uni_upper U c) s.

Fixpoint lstrip (s : str) : str :=
  match s with
  | c :: t => if isspace c then lstrip t else s
  | [] => []
  end.

(** str.strip() *)
Definition strip (s : str) : str := rev (lstrip (rev (lstrip s))).
End Tables.

Fixpoint startswith (s p : str) : bool :=
  match p, s with
  | [], _ => true
  | x :: p', y :: s' => N.eqb x y && startswith s' p'
  | _ :: _, [] => false
  end.

(** [replace_from old new s skip]: the scan of str.replace for a
    non-empty [old]; [skip] counts the characters of an occurrence
    already replaced. *)
Fixpoint replace_from (old new s : str) (skip : nat) : str :=
  match s with
  | [] => []
  | c :: t =>
      match skip with
      | S k => replace_from old new t k
      | O => if startswith s old
             then new ++ replace_from old new t (length old - 1)
             else c :: replace_from old new t 0
      end
  end.

(** str.replace(old, new): every non-overlapping occurrence, from the
    left; an empty [old] matches before every character and at the end. *)
Definition replace (s old new : str) : str :=
  match old with
  | [] => flat_map (fun c => new ++ [c]) s ++ new
  | _ :: _ => replace_from old new s 0
  end.

(** str(n) of a non-negative int. *)
Definition str_of_nat (n : nat) : str := py (NilZero.string_of_uint (Nat.to_uint n)).

(** sep.join(parts) *)
Fixpoint join (sep : str) (parts : list str) : str :=
  match parts with
  | [] => []
  | [p] => p
  | p :: rest => p ++ sep ++ join sep rest
  end.

(** Truth value of a str: non-empty. *)
Definition truthy (s : str) : bool := match s with [] => false | _ :: _ => true end.

(** A value json.loads can give.  The code looks into a str only; of
    a list it uses that it can be sliced, and of every value its truth
    value.  A list and the other values (booleans, numbers, objects)
    are named by a tag. *)
Inductive json : Type :=
| JNull
| JString (s : str)
| JArray (tag : N) (nonempty : bool)
| JOther (tag : N) (truth_value : bool).

(** bool(v) *)
Definition json_truthy (v : json) : bool :=
  match v with
  | JNull => false
  | JString s => truthy s
  | JArray _ nonempty => nonempty
  | JOther _ truth_value => truth_value
  end.

(** What the code does to a value it takes for a str. *)
Inductive operation : Type :=
| Slice      (* value[:100] *)
| ReSub      (* re.sub(pattern, repl, value) *)
| Strip.     (* value.strip() *)

End Py.
Export Py.

(** ** The fragment of Python's [re] the repository uses

    Backtracking semantics: [matches r p] lists, in the order the engine
    tries them, the positions at which a match of [r] started at [p] can
    end.  The first element is the match the engine reports. *)

Module Re.

(** A position: the character before it, if any, and the text after it. *)
Abbreviation pos := (option N * list N)%type (only parsing).

Inductive regex : Type :=
| Eps
| Chr (f : char -> bool)       (* one character: a literal, a class, \s, \d *)
| Seq (r1 r2 : regex)
| Alt (r1 r2 : regex)          (* r1|r2 *)
| Star (f : char -> bool)      (* c*, greedy, for a one-character item c *)
| NegLook (r : regex)          (* (?!r) *)
| WordB.                       (* \b *)

Definition Plus (f : char -> bool) : regex := Seq (Chr f) (Star f).   (* c+ *)
Definition Opt (r : regex) : regex := Alt r Eps.                      (* r?, greedy *)
Definition Lit (c : char) : regex := Chr (N.eqb c).

Section Engine.
Variable U : unicode.

(** A literal pattern character under re.IGNORECASE: an uncased
    character matches itself; a cased one matches the characters
    whose lower case is its own or one of its recorded equivalents
    (i with dotless i U+0131, s with long s U+017F). *)
Definition case_fixes (lo : char) : list char :=
  if N.eqb lo 105 then [305%N] else if N.eqb lo 115 then [383%N] else [].

Definition ignorecase (p c : char) : bool :=
  if is_ascii p then
    if ascii_isalpha p
    then existsb (N.eqb (lower U c)) (ascii_lower p :: case_fixes (ascii_lower p))
    else N.eqb p c
  else uni_ignorecase U p c.

(** A literal string (re.escape of it) under re.IGNORECASE. *)
Fixpoint LitI (s : str) : regex :=
  match s with
  | [] => Eps
  | c :: t => Seq (Chr (ignorecase c)) (LitI t)
  end.

Fixpoint star_chr (f : char -> bool) (prev : option char) (s : str) : list pos :=
  match s with
  | c :: t => if f c then star_chr f (Some c) t ++ [(prev, s)] else [(prev, s)]
  | [] => [(prev, s)]
  end.

Definition word_at (c : option char) : bool :=
  match c with Some x => isword U x | None => false end.

Fixpoint matches (r : regex) (p : pos) : list pos :=
  match r with
  | Eps => [p]
  | Chr f => match snd p with
             | c :: t => if f c then [(Some c, t)] else []
             | [] => []
             end
  | Seq r1 r2 => flat_map (matches r2) (matches r1 p)
  | Alt r1 r2 => matches r1 p ++ matches r2 p
  | Star f => star_chr f (fst p) (snd p)
  | NegLook r1 => match matches r1 p with [] => [p] | _ :: _ => [] end
  | WordB => if xorb (word_at (fst p)) (word_at (hd_error (snd p))) then [p] else []
  end.

(** Number of characters between [p] and a later position [q]. *)
Definition consumed (p q : pos) : nat := length (snd p) - length (snd q).

(** The length of the match the engine reports at [p]; with
    [must_advance] an empty match is refused and the engine
    backtracks. *)
Definition attempt (r : regex) (p : pos) (must_advance : bool) : option nat :=
  option_map (consumed p)
    (find (fun q => negb must_advance || (0 <? consumed p q)) (matches r p)).

(** The text cut by successive searches: a kept character or a match. *)
Inductive piece : Type :=
| Keep (c : char)
| Hit (m : str).

(** Scan for successive non-overlapping matches, from the left.
    [skip] counts the characters of the last match still to pass.
    After an empty match the engine searches again at the same place
    for a non-empty one. *)
Fixpoint scan (r : regex) (prev : option char) (s : str) (skip : nat) : list piece :=
  match skip with
  | S k => match s with
           | c :: t => scan r (Some c) t k
           | [] => []
           end
  | O =>
      let found :=
        match attempt r (prev, s) false with
        | None => ([], 0)
        | Some (S n) => ([Hit (firstn (S n) s)], S n)
        | Some O =>
            match attempt r (prev, s) true with
            | Some n => ([Hit []; Hit (firstn n s)], n)
            | None => ([Hit []], 0)
            end
        end in
      match s with
      | [] => fst found
      | c :: t =>
          fst found ++
          match snd found with
          | O => Keep c :: scan r (Some c) t 0
          | S k => scan r (Some c) t k
          end
      end
  end.

Definition hits (ps : list piece) : list str :=
  flat_map (fun x => match x with Hit m => [m] | Keep _ => [] end) ps.

(** re.finditer(r, s): group(0) of the successive matches. *)
Definition finditer (r : regex) (s : str) : list str := hits (scan r None s 0).

(** re.sub(r, repl, s) for a callable [repl] applied to group(0);
    the second component tells whether [repl] was called. *)
Definition sub (r : regex) (repl : str -> str) (s : str) : str * bool :=
  let ps := scan r None s 0 in
  (flat_map (fun x => match x with Hit m => repl m | Keep c => [c] end) ps,
   match hits ps with [] => false | _ :: _ => true end).

(** re.search(r, s) as a truth value: some position has a match. *)
Fixpoint search_from (r : regex) (prev : option char) (s : str) : bool :=
  match matches r (prev, s) with
  | _ :: _ => true
  | [] => match s with
          | c :: t => search_from r (Some c) t
          | [] => false
          end
  end.

Definition search (r : regex) (s : str) : bool := search_from r None s.

End Engine.
End Re.

(** ** app/core/config.py *)

Module Config.

(** settings.BLOCKED_SQL_KEYWORDS *)
Definition BLOCKED_SQL_KEYWORDS : list str :=
  map py ["INSERT"; "UPDATE"; "DELETE"; "DROP"; "CREATE"; "ALTER"; "TRUNCATE";
          "GRANT"; "REVOKE"; "COMMIT"; "ROLLBACK"]%string.

End Config.

(** ** Data exchanged with the collaborators *)

Module Data.

(** What sqlparse offers to the code: [sqlparse.parse], which may
    raise, and [Statement.get_type]. *)
Record sqlparse : Type := {
  statement : Type;
  parse : str -> result (list statement);
  get_type : statement -> str
}.

(** postgres_client.get_schema_info: table name -> description, in
    the order of the dict. *)
Record column : Type := { col_name : str; col_type : str; col_nullable : bool }.
Record foreign_key : Type := {
  constrained_columns : list str;
  referred_table : str;
  referred_columns : list str
}.
Record table : Type := {
  columns : list column;
  primary_keys : list str;
  foreign_keys : list foreign_key
}.
Definition schema_info : Type := list (str * table).
Definition keys (s : schema_info) : list str := map fst s.

End Data.
Export Data.

(** ** app/agents/sql_agent.py: the pure part *)

Module SQLAgentPure.
Import Re.

Section WithTables.
Variable U : unicode.
Variable P : sqlparse.

(** r'\b' + keyword + r'\b' with re.IGNORECASE; the keywords are made
    of letters, so each stands for itself in the pattern. *)
Definition keyword_pattern (keyword : str) : regex :=
  Seq WordB (Seq (LitI U keyword) WordB).

(** SQLAgent.validate_query *)
Definition validate_query (query : str) : bool * str :=
  match parse P (strip U query) with
  | Raise e => (false, py "Validation error: " ++ e)
  | Ok [] => (false, py "Empty or invalid SQL query")
  | Ok (stmt :: _) =>
      if negb (truthy (get_type P stmt))
         || negb (str_eqb (upper U (get_type P stmt)) (py "SELECT"))
      then (false, py "Only SELECT queries are allowed")
      else
        match find (fun keyword => search U (keyword_pattern keyword) query)
                   Config.BLOCKED_SQL_KEYWORDS with
        | Some keyword => (false, py "Disallowed SQL keyword found: " ++ keyword)
        | None => (true, py "Query validation successful")
        end
  end.

(** [a-zA-Z0-9_] *)
Definition bareword_char (c : char) : bool :=
  ascii_isalpha c || ascii_isdigit c || N.eqb c 95.

(** The body of the lookahead: r"\s*\(|\s*'|\s*\d|\s*::" *)
Definition lookahead_body : regex :=
  Alt (Seq (Star (isspace U)) (Lit 40%N))
 (Alt (Seq (Star (isspace U)) (Lit 39%N))
 (Alt (Seq (Star (isspace U)) (Chr (isdecimal U)))
      (Seq (Star (isspace U)) (Seq (Lit 58%N) (Lit 58%N))))).

(** r"= ([a-zA-Z0-9_]+)(?!\s*\(|\s*'|\s*\d|\s*::)" *)
Definition string_pattern : regex :=
  Seq (Lit 61%N) (Seq (Lit 32%N) (Seq (Plus bareword_char) (NegLook lookahead_body))).

(** add_quotes_to_strings: f"= '{match.group(1)}'"; group(1) is the
    match without its leading "= ". *)
Definition add_quotes_to_strings (m : str) : str :=
  py "= '" ++ skipn 2 m ++ py "'".

(** Fix 1 of detect_and_fix_common_issues. *)
Definition quote_literals (query : str) : str * bool :=
  sub U string_pattern add_quotes_to_strings query.

(** r'\b' + re.escape(table_name) + r'[s]?\b' with re.IGNORECASE *)
Definition table_pattern (table_name : str) : regex :=
  Seq WordB (Seq (LitI U table_name) (Seq (Opt (Chr (ignorecase U 115%N))) WordB)).

(** The body of the inner loop of Fix 2, for the match [m]:
    if match.group(0) != table_name, replace it everywhere in the
    current text and set was_modified. *)
Definition table_step (table_name : str) (acc : str * bool) (m : str) : str * bool :=
  if negb (str_eqb m table_name)
  then (replace (fst acc) m table_name, true)
  else acc.

(** The inner loop of Fix 2 for one table: the matches are those of
    the text as it was when the loop started. *)
Definition fix_table_name (st : str * bool) (table_name : str) : str * bool :=
  fold_left (table_step table_name)
            (finditer U (table_pattern table_name) (fst st))
            st.

(** Fix 2 of detect_and_fix_common_issues. *)
Definition fix_table_names (st : str * bool) (s : schema_info) : str * bool :=
  fold_left fix_table_name (keys s) st.

(** SQLAgent.detect_and_fix_common_issues *)
Definition detect_and_fix_common_issues (query : str) (s : schema_info) : str * bool :=
  fix_table_names (quote_literals query) s.

End WithTables.
End SQLAgentPure.
Export SQLAgentPure.

(** ** app/utils/mock_response.py *)

Module MockResponse.

(** A value a cell of a result row can hold: None, a str, or any
    other value of the driver (numbers, dates, ...), named by a tag. *)
Inductive value : Type :=
| VNone
| VStr (s : str)
| VOther (tag : N).

(** A row of RealDictCursor: column name -> value, in column order. *)
Definition row : Type := list (str * value).

(** response["error"]: the message is the custom message given, which
    need not be a str, or a sentence of error_responses. *)
Record error_info : Type := { error_type : str; error_message : json }.

(** The response dict of the pipeline.  A key that is missing and a
    key bound to None are both [None]. *)
Record response : Type := {
  success : bool;
  message : option str;
  query : option str;
  original_query : option str;
  was_debugged : option bool;
  data : option (list row);
  summary : option str;
  record_count : option nat;
  error : option error_info;
  mock : option bool
}.

(** self.error_responses *)
Definition error_responses : list (str * str) :=
  [ (py "sql_generation_failed",
     py "I couldn't generate a valid SQL query for your question. Please try rephrasing or providing more context.");
    (py "sql_validation_failed",
     py "The generated SQL query doesn't meet security requirements. Only read-only queries are allowed.");
    (py "database_connection_error",
     py "There was an issue connecting to the database. Please try again later.");
    (py "execution_error",
     py "An error occurred while executing the query. Please check your question for clarity.");
    (py "insufficient_permissions",
     py "You don't have permission to access this information.");
    (py "empty_results",
     py "The query executed successfully but returned no results.");
    (py "summarization_failed",
     py "I couldn't generate a summary for the query results.");
    (py "general_error",
     py "An unexpected error occurred. Please try again later.") ].

Fixpoint dict_get {A : Type} (d : list (str * A)) (k : str) : option A :=
  match d with
  | [] => None
  | (k', v) :: d' => if str_eqb k' k then Some v else dict_get d' k
  end.

Definition general_error_message : str :=
  py "An unexpected error occurred. Please try again later.".

(** self.error_responses.get(error_type, self.error_responses["general_error"]) *)
Definition default_message (error_type : str) : str :=
  match dict_get error_responses error_type with
  | Some m => m
  | None => general_error_message
  end.

(** MockResponseGenerator.get_mock_response; [None] is the default of
    custom_message. *)
Definition get_mock_response (error_type : str) (custom_message : option json) : response :=
  let error_message :=
    match custom_message with
    | Some m => if json_truthy m then m else JString (default_message error_type)
    | None => JString (default_message error_type)
    end in
  {| success := false;
     message := None;
     query := None;
     original_query := None;
     was_debugged := None;
     data := None;
     summary := None;
     record_count := None;
     error := Some {| error_type := error_type; error_message := error_message |};
     mock := Some true |}.

(** MockResponseGenerator.get_empty_results_response *)
Definition get_empty_results_response (query : option str) : response :=
  {| success := true;
     message := Some (py "Query executed successfully but returned no results.");
     query := query;
     original_query := None;
     was_debugged := None;
     data := Some [];
     summary := Some (py "No data was found for your query.");
     record_count := None;
     error := None;
     mock := None |}.

End MockResponse.
Export MockResponse.

(** ** The collaborators and the log of their use *)

Module World.

(** The arguments of a function call of the model, after json.loads:
    an object whose members can hold any value, whatever the schema of
    the function declares. *)
Definition arguments : Type := list (str * json).

(** json_utils.loads(function.arguments), read as a dict: [Raise]
    when loads raises and when the value it gives has no method get. *)
Record tool_call : Type := {
  function_name : str;
  function_arguments : result arguments
}.

(** What debug_query returns: (True, fixed_query), where fixed_query
    is the str validate_query accepted, or (False, reason), where the
    reason is a message of the code or the "error" argument of the
    model, whatever its type. *)
Inductive repair : Type :=
| Fixed (fixed_query : str)
| NotFixed (reason : json).

(** choices[i].message *)
Record chat_message : Type := {
  tool_calls : list tool_call;             (* None and [] are both [] *)
  content : option str
}.

(** The choices of a completion. *)
Definition completion : Type := list chat_message.

(** Calls completed so far, oldest first, each with what it returned. *)
Inductive event : Type :=
| EvCompletion (model : str) (messages : list (str * str)) (tool : option str)
               (outcome : result completion)
| EvExecute (query : str) (outcome : result (list row))
| EvGenerate (user_query : str) (outcome : bool * json)
| EvDebug (query error_message : str) (outcome : repair)
| EvSummarize (user_query sql_query : str) (outcome : str).

Definition trace : Type := list event.

Inductive service : Type := TheLLMService | TheSQLAgent.

(** Everything outside the repository.  Each answer may depend on all
    that happened before. *)
Record world : Type := {
  tables : unicode;
  parser : sqlparse;
  LLM_MODEL : str;                                        (* settings.LLM_MODEL *)
  get_or_initialize_client : service -> trace -> result unit;
  chat_completions_create :
    trace -> str -> list (str * str) -> option str -> result completion;
  postgres_execute_query : trace -> str -> result (list row);
  get_sql_generation_prompt :
    trace -> schema_info -> list (str * list row) -> result str;
  get_debug_prompt : trace -> schema_info -> str -> result str;
  get_summary_prompt : trace -> result str;
  json_dumps : list row -> result str;                    (* json_utils.dumps(rows, indent=2) *)
  str_of_value : N -> result str;                         (* str(val) of another driver value *)
  repr_of_rows : list row -> result str;                  (* the rows inside an f-string *)
  (* str(e) of the TypeError or AttributeError Python raises when the
     operation is applied to a value that does not support it *)
  exception_text : operation -> json -> str
}.

(** Computations that read and extend the log and may raise. *)
Definition M (A : Type) : Type := trace -> result A * trace.

Definition ret {A} (a : A) : M A := fun tr => (Ok a, tr).
Definition raise {A} (e : str) : M A := fun tr => (Raise e, tr).
Definition bind {A B} (m : M A) (f : A -> M B) : M B :=
  fun tr => match m tr with
            | (Ok a, tr') => f a tr'
            | (Raise e, tr') => (Raise e, tr')
            end.
(** try: m except Exception as e: h e *)
Definition try_except {A} (m : M A) (h : str -> M A) : M A :=
  fun tr => match m tr with
            | (Ok a, tr') => (Ok a, tr')
            | (Raise e, tr') => h e tr'
            end.
(** Ask a collaborator without logging. *)
Definition consult {A} (f : trace -> result A) : M A := fun tr => (f tr, tr).
(** Ask a collaborator and log the call with its outcome. *)
Definition call {A} (f : trace -> result A) (ev : result A -> event) : M A :=
  fun tr => let o := f tr in (o, tr ++ [ev o]).
Definition log (e : event) : M unit := fun tr => (Ok tt, tr ++ [e]).
Definition lift {A} (r : result A) : M A := fun tr => (r, tr).

End World.
Export World.

Declare Scope py_scope.
Delimit Scope py_scope with py_m.
Notation "x <- m ;; k" := (bind m (fun x => k))
  (at level 61, m at next level, right associativity) : py_scope.
Notation "' pat <- m ;; k" := (bind m (fun x => match x with pat => k end))
  (at level 61, pat pattern, m at next level, right associativity) : py_scope.
Notation "'try' m 'except' e '=>' h" := (try_except m (fun e => h))
  (at level 62, m at level 200, e name, h at level 200) : py_scope.

Local Open Scope py_scope.

(** ** Calls shared by the services *)

Module Client.
Section WithWorld.
Variable W : world.

(** self.client.chat.completions.create(model=..., messages=..., tools=..., tool_choice=...) *)
Definition create (model : str) (messages : list (str * str)) (tool : option str)
  : M completion :=
  call (fun tr => chat_completions_create W tr model messages tool)
       (EvCompletion model messages tool).

(** response.choices[0].message *)
Definition first_choice (r : completion) : M chat_message :=
  match r with
  | m :: _ => ret m
  | [] => raise (py "list index out of range")
  end.

(** arguments.get(key, default) *)
Definition get_or (a : arguments) (key : str) (default : json) : json :=
  match dict_get a key with
  | Some v => v
  | None => default
  end.

(** value[:100]: a str and a list can be sliced. *)
Definition slice (value : json) : M unit :=
  match value with
  | JString _ | JArray _ _ => ret tt
  | _ => raise (exception_text W Slice value)
  end.

(** postgres_client.execute_query(query) *)
Definition execute_query (query : str) : M (list row) :=
  call (fun tr => postgres_execute_query W tr query) (EvExecute query).

End WithWorld.
End Client.
Export Client.

Definition nl : str := [10%N].

(** ** app/services/llm_service.py *)

Module LLMService.
Section WithWorld.
Variable W : world.

(** generate_sql_query, "Extract the function call response": what
    the code makes of the completion it obtained. *)
Definition read_generated_query (response : completion) : M (bool * json) :=
  m <- first_choice response ;;
  match tool_calls m with
  | tc :: _ =>
      if str_eqb (function_name tc) (py "generate_sql_query") then
        arguments <- lift (function_arguments tc) ;;
        let sql_query := get_or arguments (py "query") (JString []) in
        let error := get_or arguments (py "error") JNull in
        if json_truthy error then ret (false, error)
        else if negb (json_truthy sql_query)
        then ret (false, JString (py "Generated SQL query is empty"))
        else
          (* the line logged before the return reads sql_query[:100] *)
          _ <- slice W sql_query ;;
          ret (true, sql_query)
      else ret (false, JString (py "Failed to generate SQL query"))
  | [] => ret (false, JString (py "Failed to generate SQL query"))
  end.

(** LLMService.generate_sql_query *)
Definition generate_sql_query (user_query : str) (s : schema_info)
           (table_samples : list (str * list row)) : M (bool * json) :=
  r <- (try
          (_ <- consult (get_or_initialize_client W TheLLMService) ;;
           system_message <- consult (fun tr => get_sql_generation_prompt W tr s table_samples) ;;
           let messages := [(py "system", system_message); (py "user", user_query)] in
           response <-
             (try create W (LLM_MODEL W) messages (Some (py "generate_sql_query"))
              except model_error =>
                if negb (str_eqb (LLM_MODEL W) (py "gpt-4"))
                then create W (py "gpt-4") messages (Some (py "generate_sql_query"))
                else raise model_error) ;;
           read_generated_query response)
        except e => ret (false, JString (py "Error: " ++ e))) ;;
  _ <- log (EvGenerate user_query r) ;;
  ret r.

Record markdown_data : Type := {
  markdown_results : str;
  total_rows : nat;
  displayed_rows : nat;
  markdown_error : option str        (* the key "error" *)
}.

Fixpoint map_result {A B : Type} (f : A -> result B) (l : list A) : result (list B) :=
  match l with
  | [] => Ok []
  | a :: l' =>
      match f a with
      | Raise e => Raise e
      | Ok b => match map_result f l' with
                | Raise e => Raise e
                | Ok bs => Ok (b :: bs)
                end
      end
  end.

(** The columns seen in the displayed rows, in first-seen order. *)
Definition add_columns (columns : list str) (r : row) : list str :=
  fold_left (fun cols kv => if existsb (str_eqb (fst kv)) cols then cols else cols ++ [fst kv])
            r columns.

(** One cell of the table. *)
Definition format_value (r : row) (col : str) : result str :=
  match dict_get r col with
  | Some VNone => Ok []
  | Some (VStr s) =>
      Ok (if existsb (N.eqb 124) s || existsb (N.eqb 10) s
          then py "`" ++ s ++ py "`" else s)
  | Some (VOther tag) => str_of_value W tag
  | None => Ok []
  end.

Definition format_row (columns : list str) (r : row) : result str :=
  match map_result (format_value r) columns with
  | Raise e => Raise e
  | Ok values => Ok (py "| " ++ join (py " | ") values ++ py " |" ++ nl)
  end.

(** LLMService.format_results_to_markdown *)
Definition format_results_to_markdown (results : list row) (max_rows : nat)
  : markdown_data :=
  let total := length results in
  match total with
  | O => {| markdown_results := py "No results found"; total_rows := 0;
            displayed_rows := 0; markdown_error := None |}
  | S _ =>
      let display_results := firstn max_rows results in
      let displayed := length display_results in
      let columns := fold_left add_columns display_results [] in
      match columns with
      | [] => {| markdown_results := py "Results structure could not be determined";
                 total_rows := total; displayed_rows := 0; markdown_error := None |}
      | _ :: _ =>
          let header :=
            py "| " ++ join (py " | ") columns ++ py " |" ++ nl
            ++ py "| " ++ join (py " | ") (map (fun _ => py "---") columns) ++ py " |" ++ nl in
          match map_result (format_row columns) display_results with
          | Ok lines =>
              {| markdown_results := header ++ concat lines; total_rows := total;
                 displayed_rows := displayed; markdown_error := None |}
          | Raise e =>
              {| markdown_results := py "Error formatting results"; total_rows := total;
                 displayed_rows := 0; markdown_error := Some e |}
          end
      end
  end.

(** mock_response.get_mock_response("summarization_failed")["error"]["message"]:
    without a custom message, a sentence of error_responses. *)
Definition summarization_fallback : M str :=
  match error (get_mock_response (py "summarization_failed") None) with
  | Some {| error_message := JString sentence |} => ret sentence
  | _ => raise (py "'error'")
  end.

(** The messages of the summary call; [dumped] is
    json_utils.dumps(results[:10], indent=2). *)
Definition summary_messages (user_query sql_query : str) (results : list row)
           (dumped system_message : str) : list (str * str) :=
  let results_str :=
    if 10 <? length results
    then dumped ++ nl ++ py "... and " ++ str_of_nat (length results - 10)
         ++ py " more rows"
    else dumped in
  [(py "system", system_message);
   (py "user",
    py "Original question: " ++ user_query ++ nl
    ++ py "SQL query executed: " ++ sql_query ++ nl
    ++ py "Query results: " ++ results_str ++ nl ++ nl
    ++ py "Please summarize these results to answer the original question.")].

(** LLMService.summarize_query_results *)
Definition summarize_query_results (user_query sql_query : str) (results : list row)
           (max_rows : nat) : M str :=
  s <- (try
          (_ <- consult (get_or_initialize_client W TheLLMService) ;;
           match results with
           | [] => ret (py "The query returned no results.")
           | _ :: _ =>
               dumped <- lift (json_dumps W (firstn 10 results)) ;;
               system_message <- consult (get_summary_prompt W) ;;
               let messages := summary_messages user_query sql_query results
                                 dumped system_message in
               response <- create W (LLM_MODEL W) messages None ;;
               m <- first_choice response ;;
               text <- match content m with
                       | Some c => ret (strip (tables W) c)
                       | None => raise (py "'NoneType' object has no attribute 'strip'")
                       end ;;
               let md := format_results_to_markdown results max_rows in
               match markdown_error md with
               | Some _ =>
                   listing <- lift (repr_of_rows W (firstn max_rows results)) ;;
                   ret (text ++ nl ++ nl
                        ++ py "Here are the results (could not format as table due to error):"
                        ++ nl ++ listing)
               | None =>
                   if displayed_rows md <? total_rows md
                   then ret (text ++ nl ++ nl ++ py "Here are the top "
                             ++ str_of_nat (displayed_rows md) ++ py " results out of "
                             ++ str_of_nat (total_rows md) ++ py " total rows:" ++ nl ++ nl
                             ++ markdown_results md)
                   else ret (text ++ nl ++ nl ++ py "Here are all "
                             ++ str_of_nat (total_rows md) ++ py " results:" ++ nl ++ nl
                             ++ markdown_results md)
               end
           end)
        except e => summarization_fallback) ;;
  _ <- log (EvSummarize user_query sql_query s) ;;
  ret s.

End WithWorld.
End LLMService.

(** ** app/agents/sql_agent.py: the calls *)

Module SQLAgent.
Section WithWorld.
Variable W : world.

Definition validate (query : str) : bool * str :=
  validate_query (tables W) (parser W) query.

(** debug_query, "Extract the function call response": the repaired
    query is validated before it is returned. *)
Definition read_fixed_query (response : completion) : M repair :=
  m <- first_choice response ;;
  match tool_calls m with
  | tc :: _ =>
      if str_eqb (function_name tc) (py "fix_sql_query") then
        arguments <- lift (function_arguments tc) ;;
        let fixed_query := get_or arguments (py "fixed_query") (JString []) in
        let error := get_or arguments (py "error") JNull in
        if json_truthy error then ret (NotFixed error)
        else if negb (json_truthy fixed_query)
        then ret (NotFixed (JString (py "Failed to generate a fixed query")))
        else
          match fixed_query with
          | JString q =>
              let '(is_valid, validation_result) := validate q in
              if negb is_valid then ret (NotFixed (JString validation_result))
              else ret (Fixed q)
          | other =>
              (* query.strip() raises inside the try of validate_query,
                 which answers (False, f"Validation error: {str(e)}") *)
              ret (NotFixed (JString (py "Validation error: "
                                      ++ exception_text W Strip other)))
          end
      else ret (NotFixed (JString (py "Failed to debug query")))
  | [] => ret (NotFixed (JString (py "Failed to debug query")))
  end.

(** SQLAgent.debug_query *)
Definition debug_query (query : str) (s : schema_info) (error_message : str)
  : M repair :=
  r <- (try
          (_ <- consult (get_or_initialize_client W TheSQLAgent) ;;
           system_message <- consult (fun tr => get_debug_prompt W tr s error_message) ;;
           let messages := [(py "system", system_message);
                            (py "user", py "Fix this SQL query: " ++ query)] in
           response <-
             (try create W (LLM_MODEL W) messages (Some (py "fix_sql_query"))
              except model_error =>
                if negb (str_eqb (LLM_MODEL W) (py "gpt-3.5-turbo"))
                then create W (py "gpt-3.5-turbo") messages (Some (py "fix_sql_query"))
                else raise model_error) ;;
           read_fixed_query response)
        except e => ret (NotFixed (JString (py "Debugging error: " ++ e)))) ;;
  _ <- log (EvDebug query error_message r) ;;
  ret r.

(** SQLAgent.process_query *)
Definition process_query (query : str) (s : schema_info) : M (bool * str) :=
  let '(fixed_query, was_modified) := detect_and_fix_common_issues (tables W) query s in
  let query := if was_modified then fixed_query else query in
  let '(is_valid, validation_result) := validate query in
  if is_valid then ret (true, query)
  else
    try (_ <- execute_query W query ;;
         ret (true, query))
    except exec_error =>
      (debugged <- debug_query query s exec_error ;;
       match debugged with
       | Fixed debug_result =>
           let '(is_valid', _) := validate debug_result in
           if is_valid' then ret (true, debug_result)
           else ret (false, debug_result)
       | NotFixed _ => ret (false, validation_result)
       end).

(** sql_agent.process_query(query, schema_info) for a query that need
    not be a str: re.sub, the first use detect_and_fix_common_issues
    makes of the query, raises TypeError on anything else, and nothing
    in the agent catches it. *)
Definition process_query_value (query : json) (s : schema_info) : M (bool * str) :=
  match query with
  | JString text => process_query text s
  | other => raise (exception_text W ReSub other)
  end.

End WithWorld.
End SQLAgent.

(** ** app/services/query_service.py *)

Module QueryService.
Section WithWorld.
Variable W : world.
(** self.schema_info and self.table_samples *)
Variable the_schema : schema_info.
Variable table_samples : list (str * list row).

(** The success response of Step 4. *)
Definition success_response (sql : str) (original : option str)
           (query_results : list row) (summary_text : str) : response :=
  {| success := true;
     message := None;
     query := Some sql;
     original_query := original;
     was_debugged := match original with Some _ => Some true | None => None end;
     data := Some query_results;
     summary := Some summary_text;
     record_count := Some (length query_results);
     error := None;
     mock := None |}.

(** Steps 3 and 4 of process_query: the inner try statement. *)
Definition execute_validated (user_query processed_sql : str) : M response :=
  try
    (query_results <- execute_query W processed_sql ;;
     match query_results with
     | [] => ret (get_empty_results_response (Some processed_sql))
     | _ :: _ =>
         summary_text <- LLMService.summarize_query_results W user_query processed_sql
                           query_results 10 ;;
         ret (success_response processed_sql None query_results summary_text)
     end)
  except e =>
    (debugged <- SQLAgent.debug_query W processed_sql the_schema e ;;
     match debugged with
     | Fixed debug_result =>
         try
           (query_results <- execute_query W debug_result ;;
            match query_results with
            | [] => ret (get_empty_results_response (Some debug_result))
            | _ :: _ =>
                summary_text <- LLMService.summarize_query_results W user_query debug_result
                                  query_results 10 ;;
                ret (success_response debug_result (Some processed_sql)
                                      query_results summary_text)
            end)
         except debug_exec_error =>
           ret (get_mock_response (py "execution_error") (Some (JString e)))
     | NotFixed _ => ret (get_mock_response (py "execution_error") (Some (JString e)))
     end).

(** QueryService.process_query.  The customer id and API key given
    with the request only select the credentials and prompts the
    collaborators answer with. *)
Definition process_query (user_query : str) : M response :=
  try
    ('(generation_success, sql_result) <-
       LLMService.generate_sql_query W user_query the_schema table_samples ;;
     if negb generation_success
     then ret (get_mock_response (py "sql_generation_failed") (Some sql_result))
     else
       '(processing_success, processed_sql) <-
         SQLAgent.process_query_value W sql_result the_schema ;;
       if negb processing_success
       then ret (get_mock_response (py "sql_validation_failed") (Some (JString processed_sql)))
       else execute_validated user_query processed_sql)
  except e => ret (get_mock_response (py "general_error") (Some (JString e))).

End WithWorld.
End QueryService.

(** ** Vocabulary of the properties *)

Module Props.
Import Re.

(** The character before the end of [pre], or [prev] when [pre] is empty. *)
Fixpoint last_from (prev : option char) (pre : str) : option char :=
  match pre with
  | [] => prev
  | c :: t => last_from (Some c) t
  end.

(** [keyword] occurs in [text] as a whole word, in some letter case:
    the occurrence [occ] spells the keyword up to the case of its
    letters, and neither the character before it nor the one after it
    is a word character. *)
Definition occurs_as_word (U : unicode) (keyword text : str) : Prop :=
  exists pre occ post,
    text = pre ++ occ ++ post
    /\ map ascii_upper occ = keyword
    /\ word_at U (last_from None pre) = false
    /\ word_at U (hd_error post) = false.

End Props.
Export Props.

(** ** The literal-quoting pass, spelled out

    What the engine computes for string_pattern, as plain recursive
    functions; the properties section proves them equal to the engine. *)

Module FixerModel.
Import Re.

(** The engine found at least one way to match. *)
Definition nonempty {A : Type} (l : list A) : bool :=
  match l with [] => false | _ :: _ => true end.

(** [after_star f x s]: some number of characters of class [f], then [x]. *)
Fixpoint after_star (f : char -> bool) (x : str -> bool) (s : str) : bool :=
  x s || match s with
         | c :: t => f c && after_star f x t
         | [] => false
         end.

(** The first character of [s] is of class [f]. *)
Definition head_is (f : char -> bool) (s : str) : bool :=
  match s with c :: _ => f c | [] => false end.

(** [s] starts with "::". *)
Definition cast_here (s : str) : bool :=
  match s with
  | c :: d :: _ => N.eqb 58 c && N.eqb 58 d
  | _ => false
  end.

(** The body of the lookahead of string_pattern matches at [s]. *)
Definition blocked (U : unicode) (s : str) : bool :=
  after_star (isspace U) (head_is (N.eqb 40)) s
  || (after_star (isspace U) (head_is (N.eqb 39)) s
  || (after_star (isspace U) (head_is (isdecimal U)) s
  || after_star (isspace U) cast_here s)).

(** How many further bareword characters the group takes at [s], the
    longest first, so that the lookahead holds after them. *)
Fixpoint extent (U : unicode) (s : str) : option nat :=
  match (match s with
         | c :: t => if bareword_char c then option_map S (extent U t) else None
         | [] => None
         end) with
  | Some n => Some n
  | None => if blocked U s then None else Some 0
  end.

(** Length of the match of string_pattern at the head of [s]. *)
Definition quote_match (U : unicode) (s : str) : option nat :=
  match s with
  | 61%N :: 32%N :: c :: t =>
      if bareword_char c then option_map (fun n => n + 3) (extent U t) else None
  | _ => None
  end.

Section WithTables.
Variable U : unicode.

(** Where the group followed by the lookahead can end, the longest first. *)
Definition group_ends (prev : option char) (s : str) : list pos :=
  flat_map (matches U (NegLook (lookahead_body U))) (star_chr bareword_char prev s).

(** The text after Fix 1. *)
Definition quoted (s : str) : str := fst (quote_literals U s).

(** What re.sub writes for a piece of the scan. *)
Definition render (x : piece) : str :=
  match x with Hit m => add_quotes_to_strings m | Keep c => [c] end.

(** What the lookahead looks at survives Fix 1. *)
Definition stable (x : str -> bool) : Prop := forall s, x (quoted s) = x s.

End WithTables.

End FixerModel.
Export FixerModel.

(** ** The shape of a request

    The calls a request can make, stage by stage, as the code orders
    them: the state machine of the orchestrator. *)

Module Shapes.

(** A completion call that forces a function: generation or repair. *)
Definition is_tool_completion (e : event) : bool :=
  match e with EvCompletion _ _ (Some _) _ => true | _ => false end.

(** A completion call without a function: the one of the summarizer. *)
Definition is_summary_completion (e : event) : bool :=
  match e with EvCompletion _ _ None _ => true | _ => false end.

Definition is_debug (e : event) : bool :=
  match e with EvDebug _ _ _ => true | _ => false end.

Definition is_failed_debug (e : event) : bool :=
  match e with EvDebug _ _ (NotFixed _) => true | _ => false end.

Definition is_fixed (r : repair) : bool :=
  match r with Fixed _ => true | NotFixed _ => false end.

(** Anything the summarizer does. *)
Definition is_summarization (e : event) : bool :=
  match e with
  | EvSummarize _ _ _ => true
  | EvCompletion _ _ None _ => true
  | _ => false
  end.

(** Number of calls of debug_query in a log. *)
Definition debug_calls (evs : trace) : nat := length (filter is_debug evs).

Fixpoint last_event (evs : trace) : option event :=
  match evs with
  | [] => None
  | [e] => Some e
  | _ :: t => last_event t
  end.

(** Every failed repair is the last thing that happened. *)
Fixpoint failed_repair_is_last (evs : trace) : bool :=
  match evs with
  | [] => true
  | e :: t => (if is_failed_debug e then match t with [] => true | _ :: _ => false end else true)
              && failed_repair_is_last t
  end.

Section WithWorld.
Variable W : world.
Variable the_schema : schema_info.
Variable user_query : list N.

Definition valid (q : list N) : bool := fst (SQLAgent.validate W q).

(** The calls of one debug_query. *)
Inductive debug_events (q e : list N) (r : repair) : trace -> Prop :=
| debug_events_intro cs :
    forallb is_tool_completion cs = true ->
    (forall fixed, r = Fixed fixed -> valid fixed = true) ->
    debug_events q e r (cs ++ [EvDebug q e r]).

(** The calls of one summarize_query_results. *)
Inductive summary_events (sql t : list N) : trace -> Prop :=
| summary_events_intro cs :
    forallb is_summary_completion cs = true ->
    summary_events sql t (cs ++ [EvSummarize user_query sql t]).

(** SQLAgent.process_query on the text [q] the heuristics produced,
    with [reason] the verdict of its validation. *)
Inductive agent_events (q reason : list N) : trace -> bool * list N -> Prop :=
| agent_valid :
    valid q = true ->
    agent_events q reason [] (true, q)
| agent_ran rows :
    valid q = false ->
    agent_events q reason [EvExecute q (Ok rows)] (true, q)
| agent_repaired e fixed evs :
    valid q = false ->
    debug_events q e (Fixed fixed) evs ->
    agent_events q reason (EvExecute q (Raise e) :: evs) (true, fixed)
| agent_failed e m evs :
    valid q = false ->
    debug_events q e (NotFixed m) evs ->
    agent_events q reason (EvExecute q (Raise e) :: evs) (false, reason).

(** What follows an execution that returned [rows]. *)
Inductive answer_events (sql : list N) (original : option (list N))
  : list row -> trace -> response -> Prop :=
| answer_empty :
    answer_events sql original [] [] (get_empty_results_response (Some sql))
| answer_rows r rows t evs :
    summary_events sql t evs ->
    answer_events sql original (r :: rows) evs
      (QueryService.success_response sql original (r :: rows) t).

(** Steps 3 and 4 on the processed query [p]. *)
Inductive execution_events (p : list N) : trace -> response -> Prop :=
| exec_ok rows evs r :
    answer_events p None rows evs r ->
    execution_events p (EvExecute p (Ok rows) :: evs) r
| exec_unrepaired e m evs :
    debug_events p e (NotFixed m) evs ->
    execution_events p (EvExecute p (Raise e) :: evs)
      (get_mock_response (py "execution_error") (Some (JString e)))
| exec_repair_failed e fixed evs e' :
    debug_events p e (Fixed fixed) evs ->
    execution_events p (EvExecute p (Raise e) :: evs ++ [EvExecute fixed (Raise e')])
      (get_mock_response (py "execution_error") (Some (JString e)))
| exec_repaired e fixed evs rows evs' r :
    debug_events p e (Fixed fixed) evs ->
    answer_events fixed (Some p) rows evs' r ->
    execution_events p (EvExecute p (Raise e) :: evs ++ EvExecute fixed (Ok rows) :: evs') r.

(** The value is a str. *)
Definition is_text (v : json) : bool :=
  match v with JString _ => true | _ => false end.

(** A whole request. *)
Inductive request_events : trace -> response -> Prop :=
| request_no_query cs m :
    forallb is_tool_completion cs = true ->
    request_events (cs ++ [EvGenerate user_query (false, m)])
      (get_mock_response (py "sql_generation_failed") (Some m))
| request_not_text cs v :
    forallb is_tool_completion cs = true ->
    is_text v = false ->
    request_events (cs ++ [EvGenerate user_query (true, v)])
      (get_mock_response (py "general_error") (Some (JString (exception_text W ReSub v))))
| request_rejected cs sql evs m :
    forallb is_tool_completion cs = true ->
    (let fixed := detect_and_fix_common_issues (tables W) sql the_schema in
     let q := if snd fixed then fst fixed else sql in
     agent_events q (snd (SQLAgent.validate W q)) evs (false, m)) ->
    request_events (cs ++ EvGenerate user_query (true, JString sql) :: evs)
      (get_mock_response (py "sql_validation_failed") (Some (JString m)))
| request_executed cs sql evs p evs' r :
    forallb is_tool_completion cs = true ->
    (let fixed := detect_and_fix_common_issues (tables W) sql the_schema in
     let q := if snd fixed then fst fixed else sql in
     agent_events q (snd (SQLAgent.validate W q)) evs (true, p)) ->
    execution_events p evs' r ->
    request_events (cs ++ EvGenerate user_query (true, JString sql) :: evs ++ evs') r.

End WithWorld.
End Shapes.
Export Shapes.

(** ** Vocabulary of the pipeline properties *)

Module PipelineProps.

(** An optional field holds a value. *)
Definition present {A : Type} (o : option A) : bool :=
  match o with Some _ => true | None => false end.

(** The invariant of the response: with success, data and query and no
    error; without, an error and no data. *)
Definition envelope_ok (r : response) : bool :=
  if success r
  then present (data r) && present (query r) && negb (present (error r))
  else present (error r) && negb (present (data r)).

(** The response of get_mock_response("execution_error", ...). *)
Definition is_execution_error (r : response) : bool :=
  negb (success r)
  && match error r with
     | Some info => str_eqb (error_type info) (py "execution_error")
     | None => false
     end.

(** The text SQLAgent.process_query validates: the query after
    detect_and_fix_common_issues when that changed it, else the query. *)
Definition the_heuristic_text (W : world) (sql : list N) (s : schema_info) : list N :=
  let fixed := detect_and_fix_common_issues (tables W) sql s in
  if snd fixed then fst fixed else sql.


(** The first choice of [response] carries a call of the function
    [name] whose arguments decode to [args]. *)
Definition structured_reply (name : list N) (response : completion) (args : arguments) : Prop :=
  exists m ms tc tcs,
    response = m :: ms /\ tool_calls m = tc :: tcs
    /\ str_eqb (function_name tc) name = true
    /\ function_arguments tc = Ok args.

(** At log [tr], generate_sql_query gets [response] from the completion
    API: from the configured model, or from gpt-4 after the configured
    model raised. *)
Definition generation_obtains (W : world) (user_query : list N) (s : schema_info)
           (table_samples : list (list N * list row)) (tr : trace)
           (response : completion) : Prop :=
  exists system_message,
    get_or_initialize_client W TheLLMService tr = Ok tt
    /\ get_sql_generation_prompt W tr s table_samples = Ok system_message
    /\ let messages := [(py "system", system_message); (py "user", user_query)] in
       let tool := Some (py "generate_sql_query") in
       (chat_completions_create W tr (LLM_MODEL W) messages tool = Ok response
        \/ exists e,
             chat_completions_create W tr (LLM_MODEL W) messages tool = Raise e
             /\ str_eqb (LLM_MODEL W) (py "gpt-4") = false
             /\ chat_completions_create W
                  (tr ++ [EvCompletion (LLM_MODEL W) messages tool (Raise e)])
                  (py "gpt-4") messages tool = Ok response).

(** The argument [key] is missing or falsy: null, the empty string, or
    another value that counts as false. *)
Definition field_empty (args : arguments) (key : list N) : bool :=
  match dict_get args key with
  | None => true
  | Some v => negb (json_truthy v)
  end.

(** The sentence of error_responses["summarization_failed"]. *)
Definition fallback_sentence : list N :=
  py "I couldn't generate a summary for the query results.".

(** The line summarize_query_results puts before the plain listing. *)
Definition could_not_format : list N :=
  py "Here are the results (could not format as table due to error):".

(** The texts handed to the executor, in order. *)
Definition executed (evs : trace) : list str :=
  flat_map (fun e => match e with EvExecute q _ => [q] | _ => [] end) evs.

End PipelineProps.
Export PipelineProps.

(** ** Concrete collaborators for the examples *)

Module Demo.

(** Tables that classify no code point beyond ASCII. *)
Definition ascii_only : unicode :=
  {| uni_isspace := fun _ => false;
     uni_isdecimal := fun _ => false;
     uni_isalnum := fun _ => false;
     uni_lower := fun c => c;
     uni_upper := fun c => [c];
     uni_ignorecase := N.eqb |}.

(** A stand-in for sqlparse on plain statements (no string literals,
    no comments): a statement ends at a semicolon, and its type is its
    first word in upper case when that is a statement keyword. *)
Fixpoint split_statements (cur : str) (s : str) : list str :=
  match s with
  | [] => match cur with [] => [] | _ :: _ => [rev cur] end
  | c :: t => if N.eqb c 59 then rev (c :: cur) :: split_statements [] t
              else split_statements (c :: cur) t
  end.

Fixpoint take_letters (s : str) : str :=
  match s with
  | c :: t => if ascii_isalpha c then c :: take_letters t else []
  | [] => []
  end.

Definition plain_get_type (stmt : str) : str :=
  let w := map ascii_upper (take_letters (lstrip ascii_only stmt)) in
  if existsb (str_eqb w)
       (map py ["SELECT"; "INSERT"; "UPDATE"; "DELETE"; "DROP"; "CREATE"; "ALTER"]%string)
  then w else py "UNKNOWN".

Definition plain_sqlparse : sqlparse :=
  {| statement := str;
     parse := fun s => Ok (split_statements [] s);
     get_type := plain_get_type |}.

Definition no_table : table := {| columns := []; primary_keys := []; foreign_keys := [] |}.

(** The schema {users: ...} *)
Definition users_schema : schema_info := [(py "users", no_table)].

Definition tool_reply (name : str) (args : arguments) : completion :=
  [ {| tool_calls := [ {| function_name := name; function_arguments := Ok args |} ];
       content := None |} ].

(** A world in which the generation call answers [generated], the
    repair call answers [repaired], the summary call answers "ok", the
    database answers by [db], and cells print by [cell_str]. *)
Definition scripted (generated repaired : arguments)
           (db : trace -> str -> result (list row))
           (cell_str : N -> result str) : world :=
  {| tables := ascii_only;
     parser := plain_sqlparse;
     LLM_MODEL := py "gpt-4o";
     get_or_initialize_client := fun _ _ => Ok tt;
     chat_completions_create := fun _ _ _ tool =>
       match tool with
       | Some name =>
           if str_eqb name (py "generate_sql_query") then Ok (tool_reply name generated)
           else Ok (tool_reply name repaired)
       | None => Ok [ {| tool_calls := []; content := Some (py "ok") |} ]
       end;
     postgres_execute_query := db;
     get_sql_generation_prompt := fun _ _ _ => Ok (py "generate");
     get_debug_prompt := fun _ _ _ => Ok (py "debug");
     get_summary_prompt := fun _ => Ok (py "summarize");
     json_dumps := fun _ => Ok (py "[]");
     str_of_value := cell_str;
     repr_of_rows := fun _ => Ok (py "[...]");
     exception_text := fun op _ =>
       match op with
       | Slice => py "object is not subscriptable"
       | ReSub => py "expected string or bytes-like object"
       | Strip => py "object has no attribute 'strip'"
       end |}.

Definition never_prints : N -> result (list N) := fun _ => Raise (py "cannot print").
Definition prints : N -> result (list N) := fun _ => Ok (py "1").

Definition query_reply (sql : string) : arguments := [(py "query", JString (py sql))].
Definition fixed_reply (sql : string) : arguments :=
  [(py "fixed_query", JString (py sql)); (py "explanation", JString (py "fixed"))].

(** The generator answers a destructive statement; the database accepts everything. *)
Definition destructive_world : world :=
  scripted (query_reply "DROP TABLE users") (fixed_reply "SELECT 1")
           (fun _ _ => Ok []) prints.

(** The generator answers two statements. *)
Definition two_statement_world : world :=
  scripted (query_reply "SELECT * FROM users; SELECT * FROM secrets") (fixed_reply "SELECT 1")
           (fun _ _ => Ok []) prints.

(** Nothing the generator or the repairer proposes ever runs. *)
Definition failing_world : world :=
  scripted (query_reply "SELEC * FROM users") (fixed_reply "SELECT * FROM usrs")
           (fun _ _ => Raise (py "relation does not exist")) prints.

(** The reply carries both an error and a query. *)
Definition declining_world : world :=
  scripted [(py "query", JString (py "SELECT 1")); (py "error", JString (py "cannot answer"))]
           (fixed_reply "SELECT 1") (fun _ _ => Ok []) prints.

(** The query is fine and finds nothing. *)
Definition empty_world : world :=
  scripted (query_reply "SELECT * FROM users") (fixed_reply "SELECT 1")
           (fun _ _ => Ok []) prints.

(** The generated query names a column that does not exist; the
    repaired one runs. *)
Definition typo_world : world :=
  scripted (query_reply "SELECT nam FROM users") (fixed_reply "SELECT name FROM users")
           (fun _ q => if str_eqb q (py "SELECT name FROM users")
                       then Ok [[(py "name", VStr (py "ann"))]]
                       else Raise (py "column nam does not exist"))
           prints.


(** The reply holds a list where the query should be. *)
Definition list_world : world :=
  scripted [(py "query", JArray 0 true)] (fixed_reply "SELECT 1") (fun _ _ => Ok []) prints.

(** A cell of the result cannot be printed. *)
Definition unprintable_world : world :=
  scripted (query_reply "SELECT a FROM t") (fixed_reply "SELECT 1")
           (fun _ _ => Ok []) never_prints.
Definition unprintable_rows : list row := [[(py "a", VOther 0)]].

End Demo.

(** ** More vocabulary: what a log holds, what a table shows *)

Module Accounting.

(** The text without its single quotes. *)
Definition unquote (s : list N) : list N := filter (fun c => negb (N.eqb c 39)) s.

Definition is_completion (e : event) : bool :=
  match e with EvCompletion _ _ _ _ => true | _ => false end.

(** Number of calls of the completion API in a log. *)
Definition completion_calls (evs : trace) : nat := length (filter is_completion evs).

(** The models asked for a completion, in order. *)
Definition models (evs : trace) : list (list N) :=
  flat_map (fun e => match e with EvCompletion m _ _ _ => [m] | _ => [] end) evs.

(** The completion calls of a service that falls back from the
    configured model: none; or one, to the configured model, which
    either returned or is the fallback model itself; or two with the
    same messages, the first to the configured model, which raised, the
    second to the fallback model. *)
Definition fallback_calls (model fallback tool : list N) (cs : trace) : Prop :=
  cs = []
  \/ (exists messages outcome,
        cs = [EvCompletion model messages (Some tool) outcome]
        /\ (forall e, outcome = Raise e -> str_eqb model fallback = true))
  \/ (exists messages e outcome,
        cs = [EvCompletion model messages (Some tool) (Raise e);
              EvCompletion fallback messages (Some tool) outcome]
        /\ str_eqb model fallback = false).

(** Truth value of what debug_query returns with its flag. *)
Definition repair_truthy (r : repair) : bool :=
  match r with
  | Fixed fixed_query => truthy fixed_query
  | NotFixed reason => json_truthy reason
  end.

(** The texts handed to the executor with what each returned, in order. *)
Definition executions (evs : trace) : list (list N * result (list row)) :=
  flat_map (fun e => match e with EvExecute q o => [(q, o)] | _ => [] end) evs.

(** The outcomes of generate_sql_query in a log. *)
Definition generations (evs : trace) : list (bool * json) :=
  flat_map (fun e => match e with EvGenerate _ o => [o] | _ => [] end) evs.


(** The columns of the table format_results_to_markdown builds. *)
Definition header_columns (results : list row) (max_rows : nat) : list (list N) :=
  fold_left LLMService.add_columns (firstn max_rows results) [].

End Accounting.
Export Accounting.

(** ** Python dicts written to *)

Module PyDict.

(** d[k] = v: the value of an existing key is replaced in place, a new
    key goes to the end. *)
Fixpoint dict_set {A : Type} (d : list (list N * A)) (k : list N) (v : A) : list (list N * A) :=
  match d with
  | [] => [(k, v)]
  | (k', v') :: d' => if str_eqb k' k then (k', v) :: d' else (k', v') :: dict_set d' k v
  end.

End PyDict.
Export PyDict.

(** ** Documents of the credential and prompt store *)

Module Mongo.

(** A value of a document as the code looks at it: None, a str, a
    nested document, bytes (which have the method strip of a str
    without being one), or anything else (numbers, booleans, dates,
    ids, lists), of which only the truth value matters. *)
#[warnings="-register-all"] Inductive pyval : Type :=
| PNone
| PStr (s : list N)
| PDict (items : list (list N * pyval))
| PBytes (b : list N)
| POther (tag : N) (truth_value : bool).

Definition document : Type := list (list N * pyval).

(** bool(v) *)
Definition truth (v : pyval) : bool :=
  match v with
  | PNone => false
  | PStr s => truthy s
  | PDict items => match items with [] => false | _ :: _ => true end
  | PBytes b => match b with [] => false | _ :: _ => true end
  | POther _ b => b
  end.

(** The value has a method strip. *)
Definition has_strip (v : pyval) : bool :=
  match v with
  | PStr _ | PBytes _ => true
  | _ => false
  end.

(** What the driver answers.  The methods of MongoDBClient catch every
    exception, so a failure of the driver is an answer like any other. *)
Record store : Type := {
  (* credentials_collection.find_one({"customer_id": customer_id}) *)
  find_credentials : list N -> result (option document);
  (* prompts_collection.find_one({"prompt_id": p, "customer_id": c}) *)
  find_customer_prompt : list N -> list N -> result (option document);
  (* prompts_collection.find_one({"prompt_id": p, "is_default": True}) *)
  find_default_prompt : list N -> result (option document)
}.

Section WithStore.
Variable S : store.

(** `if doc:` for what find_one answered *)
Definition found (d : option document) : option document :=
  match d with
  | Some (kv :: rest) => Some (kv :: rest)
  | _ => None
  end.

(** `if not api_key or not api_key.strip()`, the check
    get_credentials makes of a stored key before it logs a warning:
    the call of strip raises on a key that is truthy and has no such
    method. *)
Definition key_check_raises (credentials : document) : bool :=
  match dict_get credentials (py "openai_api_key") with
  | Some api_key => truth api_key && negb (has_strip api_key)
  | None => false
  end.

(** MongoDBClient.get_credentials: None when nothing is found and when
    anything inside the try statement raises, the check of the key
    included. *)
Definition get_credentials (customer_id : list N) : option document :=
  match find_credentials S customer_id with
  | Ok d =>
      match found d with
      | Some credentials => if key_check_raises credentials then None else Some credentials
      | None => None
      end
  | Raise _ => None
  end.

(** doc["prompt_text"] inside the try of get_prompt: a missing key
    raises KeyError, which the method turns into None. *)
Definition prompt_text_of (doc : document) : pyval :=
  match dict_get doc (py "prompt_text") with
  | Some v => v
  | None => PNone
  end.

(** MongoDBClient.get_prompt *)
Definition get_prompt (prompt_id : list N) (customer_id : option (list N)) : pyval :=
  let default_prompt :=
    match find_default_prompt S prompt_id with
    | Raise _ => PNone
    | Ok d => match found d with
              | Some doc => prompt_text_of doc
              | None => PNone
              end
    end in
  match customer_id with
  | Some (c :: cid) =>
      match find_customer_prompt S prompt_id (c :: cid) with
      | Raise _ => PNone
      | Ok d => match found d with
                | Some doc => prompt_text_of doc
                | None => default_prompt
                end
      end
  | _ => default_prompt
  end.

(** MongoDBClient.get_customer_prompt_settings *)
Definition get_customer_prompt_settings (customer_id : list N) : pyval :=
  match get_credentials customer_id with
  | Some credentials =>
      match dict_get credentials (py "prompt_settings") with
      | Some v => v
      | None => PDict []
      end
  | None => PDict []
  end.

End WithStore.
End Mongo.
Export Mongo.

(** ** The client and the prompts of a service

    LLMService and SQLAgent hold the same state and resolve the API key
    and the prompts by the same code, up to the texts of two errors. *)

Module ServiceState.

Record service_state : Type := {
  customer_id : option (list N);
  _initial_api_key : option (list N);
  api_key : option (list N);              (* set by QueryService.process_query *)
  client : option N;                      (* the OpenAI object, by identity *)
  current_api_key_in_use : option (list N)
}.

(** What lies outside: the character tables, the store, the
    constructor OpenAI(api_key=...), and str(e) of the AttributeError
    or TypeError a value raises when the code calls on it a method of
    str or dict that it does not have, or, for bytes, that does not
    take a str. *)
Record outside : Type := {
  chars : unicode;
  mongo : store;
  OpenAI : list N -> result N;
  no_such_method : pyval -> list N
}.

Section WithOutside.
Variable O : outside.

(** The key of the customer, when the customer has one that is truthy. *)
Definition customer_key (st : service_state) : option pyval :=
  match customer_id st with
  | Some (c :: cid) =>
      match get_credentials (mongo O) (c :: cid) with
      | Some customer =>
          match dict_get customer (py "openai_api_key") with
          | Some v => if truth v then Some v else None
          | None => None
          end
      | None => None
      end
  | _ => None
  end.

Definition key_required (which : service) : list N :=
  match which with
  | TheLLMService => py "OpenAI API key is required."
  | TheSQLAgent => py "OpenAI API key is required for SQLAgent."
  end.

(** _resolve_api_key *)
Definition _resolve_api_key (which : service) (st : service_state) : result (list N) :=
  let key_to_use :=
    match customer_key st with
    | Some v => v
    | None => match _initial_api_key st with Some k => PStr k | None => PNone end
    end in
  if negb (truth key_to_use) then Raise (key_required which)
  else
    match key_to_use with
    | PStr k =>
        match strip (chars O) k with
        | [] => Raise (key_required which)
        | c :: k' => Ok (c :: k')
        end
    | v => Raise (no_such_method O v)
    end.

Definition same_key (a : option (list N)) (b : list N) : bool :=
  match a with Some k => str_eqb k b | None => false end.

(** _get_or_initialize_client: the outcome, the state afterwards, and
    the keys the constructor was called with. *)
Definition _get_or_initialize_client (which : service) (st : service_state)
  : result N * service_state * list (list N) :=
  match _resolve_api_key which st with
  | Raise e => (Raise e, st, [])
  | Ok resolved_api_key =>
      match client st, same_key (current_api_key_in_use st) resolved_api_key with
      | Some c, true => (Ok c, st, [])
      | _, _ =>
          match OpenAI O resolved_api_key with
          | Ok c =>
              (Ok c,
               {| customer_id := customer_id st; _initial_api_key := _initial_api_key st;
                  api_key := api_key st; client := Some c;
                  current_api_key_in_use := Some resolved_api_key |},
               [resolved_api_key])
          | Raise e =>
              (Raise (match which with
                      | TheLLMService => py "Failed to initialize OpenAI client: " ++ e
                      | TheSQLAgent => e
                      end),
               {| customer_id := customer_id st; _initial_api_key := _initial_api_key st;
                  api_key := api_key st; client := None;
                  current_api_key_in_use := None |},
               [resolved_api_key])
          end
      end
  end.

Definition same_customer (a b : option (list N)) : bool :=
  match a, b with
  | Some x, Some y => str_eqb x y
  | None, None => true
  | _, _ => false
  end.

(** set_customer_id *)
Definition set_customer_id (new_id : option (list N)) (st : service_state) : service_state :=
  if same_customer (customer_id st) new_id then st
  else {| customer_id := new_id; _initial_api_key := _initial_api_key st;
          api_key := api_key st; client := None; current_api_key_in_use := None |}.

(** QueryService.process_query, lines 54 to 60, on one of the two services. *)
Definition prepare (new_id openai_api_key : option (list N)) (st : service_state)
  : service_state :=
  let st' := set_customer_id new_id st in
  match openai_api_key with
  | Some (c :: k) =>
      {| customer_id := customer_id st'; _initial_api_key := _initial_api_key st';
         api_key := Some (c :: k); client := client st';
         current_api_key_in_use := current_api_key_in_use st' |}
  | _ => st'
  end.

(** The two steps after the customer settings: `if not prompt_text`,
    ask the prompt collection; `if not prompt_text` still, take the
    default of the source. *)
Definition or_stored_prompt (prompt_id default : list N) (st : service_state)
           (prompt_text : pyval) : pyval :=
  let prompt_text :=
    if negb (truth prompt_text) then get_prompt (mongo O) prompt_id (customer_id st)
    else prompt_text in
  if negb (truth prompt_text) then PStr default else prompt_text.

(** The lookup shared by get_sql_generation_prompt, get_debug_prompt
    and get_summary_prompt: the prompt settings of the customer, then
    the prompt collection, then the default of the source. *)
Definition lookup_prompt (prompt_id default : list N) (st : service_state)
  : result pyval :=
  match customer_id st with
  | Some (c :: cid) =>
      match get_customer_prompt_settings (mongo O) (c :: cid) with
      | PDict prompt_settings =>
          Ok (or_stored_prompt prompt_id default st
                (match dict_get prompt_settings prompt_id with
                 | Some v => v
                 | None => PNone
                 end))
      | v => Raise (no_such_method O v)
      end
  | _ => Ok (or_stored_prompt prompt_id default st PNone)
  end.

Definition DEFAULT_SUMMARY_PROMPT : list N :=
  py "You are an expert data analyst that summarizes SQL query results." ++ nl
  ++ py "Your task is to provide a clear, concise summary of the query results in natural language." ++ nl
  ++ py "Focus on key findings, patterns, and the most relevant information that answers the user's original question." ++ nl
  ++ py "Keep the summary simple, direct, and to the point.".

(** LLMService.get_summary_prompt *)
Definition get_summary_prompt (st : service_state) : result pyval :=
  lookup_prompt (py "result_summary_system_message") DEFAULT_SUMMARY_PROMPT st.

End WithOutside.
End ServiceState.


(** ** app/db/mongo_client.py: the writes *)

Module MongoWrites.

Definition optional (v : option (list N)) : pyval :=
  match v with Some s => PStr s | None => PNone end.

Section WithTables.
Variable U : unicode.

(** openai_api_key.strip() if openai_api_key, else the empty string *)
Definition stored_key (openai_api_key : option (list N)) : list N :=
  match openai_api_key with
  | Some (c :: k) => strip U (c :: k)
  | _ => []
  end.

(** credential_data of create_credentials *)
Definition credential_data (customer_id : list N) (openai_api_key : option (list N))
           (postgres_username postgres_password postgres_host postgres_db : option (list N))
  : document :=
  [(py "customer_id", PStr customer_id);
   (py "openai_api_key", PStr (stored_key openai_api_key));
   (py "postgres_connection",
    PDict [(py "username", optional postgres_username);
           (py "password", optional postgres_password);
           (py "host", optional postgres_host);
           (py "database", optional postgres_db)]);
   (py "prompt_settings",
    PDict [(py "sql_system_message", PNone);
           (py "sql_debug_system_message", PNone);
           (py "result_summary_system_message", PNone)])].

End WithTables.

(** The body of the loop of update_credentials for one keyword argument. *)
Definition update_step (updates : document) (kv : list N * pyval) : document :=
  let '(key, value) := kv in
  match value with
  | PNone => updates
  | _ =>
      if str_eqb key (py "openai_api_key") then dict_set updates key value
      else if existsb (str_eqb key)
                (map py ["postgres_username"; "postgres_password"; "postgres_host";
                         "postgres_db"]%string)
      then dict_set updates (py "postgres_connection." ++ replace key (py "postgres_") []) value
      else if startswith key (py "prompt_")
      then dict_set updates (py "prompt_settings." ++ replace key (py "prompt_") []) value
      else updates
  end.

(** The $set document update_credentials builds from its keyword arguments. *)
Definition updates_of (kwargs : list (list N * pyval)) : document :=
  fold_left update_step kwargs [].

(** update_credentials: the answer, and the $set document handed to
    update_one when there is one; [update_one] tells whether the driver
    raised. *)
Definition update_credentials (update_one : list N -> document -> result unit)
           (customer_id : list N) (kwargs : list (list N * pyval))
  : bool * option document :=
  match updates_of kwargs with
  | [] => (false, None)
  | kv :: rest =>
      match update_one customer_id (kv :: rest) with
      | Ok _ => (true, Some (kv :: rest))
      | Raise _ => (false, Some (kv :: rest))
      end
  end.

(** The keys of the $set document. *)
Definition update_key_ok (k : list N) : Prop :=
  k = py "openai_api_key"
  \/ In k (map py ["postgres_connection.username"; "postgres_connection.password";
                   "postgres_connection.host"; "postgres_connection.db"]%string)
  \/ startswith k (py "prompt_settings.") = true.

End MongoWrites.

(** ** app/utils/sql_validator.py *)

Module SQLValidator.
Section WithTables.
Variable U : unicode.
Variable P : sqlparse.

(** sub in s *)
Fixpoint contains (s sub : list N) : bool :=
  startswith s sub
  || match s with
     | _ :: t => contains t sub
     | [] => false
     end.

(** SQLValidator.is_read_only *)
Definition is_read_only (query : list N) : bool :=
  match parse P query with
  | Ok (stmt :: _) => str_eqb (get_type P stmt) (py "SELECT")
  | Ok [] => false
  | Raise _ => false
  end.

(** SQLValidator.has_blocked_keywords; self.blocked_keywords is a set,
    and the answer does not depend on the order it is walked in. *)
Definition has_blocked_keywords (query : list N) : bool :=
  let query_upper := upper U query in
  existsb (fun keyword => contains (py " " ++ query_upper ++ py " ")
                                   (py " " ++ keyword ++ py " "))
          Config.BLOCKED_SQL_KEYWORDS.

(** SQLValidator.validate_query *)
Definition validate_query (query : list N) : bool * option (list N) :=
  if negb (truthy query) || negb (truthy (strip U query))
  then (false, Some (py "Empty query"))
  else if negb (is_read_only query)
  then (false, Some (py "Only SELECT queries are allowed"))
  else if has_blocked_keywords query
  then (false, Some (py "Query contains disallowed keywords"))
  else (true, None).

(** SQLValidator.validate_and_sanitize *)
Definition validate_and_sanitize (query : list N) : bool * option (list N) :=
  let '(is_valid, error) := validate_query query in
  if negb is_valid then (false, error) else (true, Some query).

End WithTables.
End SQLValidator.

(** ** app/core/auth.py *)

Module Auth.

(** What a call of python-jose gives: a value, a JWTError, or another
    exception. *)
Inductive jose (A : Type) : Type :=
| Decoded (a : A)
| JWTError (msg : list N)
| OtherError (msg : list N).
Arguments Decoded {A} a.
Arguments JWTError {A} msg.
Arguments OtherError {A} msg.

(** What get_current_customer ends in: the customer, the 401 of
    credentials_exception, or an exception it does not catch. *)
Inductive access : Type :=
| Granted (customer : document)
| Unauthorized
| Crashed (msg : list N).

(** What lies outside auth.py. *)
Record outside : Type := {
  mongo : store;
  SECRET_KEY : pyval;                                   (* settings.SECRET_KEY *)
  jwt_decode : list N -> pyval -> jose document;        (* jwt.decode(token, key, algorithms=["HS256"]) *)
  jwt_get_unverified_claims : list N -> jose document;
  (* mongo_client.get_credentials for an id that is not a str *)
  credentials_of_other : pyval -> option document;
  (* TokenData(customer_id=v).customer_id for a v that is not a str *)
  token_data_of_other : pyval -> result (list N)
}.

Section WithOutside.
Variable O : outside.

(** plain_password == stored_password, the left side being a str *)
Definition str_equals (s : list N) (v : pyval) : bool :=
  match v with
  | PStr s' => str_eqb s s'
  | _ => false
  end.

(** verify_password *)
Definition verify_password (plain_password : list N) (stored_password : pyval) : bool :=
  match stored_password with
  | PDict items =>
      if present (dict_get items (py "$binary")) then false
      else str_equals plain_password stored_password
  | _ => str_equals plain_password stored_password
  end.

(** get_password_hash *)
Definition get_password_hash (password : list N) : list N := password.

(** authenticate_customer; [None] is the False of the source. *)
Definition authenticate_customer (customer_id password : list N) : option document :=
  match get_credentials (mongo O) customer_id with
  | None => None
  | Some customer =>
      match dict_get customer (py "password") with
      | None => None
      | Some stored_password =>
          if negb (verify_password password stored_password) then None
          else Some customer
      end
  end.

(** mongo_client.get_credentials(customer_id) for any value *)
Definition credentials_for (customer_id : pyval) : option document :=
  match customer_id with
  | PStr s => get_credentials (mongo O) s
  | v => credentials_of_other O v
  end.

(** get_customer_secret_key: the key under security.secret_key of the
    customer; every other case, a failed membership test or index
    included, ends at settings.SECRET_KEY. *)
Definition get_customer_secret_key (customer_id : pyval) : pyval :=
  if truth customer_id then
    match credentials_for customer_id with
    | Some customer =>
        match dict_get customer (py "security") with
        | Some (PDict security) =>
            match dict_get security (py "secret_key") with
            | Some key => key
            | None => SECRET_KEY O
            end
        | _ => SECRET_KEY O
        end
    | None => SECRET_KEY O
    end
  else SECRET_KEY O.

(** payload.get("sub") *)
Definition sub_of (payload : document) : pyval :=
  match dict_get payload (py "sub") with
  | Some v => v
  | None => PNone
  end.

(** TokenData(customer_id=customer_id).customer_id *)
Definition token_data (customer_id : pyval) : result (list N) :=
  match customer_id with
  | PStr s => Ok s
  | v => token_data_of_other O v
  end.

(** The lines after the inner try statement of get_current_customer. *)
Definition accept_customer (customer_id : pyval) : access :=
  if negb (truth customer_id) then Unauthorized
  else
    match token_data customer_id with
    | Raise e => Crashed e
    | Ok id =>
        match get_credentials (mongo O) id with
        | None => Unauthorized
        | Some customer => Granted customer
        end
    end.

(** get_current_customer *)
Definition get_current_customer (token : list N) : access :=
  match jwt_decode O token (SECRET_KEY O) with
  | Decoded payload => accept_customer (sub_of payload)
  | OtherError e => Crashed e
  | JWTError _ =>
      match jwt_get_unverified_claims O token with
      | JWTError _ => Unauthorized
      | OtherError e => Crashed e
      | Decoded unverified_payload =>
          let customer_id := sub_of unverified_payload in
          if negb (truth customer_id) then Unauthorized
          else
            match jwt_decode O token (get_customer_secret_key customer_id) with
            | JWTError _ => Unauthorized
            | OtherError e => Crashed e
            | Decoded _ => accept_customer customer_id
            end
      end
  end.

End WithOutside.
End Auth.

(** ** app/db/postgres_client.py *)

Module PostgresClient.

(** What execute_query asks of psycopg2, in order, with whether the
    call raised. *)
Inductive driver_call : Type :=
| Connect (ok : bool)
| Cursor (ok : bool)
| Execute (query : list N) (ok : bool)
| Fetchall (ok : bool)
| Close (ok : bool).

(** The answers of the driver to one call of execute_query.  close may
    be called twice and answer differently. *)
Record driver : Type := {
  connect : result unit;
  cursor : result unit;
  execute : list N -> result unit;
  fetchall : result (list row);
  close_first : result unit;
  close_again : result unit
}.

Definition succeeded {A : Type} (r : result A) : bool :=
  match r with Ok _ => true | Raise _ => false end.

Section WithDriver.
Variable D : driver.

(** The except branch of execute_query once a connection is open:
    close, then raise the error again; a failure of close replaces it. *)
Definition cleanup (close : result unit) (e : list N) (calls : list driver_call)
  : result (list row) * list driver_call :=
  match close with
  | Ok _ => (Raise e, calls ++ [Close true])
  | Raise e' => (Raise e', calls ++ [Close false])
  end.

(** PostgreSQLClient.execute_query *)
Definition execute_query (query : list N) : result (list row) * list driver_call :=
  match connect D with
  | Raise e => (Raise e, [Connect false])
  | Ok _ =>
      match cursor D with
      | Raise e => cleanup (close_first D) e [Connect true; Cursor false]
      | Ok _ =>
          match execute D query with
          | Raise e => cleanup (close_first D) e [Connect true; Cursor true; Execute query false]
          | Ok _ =>
              match fetchall D with
              | Raise e =>
                  cleanup (close_first D) e
                    [Connect true; Cursor true; Execute query true; Fetchall false]
              | Ok results =>
                  match close_first D with
                  | Ok _ =>
                      (Ok results,
                       [Connect true; Cursor true; Execute query true; Fetchall true;
                        Close true])
                  | Raise e =>
                      cleanup (close_again D) e
                        [Connect true; Cursor true; Execute query true; Fetchall true;
                         Close false]
                  end
              end
          end
      end
  end.

End WithDriver.

Definition is_close (c : driver_call) : bool :=
  match c with Close _ => true | _ => false end.

Definition closes (calls : list driver_call) : nat := length (filter is_close calls).

(** The texts handed to cursor.execute. *)
Definition statements (calls : list driver_call) : list (list N) :=
  flat_map (fun c => match c with Execute q _ => [q] | _ => [] end) calls.

End PostgresClient.

(** ** app/db/postgres_client.py: the foreign keys read by query *)

Module SchemaFallback.

(** A row of the foreign-key query: (constrained_column,
    referred_table, referred_column). *)
Definition fk_row : Type := (list N * list N * list N)%type.

Definition constrained_column (r : fk_row) : list N := fst (fst r).
Definition referred_table_of (r : fk_row) : list N := snd (fst r).
Definition referred_column (r : fk_row) : list N := snd r.

(** temp_dict[key]["constrained_columns"].append(...) and the same
    for the referred column, on the entry of [key]. *)
Fixpoint append_columns (temp_dict : list (list N * foreign_key)) (key : list N)
         (r : fk_row) : list (list N * foreign_key) :=
  match temp_dict with
  | [] => []
  | (k, fk) :: rest =>
      if str_eqb k key
      then (k, {| constrained_columns := constrained_columns fk ++ [constrained_column r];
                  referred_table := referred_table fk;
                  referred_columns := referred_columns fk ++ [referred_column r] |}) :: rest
      else (k, fk) :: append_columns rest key r
  end.

(** The body of the loop of _get_foreign_keys_fallback. *)
Definition group_step (temp_dict : list (list N * foreign_key)) (r : fk_row)
  : list (list N * foreign_key) :=
  let key := referred_table_of r in
  let temp_dict :=
    if present (dict_get temp_dict key) then temp_dict
    else temp_dict ++ [(key, {| constrained_columns := [];
                                referred_table := referred_table_of r;
                                referred_columns := [] |})] in
  append_columns temp_dict key r.

(** list(temp_dict.values()) after the loop. *)
Definition group_foreign_keys (rows : list fk_row) : list foreign_key :=
  map snd (fold_left group_step rows []).

(** The rows that refer to [table]. *)
Definition rows_to (table : list N) (rows : list fk_row) : list fk_row :=
  filter (fun r => str_eqb (referred_table_of r) table) rows.

(** The distinct elements of a list, each at its first place. *)
Fixpoint first_seen (seen l : list (list N)) : list (list N) :=
  match l with
  | [] => []
  | x :: t => if existsb (str_eqb x) seen then first_seen seen t
              else x :: first_seen (x :: seen) t
  end.

(** The entry of [t] after the rows [seen]. *)
Definition entry (seen : list fk_row) (t : list N) : list N * foreign_key :=
  (t, {| constrained_columns := map constrained_column (rows_to t seen);
         referred_table := t;
         referred_columns := map referred_column (rows_to t seen) |}).

(** The dict after the rows [seen]: one entry per table referred to,
    in first-seen order, holding the columns of its rows in order. *)
Definition grouped (seen : list fk_row) : list (list N * foreign_key) :=
  map (fun t => (t, {| constrained_columns := map constrained_column (rows_to t seen);
                       referred_table := t;
                       referred_columns := map referred_column (rows_to t seen) |}))
      (first_seen [] (map referred_table_of seen)).

End SchemaFallback.

(** ** app/services/query_service.py: loading the schema *)

Module SchemaLoad.

(** self.schema_info and self.table_samples of the QueryService *)
Record query_service_state : Type := {
  schema_info : option Data.schema_info;
  table_samples : list (list N * list row)
}.

Section WithWorld.
Variable W : world.
(** postgres_client.get_schema_info() *)
Variable get_schema_info : trace -> result Data.schema_info.

(** f"SELECT * FROM {table_name} LIMIT {limit}" *)
Definition sample_query (table_name : list N) (limit : nat) : list N :=
  py "SELECT * FROM " ++ table_name ++ py " LIMIT " ++ str_of_nat limit.

(** PostgreSQLClient.get_table_sample *)
Definition get_table_sample (table_name : list N) (limit : nat) : M (list row) :=
  try execute_query W (sample_query table_name limit)
  except e => ret [].

(** The loop of _load_schema_info over the tables. *)
Fixpoint load_samples (table_names : list (list N)) (samples : list (list N * list row))
  : M (list (list N * list row)) :=
  match table_names with
  | [] => ret samples
  | table_name :: rest =>
      sample <- get_table_sample table_name 3 ;;
      load_samples rest (match sample with
                         | [] => samples
                         | _ :: _ => dict_set samples table_name sample
                         end)
  end.

(** What the executor answers to the sample queries of the tables,
    one after the other, from the log [tr] on. *)
Fixpoint sample_outcomes (tr : trace) (table_names : list (list N))
  : list (list N * result (list row)) :=
  match table_names with
  | [] => []
  | table_name :: rest =>
      let o := postgres_execute_query W tr (sample_query table_name 3) in
      (table_name, o)
      :: sample_outcomes (tr ++ [EvExecute (sample_query table_name 3) o]) rest
  end.

(** The sample of a table is kept when the executor returned rows. *)
Definition keep_sample (samples : list (list N * list row))
           (answer : list N * result (list row)) : list (list N * list row) :=
  match snd answer with
  | Ok (r :: rows) => dict_set samples (fst answer) (r :: rows)
  | _ => samples
  end.

(** QueryService._load_schema_info *)
Definition _load_schema_info (st : query_service_state) : M query_service_state :=
  try
    (s <- consult get_schema_info ;;
     samples <- load_samples (keys s) (table_samples st) ;;
     ret {| schema_info := Some s; table_samples := samples |})
  except e => ret {| schema_info := Some []; table_samples := table_samples st |}.

End WithWorld.
End SchemaLoad.

(** ** More concrete collaborators *)

(** A store with three customers: acme, whose key has blanks around
    it; void, whose key is blank; bolt, as create_credentials wrote it. *)
Module DemoStore.
Import ServiceState.

Definition acme : document :=
  [(py "customer_id", PStr (py "acme"));
   (py "openai_api_key", PStr (py "  sk-acme "));
   (py "prompt_settings",
    PDict [(py "sql_system_message", PNone);
           (py "result_summary_system_message", PStr (py "Be brief."))])].

Definition void : document :=
  [(py "customer_id", PStr (py "void")); (py "openai_api_key", PStr (py "   "))].

Definition bolt : document :=
  MongoWrites.credential_data Demo.ascii_only (py "bolt") (Some (py " sk-bolt ")) None None
    None None.

Definition three_customers : store :=
  {| find_credentials := fun cid =>
       if str_eqb cid (py "acme") then Ok (Some acme)
       else if str_eqb cid (py "void") then Ok (Some void)
       else if str_eqb cid (py "bolt") then Ok (Some bolt)
       else Ok None;
     find_customer_prompt := fun _ _ => Ok None;
     find_default_prompt := fun _ => Raise (py "connection refused") |}.

Definition demo_outside : outside :=
  {| chars := Demo.ascii_only;
     mongo := three_customers;
     OpenAI := fun _ => Ok 1%N;
     no_such_method := fun _ => py "object has no attribute" |}.

Definition fresh (cid : option (list N)) : service_state :=
  {| customer_id := cid; _initial_api_key := Some (py "sk-global"); api_key := None;
     client := None; current_api_key_in_use := None |}.

End DemoStore.

(** A store and a token check for the examples: acme signs its tokens
    with a key of its own. *)
Module DemoAuth.
Import Auth.

Definition acme : document :=
  [(py "customer_id", PStr (py "acme"));
   (py "password", PStr (py "s3cret"));
   (py "security", PDict [(py "secret_key", PStr (py "k-acme"))])].

(** The right password, and a number where the API key should be. *)
Definition odd : document :=
  [(py "customer_id", PStr (py "odd"));
   (py "password", PStr (py "s3cret"));
   (py "openai_api_key", POther 42 true)].

Definition demo_outside : Auth.outside :=
  {| Auth.mongo :=
       {| find_credentials := fun cid => if str_eqb cid (py "acme") then Ok (Some acme)
                                         else if str_eqb cid (py "odd") then Ok (Some odd)
                                         else Ok None;
          find_customer_prompt := fun _ _ => Ok None;
          find_default_prompt := fun _ => Ok None |};
     SECRET_KEY := PStr (py "k-default");
     jwt_decode := fun token key =>
       match key with
       | PStr k => if str_eqb k token then Decoded [(py "sub", PStr (py "acme"))]
                   else JWTError (py "Signature verification failed.")
       | _ => JWTError (py "Signature verification failed.")
       end;
     jwt_get_unverified_claims := fun _ => Decoded [(py "sub", PStr (py "acme"))];
     credentials_of_other := fun _ => None;
     token_data_of_other := fun _ => Raise (py "Input should be a valid string") |}.

End DemoAuth.


(** * Properties *)

(** ** The safety validator *)

Section Validator.
Import Re.
Variable U : unicode.

Lemma search_from_app (r : regex) (pre : str) :
  forall prev s,
    matches U r (last_from prev pre, s) <> [] ->
    search_from U r prev (pre ++ s) = true.
Proof.
  induction pre as [|c pre IH]; intros prev s Hm.
  - change (search_from U r prev s = true). simpl in Hm.
    destruct s; simpl; destruct (matches U r _); congruence.
  - change (search_from U r prev (c :: (pre ++ s)) = true).
    simpl.
    match goal with |- context [matches U r ?p] => destruct (matches U r p) end;
      [|reflexivity].
    apply IH. exact Hm.
Qed.

Lemma upper_letter_ignorecase (k c : char) :
  ascii_isupper k = true -> ascii_upper c = k ->
  ignorecase U k c = true /\ isword U c = true.
Proof.
  unfold ascii_isupper, ascii_upper, ascii_islower, between.
  intros Hk Hc.
  apply andb_true_iff in Hk. destruct Hk as [H1 H2].
  apply N.leb_le in H1. apply N.leb_le in H2.
  assert (Hcases : c = k \/ c = (k + 32)%N).
  { destruct (N.leb 97 c && N.leb c 122) eqn:E.
    - apply andb_true_iff in E. destruct E as [E1 E2].
      apply N.leb_le in E1. apply N.leb_le in E2. right. lia.
    - left. exact Hc. }
  assert (Hka : is_ascii k = true) by (apply N.ltb_lt; lia).
  assert (Hku : ascii_isalpha k = true).
  { unfold ascii_isalpha, ascii_isupper, between.
    replace (N.leb 65 k) with true by (symmetry; apply N.leb_le; lia).
    replace (N.leb k 90) with true by (symmetry; apply N.leb_le; lia).
    reflexivity. }
  assert (Hkl : ascii_lower k = (k + 32)%N).
  { unfold ascii_lower, ascii_isupper, between.
    replace (N.leb 65 k) with true by (symmetry; apply N.leb_le; lia).
    replace (N.leb k 90) with true by (symmetry; apply N.leb_le; lia).
    reflexivity. }
  assert (Hca : is_ascii c = true) by (apply N.ltb_lt; lia).
  assert (Hcl : ascii_lower c = (k + 32)%N).
  { unfold ascii_lower, ascii_isupper, between. destruct Hcases; subst c.
    - replace (N.leb 65 k) with true by (symmetry; apply N.leb_le; lia).
      replace (N.leb k 90) with true by (symmetry; apply N.leb_le; lia).
      reflexivity.
    - replace (N.leb (k + 32) 90) with false by (symmetry; apply N.leb_gt; lia).
      rewrite andb_false_r. reflexivity. }
  split.
  - unfold ignorecase. rewrite Hka, Hku. unfold lower. rewrite Hca, Hcl, Hkl.
    simpl. rewrite N.eqb_refl. reflexivity.
  - unfold isword. rewrite Hca.
    unfold ascii_isalpha, ascii_isupper, ascii_islower, between.
    destruct Hcases; subst c.
    + replace (N.leb 65 k) with true by (symmetry; apply N.leb_le; lia).
      replace (N.leb k 90) with true by (symmetry; apply N.leb_le; lia).
      reflexivity.
    + replace (N.leb 97 (k + 32)) with true by (symmetry; apply N.leb_le; lia).
      replace (N.leb (k + 32) 122) with true by (symmetry; apply N.leb_le; lia).
      simpl. rewrite orb_true_r. reflexivity.
Qed.

(** A literal made of upper-case letters matches any spelling of it. *)
Lemma matches_LitI_spelling (keyword : str) :
  forall occ prev post,
    forallb ascii_isupper keyword = true ->
    map ascii_upper occ = keyword ->
    matches U (LitI U keyword) (prev, occ ++ post) = [(last_from prev occ, post)].
Proof.
  induction keyword as [|k keyword IH]; intros occ prev post Hup Hocc.
  - destruct occ; [reflexivity | discriminate].
  - destruct occ as [|c occ]; [discriminate|].
    simpl in Hocc. injection Hocc as Hc Hrest.
    simpl in Hup. apply andb_true_iff in Hup. destruct Hup as [Hk Hup].
    destruct (upper_letter_ignorecase k c Hk Hc) as [Hi _].
    simpl. rewrite Hi. simpl. rewrite app_nil_r.
    apply IH; assumption.
Qed.

Lemma spelling_last_is_word (keyword : str) :
  forall occ prev,
    keyword <> [] ->
    forallb ascii_isupper keyword = true ->
    map ascii_upper occ = keyword ->
    word_at U (last_from prev occ) = true /\ word_at U (hd_error occ) = true.
Proof.
  induction keyword as [|k keyword IH]; intros occ prev Hne Hup Hocc; [congruence|].
  destruct occ as [|c occ]; [discriminate|].
  simpl in Hocc. injection Hocc as Hc Hrest.
  simpl in Hup. apply andb_true_iff in Hup. destruct Hup as [Hk Hup].
  destruct (upper_letter_ignorecase k c Hk Hc) as [_ Hw].
  split; [|exact Hw].
  simpl. destruct keyword as [|k' keyword].
  - destruct occ; [exact Hw | discriminate].
  - apply (IH occ (Some c)); [discriminate | exact Hup | exact Hrest].
Qed.

Lemma keyword_pattern_found (keyword text : str) :
  keyword <> [] ->
  forallb ascii_isupper keyword = true ->
  occurs_as_word U keyword text ->
  search U (keyword_pattern U keyword) text = true.
Proof.
  intros Hne Hup (pre & occ & post & Htext & Hocc & Hbefore & Hafter).
  subst text. unfold search. apply search_from_app.
  destruct (spelling_last_is_word keyword occ (last_from None pre) Hne Hup Hocc) as [Hlast Hfirst].
  unfold keyword_pattern. simpl.
  assert (Hhd : hd_error (occ ++ post) = hd_error occ).
  { destruct occ; [subst keyword; simpl in Hne; congruence | reflexivity]. }
  rewrite Hhd, Hbefore, Hfirst. simpl.
  rewrite (matches_LitI_spelling keyword occ (last_from None pre) post Hup Hocc).
  simpl. rewrite Hlast, Hafter. simpl. discriminate.
Qed.

Lemma blocked_keywords_upper :
  forallb (fun k => forallb ascii_isupper k && negb (str_eqb k []))
          Config.BLOCKED_SQL_KEYWORDS = true.
Proof. vm_compute. reflexivity. Qed.

End Validator.

(** C3.  Whatever the parser answers, a text in which a blocked keyword
    occurs as a whole word, in any letter case, is rejected by
    [validate_query]. *)
Theorem validate_query_rejects_blocked_keyword :
  forall (U : unicode) (P : sqlparse) (query keyword : str),
    In keyword Config.BLOCKED_SQL_KEYWORDS ->
    occurs_as_word U keyword query ->
    fst (validate_query U P query) = false.
Proof.
  intros U P query keyword Hin Hocc.
  unfold validate_query.
  destruct (parse P (strip U query)) as [[|stmt stmts]|e]; try reflexivity.
  destruct (negb (truthy (get_type P stmt)) || _); try reflexivity.
  destruct (find _ Config.BLOCKED_SQL_KEYWORDS) eqn:Hfind; try reflexivity.
  exfalso.
  pose proof (find_none _ _ Hfind keyword Hin) as Hnone. simpl in Hnone.
  pose proof blocked_keywords_upper as Hall.
  rewrite forallb_forall in Hall. specialize (Hall keyword Hin).
  apply andb_true_iff in Hall. destruct Hall as [Hup Hne].
  rewrite keyword_pattern_found in Hnone; try assumption; try discriminate.
  intros ->. discriminate.
Qed.

Lemma validate_query_rejects_blocked_keyword_witness :
  occurs_as_word Demo.ascii_only (py "DROP") (py "select 1; drop table users")
  /\ fst (validate_query Demo.ascii_only Demo.plain_sqlparse
                         (py "select 1; drop table users")) = false.
Proof.
  assert (H : occurs_as_word Demo.ascii_only (py "DROP") (py "select 1; drop table users")).
  { exists (py "select 1; "), (py "drop"), (py " table users").
    repeat split; reflexivity. }
  split; [exact H|].
  apply (validate_query_rejects_blocked_keyword Demo.ascii_only Demo.plain_sqlparse
           (py "select 1; drop table users") (py "DROP")); [|exact H].
  simpl. tauto.
Defined.

(** ** The heuristic fixer: the literal-quoting pass *)

Section QuotePass.
Import Re.
Variable U : unicode.
Local Arguments N.eqb : simpl never.
Local Arguments N.leb : simpl never.
Local Arguments N.ltb : simpl never.

Lemma nonempty_app {A} (a b : list A) : nonempty (a ++ b) = nonempty a || nonempty b.
Proof. destruct a; reflexivity. Qed.

Lemma star_then (X : regex) (x : str -> bool) (f : char -> bool) :
  (forall prev s, nonempty (matches U X (prev, s)) = x s) ->
  forall s prev, nonempty (flat_map (matches U X) (star_chr f prev s)) = after_star f x s.
Proof.
  intros HX. induction s as [|c t IH]; intros prev.
  - simpl. rewrite app_nil_r, HX, orb_false_r. reflexivity.
  - simpl. destruct (f c).
    + rewrite flat_map_app, nonempty_app, IH. simpl.
      rewrite app_nil_r, HX. apply orb_comm.
    + simpl. rewrite app_nil_r, HX, orb_false_r. reflexivity.
Qed.

Lemma chr_here (f : char -> bool) prev s :
  nonempty (matches U (Chr f) (prev, s)) = head_is f s.
Proof. destruct s as [|c t]; simpl; [reflexivity|]. destruct (f c); reflexivity. Qed.

Lemma cast_matches prev s :
  nonempty (matches U (Seq (Lit 58) (Lit 58)) (prev, s)) = cast_here s.
Proof.
  destruct s as [|c [|d t]]; simpl; try reflexivity.
  - unfold Lit. destruct (N.eqb 58 c); reflexivity.
  - unfold Lit. destruct (N.eqb 58 c); simpl; [|reflexivity].
    destruct (N.eqb 58 d); reflexivity.
Qed.


Lemma lookahead_blocked prev s :
  nonempty (matches U (lookahead_body U) (prev, s)) = blocked U s.
Proof.
  unfold lookahead_body, blocked.
  change (matches U (Alt ?a ?b) ?p) with (matches U a p ++ matches U b p).
  cbn [matches fst snd].
  rewrite !nonempty_app.
  rewrite (star_then (Lit 40) (head_is (N.eqb 40))) by (intros; apply chr_here).
  rewrite (star_then (Lit 39) (head_is (N.eqb 39))) by (intros; apply chr_here).
  rewrite (star_then (Chr (isdecimal U)) (head_is (isdecimal U))) by (intros; apply chr_here).
  rewrite (star_then (Seq (Lit 58) (Lit 58)) cast_here) by (intros; apply cast_matches).
  reflexivity.
Qed.


Lemma star_chr_suffix (f : char -> bool) :
  forall s prev q, In q (star_chr f prev s) -> length (snd q) <= length s.
Proof.
  induction s as [|c t IH]; intros prev q Hq; simpl in Hq.
  - destruct Hq as [<-|[]]. simpl. lia.
  - destruct (f c).
    + apply in_app_or in Hq. destruct Hq as [Hq|[<-|[]]].
      * apply IH in Hq. simpl. lia.
      * simpl. lia.
    + destruct Hq as [<-|[]]. simpl. lia.
Qed.


Lemma group_ends_suffix s prev q :
  In q (group_ends U prev s) -> length (snd q) <= length s.
Proof.
  unfold group_ends. intros Hq. apply in_flat_map in Hq.
  destruct Hq as (p & Hp & Hq). apply star_chr_suffix in Hp.
  cbn [matches] in Hq. destruct (matches U (lookahead_body U) p); [|destruct Hq].
  destruct Hq as [<-|[]]. exact Hp.
Qed.

Lemma neglook_here prev s :
  matches U (NegLook (lookahead_body U)) (prev, s) = if blocked U s then [] else [(prev, s)].
Proof.
  cbn [matches]. rewrite <- (lookahead_blocked prev s).
  destruct (matches U (lookahead_body U) (prev, s)); reflexivity.
Qed.

Lemma hd_error_app {A} (a b : list A) :
  hd_error (a ++ b) = match hd_error a with Some x => Some x | None => hd_error b end.
Proof. destruct a; reflexivity. Qed.

Lemma group_ends_extent :
  forall s prev,
    option_map (fun q : pos => length s - length (snd q)) (hd_error (group_ends U prev s))
    = extent U s.
Proof.
  induction s as [|c t IH]; intros prev.
  - unfold group_ends. cbn [star_chr flat_map]. rewrite app_nil_r, neglook_here.
    cbn [extent]. destruct (blocked U []); reflexivity.
  - unfold group_ends. cbn [star_chr extent].
    destruct (bareword_char c) eqn:Hc.
    + rewrite flat_map_app. cbn [flat_map]. rewrite app_nil_r, neglook_here.
      fold (group_ends U (Some c) t). rewrite hd_error_app.
      rewrite <- (IH (Some c)).
      destruct (hd_error (group_ends U (Some c) t)) as [q|] eqn:Hq.
      * cbn [option_map].
        assert (Hle : length (snd q) <= length t).
        { apply (group_ends_suffix t (Some c)).
          destruct (group_ends U (Some c) t); [discriminate|].
          injection Hq as ->. left. reflexivity. }
        f_equal. cbn [length]. lia.
      * cbn [option_map]. destruct (blocked U (c :: t)); cbn; [reflexivity|].
        f_equal. lia.
    + cbn [flat_map]. rewrite app_nil_r, neglook_here.
      destruct (blocked U (c :: t)); cbn; [reflexivity|]. f_equal. lia.
Qed.

Lemma find_all_true {A} (f : A -> bool) (l : list A) :
  (forall x, In x l -> f x = true) -> find f l = hd_error l.
Proof.
  destruct l as [|a l]; intros H; [reflexivity|].
  simpl. rewrite (H a) by (left; reflexivity). reflexivity.
Qed.

Lemma string_pattern_matches prev s :
  matches U (string_pattern U) (prev, s) =
  match s with
  | 61%N :: 32%N :: c :: t => if bareword_char c then group_ends U (Some c) t else []
  | _ => []
  end.
Proof.
  unfold string_pattern, Plus, Lit.
  destruct s as [|a s]; [reflexivity|].
  cbn [matches fst snd flat_map].
  destruct (N.eqb_spec 61 a) as [<-|Ha].
  2:{ destruct a as [|a]; [reflexivity|].
      do 6 (destruct a as [a|a|]; try reflexivity); congruence. }
  cbn [flat_map]. rewrite app_nil_r.
  destruct s as [|b s]; [reflexivity|].
  cbn [snd].
  destruct (N.eqb_spec 32 b) as [<-|Hb].
  2:{ destruct b as [|b]; [reflexivity|].
      do 6 (destruct b as [b|b|]; try reflexivity); congruence. }
  cbn [flat_map]. rewrite app_nil_r.
  destruct s as [|c t]; [reflexivity|].
  cbn [snd]. destruct (bareword_char c); [|reflexivity].
  cbn [flat_map fst snd]. rewrite !app_nil_r. reflexivity.
Qed.

Lemma attempt_string_pattern prev s b :
  attempt U (string_pattern U) (prev, s) b = quote_match U s.
Proof.
  unfold attempt. rewrite string_pattern_matches.
  destruct s as [|a s]; [reflexivity|].
  destruct a as [|a]; [reflexivity|].
  do 6 (destruct a as [a|a|]; try reflexivity).
  destruct s as [|a s]; [reflexivity|].
  destruct a as [|a]; [reflexivity|].
  do 6 (destruct a as [a|a|]; try reflexivity).
  destruct s as [|c t]; [reflexivity|].
  unfold quote_match. destruct (bareword_char c); [|reflexivity].
  rewrite find_all_true.
  - rewrite <- (group_ends_extent t (Some c)).
    destruct (hd_error (group_ends U (Some c) t)) as [q|] eqn:Hq; [|reflexivity].
    assert (Hle : length (snd q) <= length t).
    { apply (group_ends_suffix t (Some c)).
      destruct (group_ends U (Some c) t); [discriminate|].
      injection Hq as ->. left. reflexivity. }
    cbn [option_map]. f_equal. unfold consumed. cbn [snd length]. lia.
  - intros q Hq. apply group_ends_suffix in Hq.
    unfold consumed. cbn [snd length].
    destruct b; cbn [negb orb]; [|reflexivity].
    apply Nat.ltb_lt. lia.
Qed.


(** *** The scan of re.sub for string_pattern *)

Local Abbreviation sp := (string_pattern U).

Lemma scan_sp_prev s k prev prev' : scan U sp prev s k = scan U sp prev' s k.
Proof.
  destruct s as [|c t]; destruct k; cbn [scan]; rewrite ?attempt_string_pattern; reflexivity.
Qed.

Lemma scan_sp_skip :
  forall k s prev, k <= length s -> scan U sp prev s k = scan U sp None (skipn k s) 0.
Proof.
  induction k as [|k IH]; intros s prev Hk.
  - apply scan_sp_prev.
  - destruct s as [|c t]; [simpl in Hk; lia|].
    cbn [scan skipn]. apply IH. simpl in Hk. lia.
Qed.

Lemma scan_sp_nil prev : scan U sp prev [] 0 = [].
Proof. cbn [scan]. rewrite attempt_string_pattern. reflexivity. Qed.

Lemma scan_sp_none prev c t :
  quote_match U (c :: t) = None ->
  scan U sp prev (c :: t) 0 = Keep c :: scan U sp None t 0.
Proof.
  intros H. cbn [scan]. rewrite attempt_string_pattern, H. cbn.
  f_equal. apply scan_sp_prev.
Qed.

Lemma extent_bound :
  forall s k, extent U s = Some k ->
    k <= length s /\ forallb bareword_char (firstn k s) = true.
Proof.
  induction s as [|c t IH]; intros k Hk; cbn [extent] in Hk.
  - destruct (blocked U []); [discriminate|]. injection Hk as <-. split; [simpl; lia|reflexivity].
  - destruct (bareword_char c) eqn:Hc.
    + destruct (extent U t) as [n|] eqn:Hn; cbn [option_map] in Hk.
      * injection Hk as <-. destruct (IH n eq_refl) as [H1 H2].
        split; [simpl; lia|]. cbn [firstn forallb]. rewrite Hc, H2. reflexivity.
      * destruct (blocked U (c :: t)); [discriminate|]. injection Hk as <-.
        split; [simpl; lia|reflexivity].
    + destruct (blocked U (c :: t)); [discriminate|]. injection Hk as <-.
      split; [simpl; lia|reflexivity].
Qed.

Lemma quote_match_shape s n :
  quote_match U s = Some n ->
  exists c t k, s = 61%N :: 32%N :: c :: t /\ bareword_char c = true
                /\ n = k + 3 /\ k <= length t
                /\ forallb bareword_char (firstn k t) = true.
Proof.
  unfold quote_match. intros H.
  destruct s as [|a s]; [discriminate|].
  destruct a as [|a]; [discriminate|].
  do 6 (destruct a as [a|a|]; try discriminate).
  destruct s as [|a s]; [discriminate|].
  destruct a as [|a]; [discriminate|].
  do 6 (destruct a as [a|a|]; try discriminate).
  destruct s as [|c t]; [discriminate|].
  destruct (bareword_char c) eqn:Hc; [|discriminate].
  destruct (extent U t) as [k|] eqn:Hk; [|discriminate].
  injection H as <-. destruct (extent_bound t k Hk) as [H1 H2].
  exists c, t, k. repeat split; assumption.
Qed.

Lemma scan_sp_some prev s n :
  quote_match U s = Some n ->
  scan U sp prev s 0 = Hit (firstn n s) :: scan U sp None (skipn n s) 0.
Proof.
  intros H. destruct (quote_match_shape s n H) as (c & t & k & -> & Hc & -> & Hk & _).
  cbn [scan]. rewrite attempt_string_pattern, H.
  replace (k + 3) with (S (S (S k))) by lia.
  cbn [fst snd app]. f_equal.
  rewrite scan_sp_skip by (simpl; lia). reflexivity.
Qed.



Lemma quoted_scan s : quoted U s = flat_map render (scan U sp None s 0).
Proof. reflexivity. Qed.

Lemma quoted_nil : quoted U [] = [].
Proof. rewrite quoted_scan, scan_sp_nil. reflexivity. Qed.

Lemma quoted_none c t : quote_match U (c :: t) = None -> quoted U (c :: t) = c :: quoted U t.
Proof. intros H. rewrite !quoted_scan, (scan_sp_none None c t H). reflexivity. Qed.

Lemma quoted_some s n :
  quote_match U s = Some n ->
  quoted U s = add_quotes_to_strings (firstn n s) ++ quoted U (skipn n s).
Proof. intros H. rewrite !quoted_scan, (scan_sp_some None s n H). reflexivity. Qed.

Lemma quote_match_head s n : quote_match U s = Some n -> hd_error s = Some 61%N.
Proof.
  intros H. destruct (quote_match_shape s n H) as (c & t & k & -> & _). reflexivity.
Qed.

Lemma quoted_head s : hd_error (quoted U s) = hd_error s.
Proof.
  destruct (quote_match U s) as [n|] eqn:H.
  - rewrite (quoted_some s n H), (quote_match_head s n H). reflexivity.
  - destruct s as [|c t]; [rewrite quoted_nil; reflexivity|].
    rewrite (quoted_none c t H). reflexivity.
Qed.


(** *** Fix 1 leaves nothing for a second run *)

Lemma isspace_61 : isspace U 61 = false.
Proof. reflexivity. Qed.

Lemma bareword_not_61 c : bareword_char c = true -> c <> 61%N.
Proof. intros H ->. discriminate. Qed.

Lemma quote_match_not_61 c t : c <> 61%N -> quote_match U (c :: t) = None.
Proof.
  intros H. unfold quote_match.
  destruct c as [|c]; [reflexivity|].
  do 6 (destruct c as [c|c|]; try reflexivity). congruence.
Qed.


Lemma head_is_stable f : stable U (head_is f).
Proof.
  intros s. pose proof (quoted_head s) as H.
  destruct (quoted U s), s; simpl in *; congruence.
Qed.

Lemma cast_here_stable : stable U cast_here.
Proof.
  intros s. destruct (quote_match U s) as [n|] eqn:H.
  - destruct (quote_match_shape s n H) as (c & t & k & -> & _).
    rewrite (quoted_some _ n H). reflexivity.
  - destruct s as [|c t]; [rewrite quoted_nil; reflexivity|].
    rewrite (quoted_none c t H). pose proof (quoted_head t) as Hh.
    destruct (quoted U t), t; simpl in *; congruence.
Qed.

Lemma after_star_stable x :
  stable U x -> forall s, after_star (isspace U) x (quoted U s) = after_star (isspace U) x s.
Proof.
  intros Hx. induction s as [|c t IH].
  - rewrite quoted_nil. reflexivity.
  - destruct (quote_match U (c :: t)) as [n|] eqn:H.
    + destruct (quote_match_shape _ n H) as (c' & t' & k & E & _).
      pose proof (Hx (c :: t)) as Hxs.
      rewrite (quoted_some _ n H) in *. rewrite E in *.
      cbn [add_quotes_to_strings py app after_star map list_ascii_of_string] in *.
      change (N_of_ascii "=") with 61%N in *.
      rewrite isspace_61. cbn [andb]. rewrite !orb_false_r. exact Hxs.
    + pose proof (Hx (c :: t)) as Hxs. rewrite (quoted_none c t H) in *.
      cbn [after_star]. rewrite IH, Hxs. reflexivity.
Qed.

Lemma blocked_stable s : blocked U (quoted U s) = blocked U s.
Proof.
  unfold blocked.
  rewrite !after_star_stable by (try apply head_is_stable; apply cast_here_stable).
  reflexivity.
Qed.

Lemma extent_stable : forall s, extent U (quoted U s) = extent U s.
Proof.
  induction s as [|c t IH].
  - rewrite quoted_nil. reflexivity.
  - pose proof (blocked_stable (c :: t)) as Hb.
    destruct (bareword_char c) eqn:Hc.
    + rewrite (quoted_none c t) in * by (apply quote_match_not_61, bareword_not_61, Hc).
      cbn [extent]. rewrite Hc, IH, Hb. reflexivity.
    + pose proof (quoted_head (c :: t)) as Hh.
      destruct (quoted U (c :: t)) as [|c' q]; [discriminate|].
      injection Hh as ->. cbn [extent]. rewrite Hc, Hb. reflexivity.
Qed.

Lemma quote_match_stable c t :
  quote_match U (c :: t) = None -> quote_match U (c :: quoted U t) = None.
Proof.
  intros H.
  destruct (N.eqb_spec c 61) as [->|Hc]; [|apply quote_match_not_61, Hc].
  destruct t as [|b t]; [rewrite quoted_nil; reflexivity|].
  destruct (N.eqb_spec b 32) as [->|Hb].
  - rewrite (quoted_none 32 t) by (apply quote_match_not_61; discriminate).
    destruct t as [|c' t]; [rewrite quoted_nil; reflexivity|].
    destruct (bareword_char c') eqn:Hc'.
    + rewrite (quoted_none c' t) by (apply quote_match_not_61, bareword_not_61, Hc').
      unfold quote_match in *. rewrite Hc' in *. rewrite extent_stable. exact H.
    + pose proof (quoted_head (c' :: t)) as Hh.
      destruct (quoted U (c' :: t)) as [|c'' q]; [reflexivity|].
      injection Hh as ->. unfold quote_match. rewrite Hc'. reflexivity.
  - pose proof (quoted_head (b :: t)) as Hh.
    destruct (quoted U (b :: t)) as [|b' q]; [discriminate|].
    injection Hh as ->. unfold quote_match.
    destruct b as [|b]; [reflexivity|].
    do 6 (destruct b as [b|b|]; try reflexivity). congruence.
Qed.

Lemma scan_sp_keep :
  forall p s prev,
    forallb (fun c => negb (N.eqb c 61)) p = true ->
    scan U sp prev (p ++ s) 0 = map Keep p ++ scan U sp None s 0.
Proof.
  induction p as [|c p IH]; intros s prev Hp.
  - apply scan_sp_prev.
  - cbn [forallb] in Hp. apply andb_true_iff in Hp. destruct Hp as [Hc Hp].
    cbn [app map]. rewrite scan_sp_none.
    + f_equal. apply IH, Hp.
    + apply quote_match_not_61. intros ->. discriminate.
Qed.

Lemma bareword_run_no_61 w :
  forallb bareword_char w = true -> forallb (fun c => negb (N.eqb c 61)) w = true.
Proof.
  induction w as [|c w IH]; [reflexivity|].
  cbn [forallb]. intros H. apply andb_true_iff in H. destruct H as [Hc Hw].
  rewrite (IH Hw), andb_true_r.
  destruct (N.eqb_spec c 61) as [->|]; [discriminate|reflexivity].
Qed.

Lemma scan_quoted_aux :
  forall n s, length s <= n -> scan U sp None (quoted U s) 0 = map Keep (quoted U s).
Proof.
  induction n as [|n IH]; intros s Hn.
  - destruct s; [|simpl in Hn; lia]. rewrite quoted_nil. apply scan_sp_nil.
  - destruct (quote_match U s) as [m|] eqn:H.
    + destruct (quote_match_shape s m H) as (c & t & k & -> & Hc & -> & Hk & Hw).
      rewrite (quoted_some _ _ H).
      replace (k + 3) with (S (S (S k))) by lia.
      cbn [firstn skipn]. unfold add_quotes_to_strings. cbn [skipn].
      change (py "= '") with [61%N; 32%N; 39%N]. change (py "'") with [39%N].
      rewrite <- !app_assoc.
      cbn [app]. rewrite scan_sp_none by reflexivity.
      rewrite scan_sp_none by reflexivity.
      rewrite scan_sp_none by reflexivity.
      rewrite scan_sp_none by (apply quote_match_not_61, bareword_not_61, Hc).
      rewrite scan_sp_keep by (apply bareword_run_no_61, Hw).
      rewrite scan_sp_none by reflexivity.
      rewrite IH.
      * cbn [map]. rewrite map_app. reflexivity.
      * rewrite length_skipn. simpl in Hn. lia.
    + destruct s as [|c t]; [rewrite quoted_nil; apply scan_sp_nil|].
      rewrite (quoted_none c t H).
      rewrite scan_sp_none by (apply quote_match_stable, H).
      cbn [map]. f_equal. apply IH. simpl in Hn. lia.
Qed.

Lemma flat_map_render_keep s : flat_map render (map Keep s) = s.
Proof. induction s as [|c s IH]; [reflexivity|]. cbn. f_equal. exact IH. Qed.

Lemma hits_keep s : hits (map Keep s) = [].
Proof. induction s as [|c s IH]; [reflexivity|]. exact IH. Qed.

(** Fix 1 is idempotent, and a second run reports no change. *)
Lemma quote_literals_settled s :
  quote_literals U (quoted U s) = (quoted U s, false).
Proof.
  unfold quote_literals, sub.
  rewrite (scan_quoted_aux (length s) s (le_n _)).
  fold render. rewrite flat_map_render_keep, hits_keep. reflexivity.
Qed.

End QuotePass.

(** ** The heuristic fixer: the table-name pass and the flag *)

Section TablePass.
Variable U : unicode.


Lemma table_step_fold_flag table_name ms :
  forall t b,
    fold_left (table_step table_name) ms (t, b)
    = (fst (fold_left (table_step table_name) ms (t, false)),
       b || snd (fold_left (table_step table_name) ms (t, false))).
Proof.
  induction ms as [|m ms IH]; intros t b.
  - cbn. rewrite orb_false_r. reflexivity.
  - cbn [fold_left]. unfold table_step at 2 4 6. cbn [fst].
    destruct (negb (str_eqb m table_name)).
    + rewrite (IH _ true). cbn [orb fst snd]. rewrite orb_true_r. reflexivity.
    + apply IH.
Qed.

Lemma table_step_fold_same table_name ms :
  forall t,
    snd (fold_left (table_step table_name) ms (t, false)) = false ->
    fold_left (table_step table_name) ms (t, false) = (t, false).
Proof.
  induction ms as [|m ms IH]; intros t H; [reflexivity|].
  cbn [fold_left] in *. unfold table_step at 2 in H. unfold table_step at 2.
  cbn [fst] in *. destruct (negb (str_eqb m table_name)).
  - rewrite (table_step_fold_flag table_name ms _ true) in H. discriminate.
  - apply IH, H.
Qed.

Lemma fix_table_name_flag t b table_name :
  fix_table_name U (t, b) table_name
  = (fst (fix_table_name U (t, false) table_name),
     b || snd (fix_table_name U (t, false) table_name)).
Proof. apply (table_step_fold_flag table_name). Qed.

Lemma fix_table_name_same t table_name :
  snd (fix_table_name U (t, false) table_name) = false ->
  fix_table_name U (t, false) table_name = (t, false).
Proof. apply (table_step_fold_same table_name). Qed.

Lemma fix_table_names_flag s :
  forall t b,
    fix_table_names U (t, b) s
    = (fst (fix_table_names U (t, false) s), b || snd (fix_table_names U (t, false) s)).
Proof.
  unfold fix_table_names. induction (keys s) as [|k ks IH]; intros t b.
  - cbn. rewrite orb_false_r. reflexivity.
  - cbn [fold_left].
    rewrite (fix_table_name_flag t b k).
    destruct (fix_table_name U (t, false) k) as [t' b'] eqn:E. cbn [fst snd].
    rewrite (IH t' (b || b')), (IH t' b'). cbn [fst snd].
    rewrite orb_assoc. reflexivity.
Qed.

Lemma fix_table_names_same s :
  forall t,
    snd (fix_table_names U (t, false) s) = false ->
    fix_table_names U (t, false) s = (t, false).
Proof.
  unfold fix_table_names. induction (keys s) as [|k ks IH]; intros t H; [reflexivity|].
  cbn [fold_left] in *.
  destruct (fix_table_name U (t, false) k) as [t' b'] eqn:E.
  destruct b'.
  - change (snd (fold_left (fix_table_name U) ks (t', true)) = false) in H.
    pose proof (fix_table_names_flag
                  (map (fun k => (k, Demo.no_table)) ks) t' true) as F.
    unfold fix_table_names, keys in F. rewrite map_map, map_id in F. cbn [fst] in F.
    rewrite F in H. discriminate.
  - pose proof (fix_table_name_same t k) as S. rewrite E in S.
    injection (S eq_refl) as ->. apply IH, H.
Qed.

End TablePass.

(** Where the table-name pass finds nothing to change in the text the
    literal-quoting pass produced (in particular when the schema has no
    tables), running the fixer again on its own output returns the same
    text and reports changed = false. *)
Lemma fix_twice_when_tables_settled :
  forall (U : unicode) (query : str) (s : schema_info),
    snd (fix_table_names U (fst (quote_literals U query), false) s) = false ->
    detect_and_fix_common_issues U (fst (detect_and_fix_common_issues U query s)) s
    = (fst (detect_and_fix_common_issues U query s), false).
Proof.
  intros U query s H.
  pose proof (fix_table_names_same U s _ H) as Hsame.
  assert (Hfirst : fst (detect_and_fix_common_issues U query s) = fst (quote_literals U query)).
  { unfold detect_and_fix_common_issues.
    destruct (quote_literals U query) as [t b] eqn:E. cbn [fst] in *.
    rewrite fix_table_names_flag, Hsame. reflexivity. }
  rewrite Hfirst. unfold detect_and_fix_common_issues.
  pose proof (quote_literals_settled U query) as Hq. unfold quoted in Hq.
  rewrite Hq. exact Hsame.
Qed.

(** C5, at the failing input.  With the table users, the matches the
    table-name pass works through in "SELECT USERS.id FROM USERSs" are
    USERS and USERSs, both found in the text as it was when the loop
    started.  Replacing USERS everywhere turns USERSs into userss, which
    the second match, USERSs, no longer finds: the fixer returns
    "SELECT users.id FROM userss".  Run on that output it changes the
    text once more, into "SELECT users.id FROM users", and reports
    changed = true. *)
Theorem fix_changes_its_own_output :
  forall U : unicode,
    Re.finditer U (table_pattern U (py "users")) (py "SELECT USERS.id FROM USERSs")
    = [py "USERS"; py "USERSs"]
    /\ detect_and_fix_common_issues U (py "SELECT USERS.id FROM USERSs") Demo.users_schema
       = (py "SELECT users.id FROM userss", true)
    /\ detect_and_fix_common_issues U (py "SELECT users.id FROM userss") Demo.users_schema
       = (py "SELECT users.id FROM users", true).
Proof. intros U. repeat split; vm_compute; reflexivity. Qed.

(** C6, at the failing input.  A bareword of two or more characters
    that is followed by an opening parenthesis or by a cast is not left
    alone: the group gives back its last character, the lookahead then
    holds, and the pass quotes the shortened word. *)
Theorem quote_literals_cuts_guarded_bareword :
  forall U : unicode,
    quote_literals U (py "SELECT * FROM t WHERE name = lower(x)")
    = (py "SELECT * FROM t WHERE name = 'lowe'r(x)", true)
    /\ quote_literals U (py "SELECT * FROM t WHERE day = ts::date")
       = (py "SELECT * FROM t WHERE day = 't's::date", true).
Proof. intros U. split; vm_compute; reflexivity. Qed.

(** ** The pipeline: what each stage logs and returns *)

Import Demo.

Ltac run_monad :=
  cbv beta iota zeta delta [bind try_except call consult ret raise lift log Client.create
    Client.execute_query Client.first_choice] in *.

Ltac split_match :=
  match goal with
  | |- context [match ?x with _ => _ end] =>
      lazymatch x with
      | context [match _ with _ => _ end] => fail
      | _ => destruct x eqn:?
      end
  end; cbv beta iota.

(** Close a goal [exists cs r, (Ok x, tr ++ ... ) = (Ok r, tr ++ cs ++ [e r]) /\ ...]. *)
Ltac give_events :=
  rewrite <- ?app_assoc; cbn [app];
  match goal with
  | |- exists cs r, (Ok ?x, ?tr ++ ?l) = _ /\ _ =>
      exists (removelast l), x; cbn [removelast]; split; [reflexivity|]
  end.

Section Runs.
Variable W : world.
Variable the_schema : schema_info.
Variable table_samples : list (list N * list row).

Lemma debug_query_run (query : list N) (s : schema_info) (error_message : list N) (tr : trace) :
  exists cs r,
    SQLAgent.debug_query W query s error_message tr
    = (Ok r, tr ++ cs ++ [EvDebug query error_message r])
    /\ forallb is_tool_completion cs = true
    /\ (forall fixed, r = Fixed fixed -> valid W fixed = true).
Proof.
  unfold SQLAgent.debug_query, SQLAgent.read_fixed_query, valid. run_monad.
  repeat split_match; give_events; (split; [reflexivity|]); intros fixed Hfixed;
    try discriminate.
  all: injection Hfixed as <-.
  all: match goal with H : SQLAgent.validate W _ = _ |- _ => rewrite H end.
  all: match goal with H : negb ?b = false |- _ => destruct b; [reflexivity|discriminate] end.
Qed.

Lemma generate_sql_query_run (user_query : list N) (tr : trace) :
  exists cs r,
    LLMService.generate_sql_query W user_query the_schema table_samples tr
    = (Ok r, tr ++ cs ++ [EvGenerate user_query r])
    /\ forallb is_tool_completion cs = true.
Proof.
  unfold LLMService.generate_sql_query, LLMService.read_generated_query, slice. run_monad.
  repeat split_match; give_events; reflexivity.
Qed.

Lemma summarize_query_results_run (user_query sql : list N) (results : list row) (n : nat)
      (tr : trace) :
  exists cs t,
    LLMService.summarize_query_results W user_query sql results n tr
    = (Ok t, tr ++ cs ++ [EvSummarize user_query sql t])
    /\ forallb is_summary_completion cs = true.
Proof.
  unfold LLMService.summarize_query_results, LLMService.summarization_fallback. run_monad.
  cbn [error get_mock_response].
  repeat split_match; give_events; reflexivity.
Qed.


Lemma agent_process_query_run (sql : list N) (tr : trace) :
  let fixed := detect_and_fix_common_issues (tables W) sql the_schema in
  let q := if snd fixed then fst fixed else sql in
  exists evs r,
    SQLAgent.process_query W sql the_schema tr = (Ok r, tr ++ evs)
    /\ agent_events W q (snd (SQLAgent.validate W q)) evs r.
Proof.
  unfold SQLAgent.process_query.
  destruct (detect_and_fix_common_issues (tables W) sql the_schema) as [fixed_query was_modified].
  cbn [fst snd]. set (q := if was_modified then fixed_query else sql).
  destruct (SQLAgent.validate W q) as [is_valid reason] eqn:Hv. cbn [snd].
  assert (Hvalid : valid W q = is_valid) by (unfold valid; rewrite Hv; reflexivity).
  destruct is_valid.
  - exists [], (true, q). rewrite app_nil_r. split; [reflexivity|].
    apply agent_valid, Hvalid.
  - run_monad.
    destruct (postgres_execute_query W tr q) as [rows|e] eqn:Hx.
    + exists [EvExecute q (Ok rows)], (true, q). split; [reflexivity|].
      apply agent_ran, Hvalid.
    + destruct (debug_query_run q the_schema e (tr ++ [EvExecute q (Raise e)]))
        as (cs & [res|res] & Hrun & Hcs & Hres).
      * rewrite Hrun. pose proof (Hres res eq_refl) as Hres'. unfold valid in Hres'.
        destruct (SQLAgent.validate W res) as [ok' reason']. cbn [fst] in Hres'. subst ok'.
        exists (EvExecute q (Raise e) :: cs ++ [EvDebug q e (Fixed res)]), (true, res).
        split; [rewrite <- !app_assoc; reflexivity|].
        apply agent_repaired; [exact Hvalid|].
        constructor; [exact Hcs|exact Hres].
      * rewrite Hrun.
        exists (EvExecute q (Raise e) :: cs ++ [EvDebug q e (NotFixed res)]), (false, reason).
        split; [rewrite <- !app_assoc; reflexivity|].
        apply (agent_failed W q reason e res); [exact Hvalid|].
        constructor; [exact Hcs|]. discriminate.
Qed.


Lemma answer_run (user_query sql : list N) (original : option (list N))
      (rows : list row) (tr : trace) :
  exists evs r,
    match rows with
    | [] => ret (get_empty_results_response (Some sql))
    | _ :: _ =>
        summary_text <- LLMService.summarize_query_results W user_query sql rows 10 ;;
        ret (QueryService.success_response sql original rows summary_text)
    end tr = (Ok r, tr ++ evs)
    /\ answer_events user_query sql original rows evs r.
Proof.
  destruct rows as [|r rows].
  - exists [], (get_empty_results_response (Some sql)). rewrite app_nil_r.
    split; [reflexivity|constructor].
  - run_monad.
    destruct (summarize_query_results_run user_query sql (r :: rows) 10 tr)
      as (cs & t & Hrun & Hcs).
    rewrite Hrun. eexists _, _. split; [reflexivity|].
    constructor. constructor. exact Hcs.
Qed.

Lemma execute_validated_run (user_query p : list N) (tr : trace) :
  exists evs r,
    QueryService.execute_validated W the_schema user_query p tr
    = (Ok r, tr ++ EvExecute p (postgres_execute_query W tr p) :: evs)
    /\ execution_events W user_query p
         (EvExecute p (postgres_execute_query W tr p) :: evs) r.
Proof.
  unfold QueryService.execute_validated.
  unfold try_except at 1. unfold bind at 1. unfold execute_query, call.
  destruct (postgres_execute_query W tr p) as [rows|e] eqn:Hx.
  - destruct (answer_run user_query p None rows (tr ++ [EvExecute p (Ok rows)]))
      as (evs & r & Hrun & Hev).
    rewrite Hrun. exists evs, r.
    split; [rewrite <- app_assoc; reflexivity|].
    apply exec_ok, Hev.
  - unfold bind at 1.
    destruct (debug_query_run p the_schema e (tr ++ [EvExecute p (Raise e)]))
      as (cs & [fixed|fixed] & Hrun & Hcs & Hres).
    + rewrite Hrun. unfold try_except at 1. unfold bind at 1.
      set (tr' := (tr ++ [EvExecute p (Raise e)]) ++ cs ++ [EvDebug p e (Fixed fixed)]).
      destruct (postgres_execute_query W tr' fixed) as [rows|e'] eqn:Hx'.
      * destruct (answer_run user_query fixed (Some p) rows (tr' ++ [EvExecute fixed (Ok rows)]))
          as (evs & r & Hrun' & Hev).
        rewrite Hrun'.
        exists ((cs ++ [EvDebug p e (Fixed fixed)]) ++ EvExecute fixed (Ok rows) :: evs), r.
        split; [unfold tr'; rewrite <- !app_assoc; reflexivity|].
        apply exec_repaired; [|exact Hev]. constructor; assumption.
      * exists ((cs ++ [EvDebug p e (Fixed fixed)]) ++ [EvExecute fixed (Raise e')]),
               (get_mock_response (py "execution_error") (Some (JString e))).
        split; [unfold tr', ret; rewrite <- !app_assoc; reflexivity|].
        apply exec_repair_failed. constructor; assumption.
    + rewrite Hrun.
      exists (cs ++ [EvDebug p e (NotFixed fixed)]),
             (get_mock_response (py "execution_error") (Some (JString e))).
      split; [unfold ret; rewrite <- !app_assoc; reflexivity|].
      apply (exec_unrepaired W user_query p e fixed). constructor; [assumption|discriminate].
Qed.

Lemma process_query_run (user_query : list N) (tr : trace) :
  exists evs r,
    QueryService.process_query W the_schema table_samples user_query tr = (Ok r, tr ++ evs)
    /\ request_events W the_schema user_query evs r.
Proof.
  unfold QueryService.process_query.
  unfold try_except at 1. unfold bind at 1.
  destruct (generate_sql_query_run user_query tr) as (cs & [ok generated] & Hrun & Hcs).
  rewrite Hrun. destruct ok; cbn [negb].
  - unfold bind at 1.
    destruct (is_text generated) eqn:Htext.
    + destruct generated as [|sql| |]; try discriminate.
      unfold SQLAgent.process_query_value.
      destruct (agent_process_query_run sql
                  (tr ++ cs ++ [EvGenerate user_query (true, JString sql)]))
        as (evs & [ok p] & Hrun' & Hev).
      rewrite Hrun'. destruct ok; cbn [negb].
      * destruct (execute_validated_run user_query p
                    ((tr ++ cs ++ [EvGenerate user_query (true, JString sql)]) ++ evs))
          as (evs' & r & Hrun'' & Hev').
        rewrite Hrun''.
        match type of Hev' with execution_events _ _ _ ?l _ =>
          exists (cs ++ EvGenerate user_query (true, JString sql) :: evs ++ l), r end.
        split; [rewrite <- !app_assoc; reflexivity|].
        eapply request_executed; eassumption.
      * exists (cs ++ EvGenerate user_query (true, JString sql) :: evs),
               (get_mock_response (py "sql_validation_failed") (Some (JString p))).
        split; [unfold ret; rewrite <- !app_assoc; reflexivity|].
        apply request_rejected; assumption.
    + exists (cs ++ [EvGenerate user_query (true, generated)]),
             (get_mock_response (py "general_error")
                (Some (JString (exception_text W ReSub generated)))).
      split; [destruct generated; try discriminate; reflexivity|].
      apply request_not_text; assumption.
  - exists (cs ++ [EvGenerate user_query (false, generated)]),
           (get_mock_response (py "sql_generation_failed") (Some generated)).
    split; [reflexivity|].
    apply request_no_query; assumption.
Qed.

End Runs.

Section TraceFacts.




Variable W : world.
Variable the_schema : schema_info.
Variable user_query : list N.







(** envelopes *)
Lemma answer_events_ok sql original rows evs r :
  answer_events user_query sql original rows evs r ->
  envelope_ok r = true /\ success r = true.
Proof. intros [|row rows' t evs' H]; split; reflexivity. Qed.

Lemma execution_events_ok p evs r :
  execution_events W user_query p evs r -> envelope_ok r = true.
Proof.
  intros [rows evs' r' Ha|e m evs' Hd|e fixed evs' e' Hd|e fixed evs' rows evs'' r' Hd Ha];
    try reflexivity; exact (proj1 (answer_events_ok _ _ _ _ _ Ha)).
Qed.

Lemma request_events_ok evs r :
  request_events W the_schema user_query evs r -> envelope_ok r = true.
Proof.
  intros [cs m Hcs|cs v Hcs Hv|cs sql evs' m Hcs Ha|cs sql evs' p evs'' r' Hcs Ha Hx];
    try reflexivity.
  exact (execution_events_ok _ _ _ Hx).
Qed.

End TraceFacts.

Lemma envelope_ok_one_of (r : response) :
  envelope_ok r = true -> xorb (present (data r)) (present (error r)) = true.
Proof.
  unfold envelope_ok.
  destruct (success r), (data r), (query r), (error r); cbn; congruence.
Qed.

(** C4 *)
(** C4.  process_query always returns a response, never an exception,
    and the response holds exactly one of data and error: with
    success = true the data and the query are there and no error; with
    success = false the error is there and no data. *)
Theorem response_has_data_or_error :
  forall (W : world) (the_schema : schema_info) (table_samples : list (list N * list row))
         (user_query : list N) (tr : trace),
    exists r tr',
      QueryService.process_query W the_schema table_samples user_query tr = (Ok r, tr')
      /\ envelope_ok r = true
      /\ xorb (present (data r)) (present (error r)) = true.
Proof.
  intros W the_schema table_samples user_query tr.
  destruct (process_query_run W the_schema table_samples user_query tr) as (evs & r & Hrun & Hev).
  exists r, (tr ++ evs). split; [exact Hrun|].
  pose proof (request_events_ok _ _ _ _ _ Hev) as Hok.
  split; [exact Hok|]. apply envelope_ok_one_of, Hok.
Qed.

Section MoreTraceFacts.

Lemma last_event_app a b :
  last_event (a ++ b) = match last_event b with Some x => Some x | None => last_event a end.
Proof.
  induction a as [|x a IH]; cbn [app].
  - destruct (last_event b); reflexivity.
  - destruct a as [|y a].
    + cbn [app] in *. destruct b as [|z b]; [reflexivity|].
      change (last_event (x :: z :: b)) with (last_event (z :: b)).
      destruct (last_event (z :: b)) eqn:E; [reflexivity|].
      exfalso. clear -E. revert z E. induction b as [|w b IHb]; intros z E; [discriminate|].
      exact (IHb w E).
    + change (last_event (x :: (y :: a) ++ b)) with (last_event ((y :: a) ++ b)).
      rewrite IH. reflexivity.
Qed.

Lemma failed_repair_is_last_app a b :
  existsb is_failed_debug a = false ->
  failed_repair_is_last (a ++ b) = failed_repair_is_last b.
Proof.
  induction a as [|x a IH]; intros H; [reflexivity|].
  cbn [existsb] in H. apply orb_false_iff in H. destruct H as [Hx Ha].
  cbn [app failed_repair_is_last]. rewrite Hx, (IH Ha). reflexivity.
Qed.

Lemma existsb_false_of_forallb {A} (f g : A -> bool) (l : list A) :
  (forall x, g x = true -> f x = false) ->
  forallb g l = true -> existsb f l = false.
Proof.
  intros Hfg. induction l as [|x l IH]; [reflexivity|].
  cbn. intros H. apply andb_true_iff in H. destruct H as [Hx Hl].
  rewrite (Hfg x Hx), (IH Hl). reflexivity.
Qed.

Lemma tool_completions_clean cs :
  forallb is_tool_completion cs = true ->
  existsb is_failed_debug cs = false /\ existsb is_summarization cs = false
  /\ forall q o, ~ In (EvExecute q o) cs.
Proof.
  intros H. repeat split.
  - apply (existsb_false_of_forallb is_failed_debug is_tool_completion); [|exact H].
    intros [m ms [t|] o|q o|u o|q e o|u q o]; cbn; congruence.
  - apply (existsb_false_of_forallb is_summarization is_tool_completion); [|exact H].
    intros [m ms [t|] o|q o|u o|q e o|u q o]; cbn; congruence.
  - intros q o Hin. rewrite forallb_forall in H. specialize (H _ Hin). discriminate.
Qed.

Lemma summary_completions_clean cs :
  forallb is_summary_completion cs = true ->
  existsb is_failed_debug cs = false /\ forall q o, ~ In (EvExecute q o) cs.
Proof.
  intros H. split.
  - apply (existsb_false_of_forallb is_failed_debug is_summary_completion); [|exact H].
    intros [m ms [t|] o|q o|u o|q e o|u q o]; cbn; congruence.
  - intros q o Hin. rewrite forallb_forall in H. specialize (H _ Hin). discriminate.
Qed.

Variable W : world.
Variable the_schema : schema_info.
Variable user_query : list N.

Lemma debug_events_facts q e r evs :
  debug_events W q e r evs ->
  last_event evs = Some (EvDebug q e r)
  /\ existsb is_summarization evs = false
  /\ (forall q' o, ~ In (EvExecute q' o) evs)
  /\ failed_repair_is_last evs = true
  /\ existsb is_failed_debug evs = negb (is_fixed r).
Proof.
  intros [cs Hcs _]. destruct (tool_completions_clean cs Hcs) as (Hf & Hs & Hx).
  repeat split.
  - rewrite last_event_app. reflexivity.
  - rewrite existsb_app, Hs. reflexivity.
  - intros q' o Hin. apply in_app_or in Hin. destruct Hin as [Hin|[Hin|[]]].
    + exact (Hx _ _ Hin).
    + discriminate.
  - rewrite (failed_repair_is_last_app _ _ Hf). cbn. destruct r; reflexivity.
  - rewrite existsb_app, Hf. destruct r; reflexivity.
Qed.

Lemma summary_events_facts sql t evs :
  summary_events user_query sql t evs ->
  last_event evs = Some (EvSummarize user_query sql t)
  /\ (forall q' o, ~ In (EvExecute q' o) evs)
  /\ existsb is_failed_debug evs = false.
Proof.
  intros [cs Hcs]. destruct (summary_completions_clean cs Hcs) as (Hf & Hx).
  repeat split.
  - rewrite last_event_app. reflexivity.
  - intros q' o Hin. apply in_app_or in Hin. destruct Hin as [Hin|[Hin|[]]].
    + exact (Hx _ _ Hin).
    + discriminate.
  - rewrite existsb_app, Hf. reflexivity.
Qed.

Lemma answer_events_facts sql original rows evs r :
  answer_events user_query sql original rows evs r ->
  success r = true
  /\ existsb is_failed_debug evs = false
  /\ (forall q' o, ~ In (EvExecute q' o) evs)
  /\ (forall q' e', last_event evs <> Some (EvExecute q' (Raise e')))
  /\ (rows = [] -> evs = [] /\ r = get_empty_results_response (Some sql)).
Proof.
  intros [|row rows' t evs' H].
  - repeat split; try reflexivity; try (intros; intro; contradiction); try discriminate.
  - destruct (summary_events_facts _ _ _ H) as (Hl & Hx & Hf).
    repeat split; try assumption; try discriminate.
    intros q' e'. rewrite Hl. discriminate.
Qed.

Lemma agent_events_facts q reason evs r :
  agent_events W q reason evs r ->
  existsb is_summarization evs = false
  /\ failed_repair_is_last evs = true
  /\ existsb is_failed_debug evs = negb (fst r)
  /\ (forall q' rows, In (EvExecute q' (Ok rows)) evs -> valid W q' = false).
Proof.
  intros [Hv|rows Hv|e fixed evs' Hv Hd|e m evs' Hv Hd].
  - repeat split; try reflexivity. intros q' rows [].
  - repeat split; try reflexivity. intros q' rows' [Hin|[]]. congruence.
  - destruct (debug_events_facts _ _ _ _ Hd) as (Hl & Hs & Hx & Hfr & Hfd).
    repeat split.
    + cbn [existsb is_summarization orb]. exact Hs.
    + cbn [failed_repair_is_last is_failed_debug andb]. exact Hfr.
    + cbn [existsb is_failed_debug orb]. exact Hfd.
    + intros q' rows [Hin|Hin]; [discriminate|]. exfalso. exact (Hx _ _ Hin).
  - destruct (debug_events_facts _ _ _ _ Hd) as (Hl & Hs & Hx & Hfr & Hfd).
    repeat split.
    + cbn [existsb is_summarization orb]. exact Hs.
    + cbn [failed_repair_is_last is_failed_debug andb]. exact Hfr.
    + cbn [existsb is_failed_debug orb]. exact Hfd.
    + intros q' rows [Hin|Hin]; [discriminate|]. exfalso. exact (Hx _ _ Hin).
Qed.

Lemma execution_events_facts p evs r :
  execution_events W user_query p evs r ->
  evs <> []
  /\ failed_repair_is_last evs = true
  /\ (existsb is_failed_debug evs = true -> is_execution_error r = true)
  /\ (forall q e, last_event evs = Some (EvExecute q (Raise e)) -> is_execution_error r = true)
  /\ (forall q, In (EvExecute q (Ok [])) evs ->
        r = get_empty_results_response (Some q) /\ existsb is_summarization evs = false).
Proof.
  intros [rows evs' r' Ha|e m evs' Hd|e fixed evs' e' Hd|e fixed evs' rows evs'' r' Hd Ha].
  - destruct (answer_events_facts _ _ _ _ _ Ha) as (Hs & Hf & Hx & Hl & He).
    split; [discriminate|]. repeat split.
    + change (failed_repair_is_last ([EvExecute p (Ok rows)] ++ evs') = true).
      rewrite failed_repair_is_last_app by reflexivity.
      clear -Hf. induction evs' as [|x l IH]; [reflexivity|].
      cbn in Hf. apply orb_false_iff in Hf. destruct Hf as [Hx Hl].
      cbn [failed_repair_is_last]. rewrite Hx, (IH Hl). reflexivity.
    + cbn [existsb is_failed_debug orb]. rewrite Hf. discriminate.
    + intros q e. change (EvExecute p (Ok rows) :: evs') with ([EvExecute p (Ok rows)] ++ evs').
      rewrite last_event_app. destruct (last_event evs') eqn:E.
      * intros H. exfalso. exact (Hl q e H).
      * discriminate.
    + destruct H as [H|H]; [|exfalso; exact (Hx _ _ H)].
      injection H as <- ->. destruct (He eq_refl) as [_ ->]. reflexivity.
    + destruct H as [H|H]; [|exfalso; exact (Hx _ _ H)].
      injection H as <- ->. destruct (He eq_refl) as [-> _]. reflexivity.
  - destruct (debug_events_facts _ _ _ _ Hd) as (Hl & Hs & Hx & Hfr & Hfd).
    split; [discriminate|]. repeat split; try reflexivity.
    + cbn [failed_repair_is_last is_failed_debug andb]. exact Hfr.
    + destruct H as [H|H]; [discriminate|]. exfalso. exact (Hx _ _ H).
    + destruct H as [H|H]; [discriminate|]. exfalso. exact (Hx _ _ H).
  - destruct (debug_events_facts _ _ _ _ Hd) as (Hl & Hs & Hx & Hfr & Hfd).
    split; [discriminate|]. repeat split; try reflexivity.
    + change (failed_repair_is_last ([EvExecute p (Raise e)] ++ evs' ++ [EvExecute fixed (Raise e')]) = true).
      rewrite failed_repair_is_last_app by reflexivity.
      rewrite failed_repair_is_last_app by exact Hfd. reflexivity.
    + destruct H as [H|H]; [discriminate|]. apply in_app_or in H.
      destruct H as [H|[H|[]]]; [exfalso; exact (Hx _ _ H)|discriminate].
    + destruct H as [H|H]; [discriminate|]. apply in_app_or in H.
      destruct H as [H|[H|[]]]; [exfalso; exact (Hx _ _ H)|discriminate].
  - destruct (debug_events_facts _ _ _ _ Hd) as (Hl & Hs & Hx & Hfr & Hfd).
    destruct (answer_events_facts _ _ _ _ _ Ha) as (Hs' & Hf' & Hx' & Hl' & He').
    assert (Hclean : existsb is_failed_debug evs'' = false) by exact Hf'.
    split; [discriminate|]. repeat split.
    + change (failed_repair_is_last
                ([EvExecute p (Raise e)] ++ evs' ++ [EvExecute fixed (Ok rows)] ++ evs'') = true).
      rewrite failed_repair_is_last_app by reflexivity.
      rewrite failed_repair_is_last_app by exact Hfd.
      rewrite failed_repair_is_last_app by reflexivity.
      clear -Hclean. induction evs'' as [|x l IH]; [reflexivity|].
      cbn in Hclean. apply orb_false_iff in Hclean. destruct Hclean as [Hx Hl].
      cbn [failed_repair_is_last]. rewrite Hx, (IH Hl). reflexivity.
    + change (existsb is_failed_debug
                ([EvExecute p (Raise e)] ++ evs' ++ [EvExecute fixed (Ok rows)] ++ evs'') = true
              -> is_execution_error r' = true).
      rewrite !existsb_app, Hfd, Hclean. discriminate.
    + intros q e0.
      change (EvExecute p (Raise e) :: evs' ++ EvExecute fixed (Ok rows) :: evs'')
        with ([EvExecute p (Raise e)] ++ evs' ++ [EvExecute fixed (Ok rows)] ++ evs'').
      rewrite !last_event_app. destruct (last_event evs'') eqn:E.
      * intros H. exfalso. exact (Hl' q e0 H).
      * discriminate.
    + destruct H as [H|H]; [discriminate|]. apply in_app_or in H.
      destruct H as [H|[H|H]]; [exfalso; exact (Hx _ _ H)| |exfalso; exact (Hx' _ _ H)].
      injection H as <- ->. destruct (He' eq_refl) as [_ ->]. reflexivity.
    + destruct H as [H|H]; [discriminate|]. apply in_app_or in H.
      destruct H as [H|[H|H]]; [exfalso; exact (Hx _ _ H)| |exfalso; exact (Hx' _ _ H)].
      injection H as <- ->. destruct (He' eq_refl) as [-> _].
      cbn [existsb is_summarization orb]. rewrite existsb_app, Hs. reflexivity.
Qed.

End MoreTraceFacts.

Section RequestFacts.
Variable W : world.
Variable the_schema : schema_info.
Variable user_query : list N.

Lemma clean_failed_repair_is_last evs :
  existsb is_failed_debug evs = false -> failed_repair_is_last evs = true.
Proof.
  induction evs as [|x l IH]; [reflexivity|].
  cbn. intros H. apply orb_false_iff in H. destruct H as [Hx Hl].
  rewrite Hx, (IH Hl). reflexivity.
Qed.

Lemma request_events_facts evs r :
  request_events W the_schema user_query evs r ->
  failed_repair_is_last evs = true
  /\ (existsb is_failed_debug evs = true -> success r = false)
  /\ (forall q e, last_event evs = Some (EvExecute q (Raise e)) -> is_execution_error r = true)
  /\ (forall q, In (EvExecute q (Ok [])) evs -> valid W q = true ->
        r = get_empty_results_response (Some q) /\ existsb is_summarization evs = false).
Proof.
  intros [cs m Hcs|cs v Hcs Hv|cs sql evs' m Hcs Ha|cs sql evs' p evs'' r' Hcs Ha Hx];
    destruct (tool_completions_clean cs Hcs) as (Hf & Hs & Hn).
  - refine (conj _ (conj _ (conj _ _))).
    + rewrite (failed_repair_is_last_app _ _ Hf). reflexivity.
    + reflexivity.
    + intros q e H. rewrite last_event_app in H. discriminate.
    + intros q H _. exfalso.
      apply in_app_or in H. destruct H as [H|[H|[]]]; [exact (Hn _ _ H)|discriminate].
  - refine (conj _ (conj _ (conj _ _))).
    + rewrite (failed_repair_is_last_app _ _ Hf). reflexivity.
    + reflexivity.
    + intros q e H. rewrite last_event_app in H. discriminate.
    + intros q H _. exfalso.
      apply in_app_or in H. destruct H as [H|[H|[]]]; [exact (Hn _ _ H)|discriminate].
  - cbv zeta in Ha.
    destruct (agent_events_facts _ _ _ _ _ Ha) as (Hs' & Hfr & Hfd & Hv).
    refine (conj _ (conj _ (conj _ _))).
    + rewrite (failed_repair_is_last_app _ _ Hf).
      cbn [failed_repair_is_last is_failed_debug andb]. exact Hfr.
    + reflexivity.
    + intros q e H.
      change (cs ++ EvGenerate user_query (true, JString sql) :: evs')
        with (cs ++ [EvGenerate user_query (true, JString sql)] ++ evs') in H.
      rewrite !last_event_app in H.
      inversion Ha as [ | | |e' m' evs0 Hv0 Hd E1 E2]; subst.
      destruct (debug_events_facts _ _ _ _ _ Hd) as (Hl & _).
      change (EvExecute ?a ?b :: evs0) with ([EvExecute a b] ++ evs0) in H.
      rewrite last_event_app, Hl in H. discriminate.
    + intros q H H0. exfalso.
      apply in_app_or in H. destruct H as [H|[H|H]];
        [exact (Hn _ _ H)|discriminate|].
      rewrite (Hv _ _ H) in H0. discriminate.
  - cbv zeta in Ha.
    destruct (agent_events_facts _ _ _ _ _ Ha) as (Hs' & Hfr & Hfd & Hv).
    destruct (execution_events_facts _ _ _ _ _ Hx) as (Hne & Hfr' & Hfd' & Hl' & He').
    cbn [fst negb] in Hfd.
    refine (conj _ (conj _ (conj _ _))).
    + rewrite (failed_repair_is_last_app _ _ Hf).
      change (failed_repair_is_last ([EvGenerate user_query (true, JString sql)] ++ evs' ++ evs'') = true).
      rewrite failed_repair_is_last_app by reflexivity.
      rewrite failed_repair_is_last_app by exact Hfd. exact Hfr'.
    + change (cs ++ EvGenerate user_query (true, JString sql) :: evs' ++ evs'')
        with (cs ++ [EvGenerate user_query (true, JString sql)] ++ evs' ++ evs'').
      rewrite !existsb_app, Hf, Hfd. cbn [existsb is_failed_debug orb].
      intros H. specialize (Hfd' H). unfold is_execution_error in Hfd'.
      destruct (success r'); [discriminate|reflexivity].
    + intros q e.
      change (cs ++ EvGenerate user_query (true, JString sql) :: evs' ++ evs'')
        with (cs ++ [EvGenerate user_query (true, JString sql)] ++ evs' ++ evs'').
      rewrite !last_event_app.
      destruct (last_event evs'') eqn:E.
      * intros H. apply (Hl' q e). exact H.
      * exfalso. destruct evs'' as [|x l]; [congruence|].
        clear -E. revert x E. induction l as [|y l IH]; intros x E; [discriminate|].
        exact (IH y E).
    + intros q H H0.
      apply in_app_or in H. destruct H as [H|[H|H]];
        [exfalso; exact (Hn _ _ H)|discriminate|].
      apply in_app_or in H. destruct H as [H|H].
      * rewrite (Hv _ _ H) in H0. discriminate.
      * split; [exact (proj1 (He' _ H))|].
        change (cs ++ EvGenerate user_query (true, JString sql) :: evs' ++ evs'')
          with (cs ++ [EvGenerate user_query (true, JString sql)] ++ evs' ++ evs'').
        rewrite !existsb_app, Hs, Hs', (proj2 (He' _ H)). reflexivity.
Qed.

End RequestFacts.

(** C8.  When the completion generation works from carries a call of
    generate_sql_query with arguments [args]: an "error" that counts as
    true (a non-empty string, or any other truthy value) is returned as
    the failure, whatever "query" holds; with no usable "error" and no
    usable "query" (missing, null, empty or otherwise falsy) the
    failure is "Generated SQL query is empty". *)
Theorem generation_reads_error_first :
  forall (W : world) (user_query : list N) (s : schema_info)
         (table_samples : list (list N * list row)) (tr : trace)
         (response : completion) (args : arguments),
    generation_obtains W user_query s table_samples tr response ->
    structured_reply (py "generate_sql_query") response args ->
    (forall e, dict_get args (py "error") = Some e -> json_truthy e = true ->
       fst (LLMService.generate_sql_query W user_query s table_samples tr) = Ok (false, e))
    /\ (field_empty args (py "error") = true -> field_empty args (py "query") = true ->
        fst (LLMService.generate_sql_query W user_query s table_samples tr)
        = Ok (false, JString (py "Generated SQL query is empty"))).
Proof.
  intros W user_query s table_samples tr response args
         (sm & Hclient & Hprompt & Hcall) (m & ms & tc & tcs & -> & Htc & Hname & Hargs).
  assert (Hgen : forall r,
            (forall tr', LLMService.read_generated_query W (m :: ms) tr' = (Ok r, tr')) ->
            fst (LLMService.generate_sql_query W user_query s table_samples tr) = Ok r).
  { intros r Hread. unfold LLMService.generate_sql_query. run_monad. rewrite Hclient, Hprompt.
    cbv zeta in Hcall. destruct Hcall as [Hcall|(e & Hcall & Hmodel & Hcall')].
    - rewrite Hcall, Hread. reflexivity.
    - rewrite Hcall, Hmodel. cbn [negb]. rewrite Hcall', Hread. reflexivity. }
  split.
  - intros e He Htrue. apply Hgen. intros tr'.
    unfold LLMService.read_generated_query. run_monad.
    rewrite Htc, Hname, Hargs. unfold get_or. rewrite He, Htrue. reflexivity.
  - unfold field_empty. intros He Hq. apply Hgen. intros tr'.
    unfold LLMService.read_generated_query. run_monad.
    rewrite Htc, Hname, Hargs. unfold get_or.
    destruct (dict_get args (py "error")) as [e|];
      destruct (dict_get args (py "query")) as [q|]; cbn [json_truthy truthy negb] in *.
    + apply negb_true_iff in He, Hq. rewrite He, Hq. reflexivity.
    + apply negb_true_iff in He. rewrite He. reflexivity.
    + apply negb_true_iff in Hq. rewrite Hq. reflexivity.
    + reflexivity.
Qed.

(** C1, on the failing path.  When the validator rejects the text the
    heuristics produced, SQLAgent.process_query hands that very text to
    the executor; and when the database accepts it, the rejected text
    is returned as the processed query, which QueryService then
    executes again. *)
Theorem invalid_query_is_executed :
  forall (W : world) (sql : list N) (s : schema_info) (tr : trace),
    valid W (the_heuristic_text W sql s) = false ->
    let q := the_heuristic_text W sql s in
    exists r evs,
      SQLAgent.process_query W sql s tr
      = (Ok r, tr ++ EvExecute q (postgres_execute_query W tr q) :: evs)
      /\ (forall rows, postgres_execute_query W tr q = Ok rows -> r = (true, q) /\ evs = []).
Proof.
  intros W sql s tr Hv q.
  assert (Hx : forall tr0, SQLAgent.process_query W sql s tr0
               = (let '(is_valid, validation_result) := SQLAgent.validate W q in
                  if is_valid then ret (true, q)
                  else
                    try (_ <- execute_query W q ;; ret (true, q))
                    except exec_error =>
                      (debugged <- SQLAgent.debug_query W q s exec_error ;;
                       match debugged with
                       | Fixed debug_result =>
                           let '(is_valid', _) := SQLAgent.validate W debug_result in
                           if is_valid' then ret (true, debug_result)
                           else ret (false, debug_result)
                       | NotFixed _ => ret (false, validation_result)
                       end)) tr0).
  { intros tr0. unfold SQLAgent.process_query, q, the_heuristic_text.
    destruct (detect_and_fix_common_issues (tables W) sql s) as [f w]. reflexivity. }
  rewrite Hx. clear Hx.
  unfold valid in Hv. fold q in Hv.
  destruct (SQLAgent.validate W q) as [is_valid reason]. cbn [fst] in Hv. subst is_valid.
  run_monad.
  destruct (postgres_execute_query W tr q) as [rows|e] eqn:Hq.
  - exists (true, q), []. split; [reflexivity|]. intros rows' _. split; reflexivity.
  - destruct (SQLAgent.debug_query W q s e (tr ++ [EvExecute q (Raise e)])) as [[d|d] tr'] eqn:Hd.
    + destruct (debug_query_run W q s e (tr ++ [EvExecute q (Raise e)]))
        as (cs & r0 & Hrun0 & _).
      rewrite Hd in Hrun0. injection Hrun0 as -> ->.
      rewrite <- app_assoc. cbn [app].
      destruct r0 as [res|res].
      * destruct (SQLAgent.validate W res) as [[|] ?]; eexists _, _;
          (split; [reflexivity|discriminate]).
      * eexists _, _; (split; [reflexivity|discriminate]).
    + destruct (debug_query_run W q s e (tr ++ [EvExecute q (Raise e)]))
        as (cs & r0 & Hrun0 & _).
      rewrite Hd in Hrun0. discriminate.
Qed.

Lemma upper_nil U : upper U [] = [].
Proof. reflexivity. Qed.

(** C2, on the failing path.  Whatever follows the first statement
    ([rest] is arbitrary), a text whose first statement is a SELECT and
    that holds no blocked keyword is accepted, returned unchanged by
    SQLAgent.process_query, and handed whole to the executor. *)
Theorem trailing_statements_are_executed :
  forall (W : world) (s : schema_info) (user_query sql : list N) (tr : trace)
         (stmt : statement (parser W)) (rest : list (statement (parser W))),
    let q := the_heuristic_text W sql s in
    parse (parser W) (strip (tables W) q) = Ok (stmt :: rest) ->
    str_eqb (upper (tables W) (get_type (parser W) stmt)) (py "SELECT") = true ->
    forallb (fun keyword =>
               negb (Re.search (tables W) (keyword_pattern (tables W) keyword) q))
            Config.BLOCKED_SQL_KEYWORDS = true ->
    SQLAgent.validate W q = (true, py "Query validation successful")
    /\ SQLAgent.process_query W sql s tr = (Ok (true, q), tr)
    /\ exists r evs,
         QueryService.execute_validated W s user_query q tr
         = (Ok r, tr ++ EvExecute q (postgres_execute_query W tr q) :: evs).
Proof.
  intros W s user_query sql tr stmt rest q Hparse Htype Hscan.
  assert (Hv : SQLAgent.validate W q = (true, py "Query validation successful")).
  { unfold SQLAgent.validate, validate_query. rewrite Hparse, Htype.
    destruct (get_type (parser W) stmt) as [|c t] eqn:Ht.
    - rewrite upper_nil in Htype. discriminate.
    - cbn [truthy negb orb].
      destruct (find _ Config.BLOCKED_SQL_KEYWORDS) as [kw|] eqn:Hfind; [|reflexivity].
      apply find_some in Hfind. destruct Hfind as [Hin Hhit].
      rewrite forallb_forall in Hscan. specialize (Hscan kw Hin).
      rewrite Hhit in Hscan. discriminate. }
  split; [exact Hv|]. split.
  - unfold SQLAgent.process_query. fold (the_heuristic_text W sql s).
    unfold q in Hv.
    unfold the_heuristic_text in *.
    destruct (detect_and_fix_common_issues (tables W) sql s) as [f w]. cbn [fst snd] in *.
    rewrite Hv. reflexivity.
  - destruct (execute_validated_run W s user_query q tr) as (evs & r & Hrun & _).
    exists r, evs. exact Hrun.
Qed.

(** ** Where in a log debug_query returned *)

Section RepairFacts.






Variable W : world.
Variable the_schema : schema_info.
Variable user_query : list N.






Lemma execution_error_is (e : list N) :
  is_execution_error (get_mock_response (py "execution_error") (Some (JString e))) = true.
Proof. reflexivity. Qed.


End RepairFacts.


(** C9.  When a query the validator accepts is executed and returns
    no row, the response is the empty-results one: success, that query,
    empty data, the fixed message and the fixed summary, no record
    count, no error; and the request made no call of the summarizer and
    no completion call for a summary. *)
Theorem zero_rows_skip_summarization :
  forall (W : world) (the_schema : schema_info) (table_samples : list (list N * list row))
         (user_query : list N) (tr : trace),
    exists r evs,
      QueryService.process_query W the_schema table_samples user_query tr = (Ok r, tr ++ evs)
      /\ forall q,
           In (EvExecute q (Ok [])) evs -> valid W q = true ->
           r = {| success := true;
                  message := Some (py "Query executed successfully but returned no results.");
                  query := Some q;
                  original_query := None;
                  was_debugged := None;
                  data := Some [];
                  summary := Some (py "No data was found for your query.");
                  record_count := None;
                  error := None;
                  mock := None |}
           /\ existsb is_summarization evs = false.
Proof.
  intros W the_schema table_samples user_query tr.
  destruct (process_query_run W the_schema table_samples user_query tr)
    as (evs & r & Hrun & Hev).
  exists r, evs. split; [exact Hrun|].
  intros q Hin Hv.
  destruct (request_events_facts _ _ _ _ _ Hev) as (_ & _ & _ & H4).
  destruct (H4 q Hin Hv) as [-> Hs]. split; [reflexivity|exact Hs].
Qed.

Lemma invalid_query_is_executed_witness :
  valid destructive_world
        (the_heuristic_text destructive_world (py "DROP TABLE users") users_schema) = false
  /\ exists r evs,
       SQLAgent.process_query destructive_world (py "DROP TABLE users") users_schema []
       = (Ok r, [] ++ EvExecute (py "DROP TABLE users") (Ok []) :: evs)
       /\ r = (true, py "DROP TABLE users").
Proof.
  split; [reflexivity|].
  destruct (invalid_query_is_executed destructive_world (py "DROP TABLE users")
              users_schema [] eq_refl) as (r & evs & Hrun & Hok).
  exists r, evs. split; [exact Hrun|]. exact (proj1 (Hok [] eq_refl)).
Defined.

Lemma trailing_statements_are_executed_witness :
  parse (parser two_statement_world)
        (strip (tables two_statement_world)
           (the_heuristic_text two_statement_world
              (py "SELECT * FROM users; SELECT * FROM secrets") users_schema))
  = Ok [py "SELECT * FROM users;"; py " SELECT * FROM secrets"]
  /\ exists r evs,
       QueryService.execute_validated two_statement_world users_schema (py "all users")
         (py "SELECT * FROM users; SELECT * FROM secrets") []
       = (Ok r, [] ++ EvExecute (py "SELECT * FROM users; SELECT * FROM secrets") (Ok []) :: evs).
Proof.
  split; [reflexivity|].
  exact (proj2 (proj2 (trailing_statements_are_executed two_statement_world users_schema
           (py "all users") (py "SELECT * FROM users; SELECT * FROM secrets") []
           (py "SELECT * FROM users;") [py " SELECT * FROM secrets"]
           eq_refl eq_refl eq_refl))).
Defined.



Lemma generation_reads_error_first_witness :
  generation_obtains declining_world (py "what") users_schema [] []
    (tool_reply (py "generate_sql_query")
       [(py "query", JString (py "SELECT 1")); (py "error", JString (py "cannot answer"))])
  /\ fst (LLMService.generate_sql_query declining_world (py "what") users_schema [] [])
     = Ok (false, JString (py "cannot answer")).
Proof.
  assert (H : generation_obtains declining_world (py "what") users_schema [] []
                (tool_reply (py "generate_sql_query")
                   [(py "query", JString (py "SELECT 1"));
                    (py "error", JString (py "cannot answer"))])).
  { exists (py "generate"). repeat split. left. reflexivity. }
  split; [exact H|].
  refine (proj1 (generation_reads_error_first declining_world (py "what") users_schema [] []
                   _ [(py "query", JString (py "SELECT 1"));
                      (py "error", JString (py "cannot answer"))]
                   H _) (JString (py "cannot answer")) eq_refl eq_refl).
  eexists _, _, _, _. repeat split.
Defined.

Lemma zero_rows_skip_summarization_witness :
  exists r evs,
    QueryService.process_query empty_world users_schema [] (py "all users") []
    = (Ok r, [] ++ evs)
    /\ In (EvExecute (py "SELECT * FROM users") (Ok [])) evs
    /\ success r = true
    /\ query r = Some (py "SELECT * FROM users")
    /\ data r = Some []
    /\ summary r = Some (py "No data was found for your query.")
    /\ existsb is_summarization evs = false.
Proof.
  destruct (zero_rows_skip_summarization empty_world users_schema [] (py "all users") [])
    as (r & evs & Hrun & H).
  exists r, evs. split; [exact Hrun|].
  assert (Hin : In (EvExecute (py "SELECT * FROM users") (Ok [])) evs).
  { vm_compute in Hrun. injection Hrun as _ <-. right. right. left. reflexivity. }
  split; [exact Hin|].
  destruct (H (py "SELECT * FROM users") Hin eq_refl) as (-> & Hs).
  repeat split. exact Hs.
Defined.

(** C10, as amended.  summarize_query_results always returns a text,
    never an exception.  A failure of the client initialization or of
    the completion call yields the fixed fallback sentence.  A failure
    of the markdown formatting does not: the text of the completion is
    kept and followed by a plain listing of the rows. *)
Theorem summarize_never_raises :
  forall (W : world) (user_query sql : list N) (rows : list row) (max_rows : nat) (tr : trace),
    exists t tr',
      LLMService.summarize_query_results W user_query sql rows max_rows tr = (Ok t, tr')
      /\ (forall e, get_or_initialize_client W TheLLMService tr = Raise e ->
            t = fallback_sentence)
      /\ (forall dumped system_message e,
            rows <> [] ->
            get_or_initialize_client W TheLLMService tr = Ok tt ->
            json_dumps W (firstn 10 rows) = Ok dumped ->
            get_summary_prompt W tr = Ok system_message ->
            chat_completions_create W tr (LLM_MODEL W)
              (LLMService.summary_messages user_query sql rows dumped system_message) None
            = Raise e ->
            t = fallback_sentence)
      /\ (forall dumped system_message m ms c err listing,
            rows <> [] ->
            get_or_initialize_client W TheLLMService tr = Ok tt ->
            json_dumps W (firstn 10 rows) = Ok dumped ->
            get_summary_prompt W tr = Ok system_message ->
            chat_completions_create W tr (LLM_MODEL W)
              (LLMService.summary_messages user_query sql rows dumped system_message) None
            = Ok (m :: ms) ->
            content m = Some c ->
            LLMService.markdown_error (LLMService.format_results_to_markdown W rows max_rows)
            = Some err ->
            repr_of_rows W (firstn max_rows rows) = Ok listing ->
            t = strip (tables W) c ++ nl ++ nl ++ could_not_format ++ nl ++ listing).
Proof.
  intros W user_query sql rows max_rows tr.
  destruct (summarize_query_results_run W user_query sql rows max_rows tr)
    as (cs & t & Hrun & _).
  exists t, (tr ++ cs ++ [EvSummarize user_query sql t]). split; [exact Hrun|].
  unfold LLMService.summarize_query_results, LLMService.summarization_fallback in Hrun.
  run_monad. cbn [error get_mock_response] in Hrun.
  refine (conj _ (conj _ _)).
  - intros e He. rewrite He in Hrun. injection Hrun as <- _. reflexivity.
  - intros dumped sm e Hne Hc Hd Hp Hx.
    destruct rows as [|row more]; [congruence|].
    rewrite Hc, Hd, Hp, Hx in Hrun. injection Hrun as <- _. reflexivity.
  - intros dumped sm m ms c err listing Hne Hc Hd Hp Hx Hcontent Hmd Hrepr.
    destruct rows as [|row more]; [congruence|].
    rewrite Hc, Hd, Hp, Hx, Hcontent, Hmd, Hrepr in Hrun. injection Hrun as <- _. reflexivity.
Qed.

Lemma summarize_never_raises_witness :
  exists t tr',
    LLMService.summarize_query_results unprintable_world (py "what") (py "SELECT a FROM t")
      unprintable_rows 10 [] = (Ok t, tr')
    /\ t = strip (tables unprintable_world) (py "ok") ++ nl ++ nl ++ could_not_format ++ nl
           ++ py "[...]".
Proof.
  destruct (summarize_never_raises unprintable_world (py "what") (py "SELECT a FROM t")
              unprintable_rows 10 []) as (t & tr' & Hrun & _ & _ & H).
  exists t, tr'. split; [exact Hrun|].
  refine (H (py "[]") (py "summarize") _ [] (py "ok") (py "cannot print") (py "[...]")
            _ eq_refl eq_refl eq_refl eq_refl eq_refl eq_refl eq_refl).
  discriminate.
Defined.

(** C10 as stated fails.  When a cell cannot be printed the markdown
    formatting fails, and the summary is not the fallback sentence. *)
Lemma formatting_failure_is_not_the_fallback :
  LLMService.markdown_error
    (LLMService.format_results_to_markdown unprintable_world unprintable_rows 10)
  = Some (py "cannot print")
  /\ fst (LLMService.summarize_query_results unprintable_world (py "what")
            (py "SELECT a FROM t") unprintable_rows 10 [])
     <> Ok fallback_sentence.
Proof.
  split; [reflexivity|]. vm_compute. discriminate.
Qed.

(** ** Worked requests *)

(** The engine on the patterns of the fixer and of the validator. *)
Example finditer_plural :
  Re.finditer ascii_only (table_pattern ascii_only (py "users"))
    (py "SELECT USERS.id FROM USERSs")
  = [py "USERS"; py "USERSs"].
Proof. reflexivity. Qed.

Example finditer_empty_matches :
  Re.finditer ascii_only (table_pattern ascii_only []) (py "as s b")
  = [[]; []; py "s"; []; []; []].
Proof. reflexivity. Qed.

Example keyword_is_a_whole_word :
  Re.search ascii_only (keyword_pattern ascii_only (py "DROP")) (py "select 1; drop table x") = true
  /\ Re.search ascii_only (keyword_pattern ascii_only (py "DROP")) (py "select dropped from x") = false
  /\ Re.search ascii_only (keyword_pattern ascii_only (py "DROP")) (py "select DROP_1 from x") = false.
Proof. repeat split. Qed.

Example quoting_pass :
  quote_literals ascii_only
    (py "WHERE name = bob AND a = 'x' AND b = 5 AND c = 1 2 and d = f(x) and e = x::text")
  = (py "WHERE name = 'bob' AND a = 'x' AND b = '5' AND c = 1 2 and d = f(x) and e = x::text",
     true).
Proof. vm_compute. reflexivity. Qed.

(** A rejected statement reaches the executor twice and the request succeeds. *)
Example destructive_request :
  let run := QueryService.process_query destructive_world users_schema [] (py "drop it") [] in
  fst run = Ok (get_empty_results_response (Some (py "DROP TABLE users")))
  /\ executed (snd run) = [py "DROP TABLE users"; py "DROP TABLE users"]
  /\ valid destructive_world (py "DROP TABLE users") = false.
Proof. vm_compute. repeat split. Qed.

(** Both statements of an accepted text reach the executor. *)
Example two_statement_request :
  let run := QueryService.process_query two_statement_world users_schema [] (py "all") [] in
  executed (snd run) = [py "SELECT * FROM users; SELECT * FROM secrets"]
  /\ valid two_statement_world (py "SELECT * FROM users; SELECT * FROM secrets") = true.
Proof. vm_compute. repeat split. Qed.

(** A failed execution, one repair, a second execution. *)
Example repaired_request :
  let run := QueryService.process_query typo_world users_schema [] (py "names") [] in
  executed (snd run) = [py "SELECT nam FROM users"; py "SELECT name FROM users"]
  /\ debug_calls (snd run) = 1
  /\ match fst run with
     | Ok r => success r = true
               /\ query r = Some (py "SELECT name FROM users")
               /\ original_query r = Some (py "SELECT nam FROM users")
               /\ was_debugged r = Some true
               /\ record_count r = Some 1
     | Raise _ => False
     end.
Proof. vm_compute. repeat split. Qed.

(** A generated query that is not a str: generate_sql_query returns
    it, the agent raises on it, nothing is executed and the response is
    the general_error one. *)
Example list_query_request :
  let run := QueryService.process_query list_world users_schema [] (py "all") [] in
  fst run = Ok (get_mock_response (py "general_error")
                  (Some (JString (py "expected string or bytes-like object"))))
  /\ map (fun e => match e with EvGenerate _ o => Some o | _ => None end) (snd run)
     = [None; Some (true, JArray 0 true)]
  /\ executed (snd run) = [].
Proof. vm_compute. repeat split. Qed.

(** * More of the code

    Properties of the functions the specification's claims leave out,
    and further properties of those they cite. *)

Import ServiceState.
Import MongoWrites.
Import SchemaFallback.

(** ** Strings and dicts *)

Lemma str_eqb_eq (a : list N) : forall b, str_eqb a b = true <-> a = b.
Proof.
  induction a as [|x a IH]; intros [|y b]; cbn; split; try congruence; try discriminate.
  - intros H. apply andb_true_iff in H. destruct H as [H1 H2].
    apply N.eqb_eq in H1. apply IH in H2. congruence.
  - intros H. injection H as -> ->. rewrite N.eqb_refl. apply IH. reflexivity.
Qed.

Lemma str_eqb_refl (k : list N) : str_eqb k k = true.
Proof. apply str_eqb_eq. reflexivity. Qed.

Lemma str_eqb_sym (a b : list N) : str_eqb a b = str_eqb b a.
Proof.
  destruct (str_eqb a b) eqn:E, (str_eqb b a) eqn:E'; try reflexivity.
  - apply str_eqb_eq in E. subst. rewrite str_eqb_refl in E'. discriminate.
  - apply str_eqb_eq in E'. subst. rewrite str_eqb_refl in E. discriminate.
Qed.

Lemma startswith_app (sub : list N) : forall post, startswith (sub ++ post) sub = true.
Proof.
  induction sub as [|x sub IH]; intros post; [destruct post; reflexivity|].
  cbn. rewrite N.eqb_refl. apply IH.
Qed.

Lemma in_dict_set {A} (d : list (list N * A)) k v a b :
  In (a, b) (dict_set d k v) -> In (a, b) d \/ (a = k /\ b = v).
Proof.
  induction d as [|[k' v'] d IH]; cbn [dict_set].
  - intros [H|[]]. injection H as <- <-. right. split; reflexivity.
  - destruct (str_eqb k' k) eqn:E.
    + apply str_eqb_eq in E. subst k'. intros [H|H].
      * injection H as <- <-. right. split; reflexivity.
      * left. right. exact H.
    + intros [H|H].
      * left. left. exact H.
      * destruct (IH H) as [H'|H']; [left; right; exact H'|right; exact H'].
Qed.

Section StripFacts.
Variable U : unicode.

Lemma lstrip_head s : forall c t, lstrip U s = c :: t -> isspace U c = false.
Proof.
  induction s as [|x s IH]; intros c t H; [discriminate|].
  cbn [lstrip] in H. destruct (isspace U x) eqn:E; [exact (IH _ _ H)|].
  injection H as <- _. exact E.
Qed.

Lemma lstrip_suffix s : exists p, s = p ++ lstrip U s.
Proof.
  induction s as [|x s [p IH]]; [exists []; reflexivity|].
  cbn [lstrip]. destruct (isspace U x).
  - exists (x :: p). cbn [app]. congruence.
  - exists []. reflexivity.
Qed.

Lemma strip_ends s d :
  hd_error (strip U s) = Some d \/ hd_error (rev (strip U s)) = Some d ->
  isspace U d = false.
Proof.
  unfold strip. rewrite rev_involutive.
  destruct (lstrip_suffix (rev (lstrip U s))) as [p Hp].
  intros [H|H].
  - assert (Hx : lstrip U s = rev (lstrip U (rev (lstrip U s))) ++ rev p).
    { rewrite <- rev_app_distr, <- Hp, rev_involutive. reflexivity. }
    destruct (rev (lstrip U (rev (lstrip U s)))) as [|c t]; [discriminate|].
    injection H as ->. exact (lstrip_head _ _ _ Hx).
  - destruct (lstrip U (rev (lstrip U s))) as [|c t] eqn:E; [discriminate|].
    injection H as ->. exact (lstrip_head _ _ _ E).
Qed.

Lemma lstrip_fixed s :
  (forall d, hd_error s = Some d -> isspace U d = false) -> lstrip U s = s.
Proof.
  destruct s as [|c s]; [reflexivity|]. intros H. cbn [lstrip].
  rewrite (H c eq_refl). reflexivity.
Qed.

Lemma strip_idempotent s : strip U (strip U s) = strip U s.
Proof.
  pose proof (strip_ends s) as H.
  set (t := strip U s) in *. unfold strip.
  rewrite (lstrip_fixed t) by (intros d Hd; apply H; left; exact Hd).
  rewrite (lstrip_fixed (rev t)) by (intros d Hd; apply H; right; exact Hd).
  apply rev_involutive.
Qed.

End StripFacts.

Section BlankFacts.
Variable U : unicode.

Lemma lstrip_blank (s : list N) : forallb (isspace U) s = true -> lstrip U s = [].
Proof.
  induction s as [|c s IH]; [reflexivity|].
  cbn [forallb lstrip]. intros H. apply andb_true_iff in H. destruct H as [Hc Hs].
  rewrite Hc. exact (IH Hs).
Qed.

Lemma strip_blank (s : list N) : forallb (isspace U) s = true -> strip U s = [].
Proof. intros H. unfold strip. rewrite (lstrip_blank s H). reflexivity. Qed.

End BlankFacts.

(** ** The safety validator: what it accepts *)

Section ValidatorSound.
Import Re.
Variable U : unicode.

Lemma search_from_found (r : regex) :
  forall s prev,
    search_from U r prev s = true ->
    exists pre post, s = pre ++ post /\ matches U r (last_from prev pre, post) <> [].
Proof.
  induction s as [|c t IH]; intros prev H; cbn [search_from] in H.
  - exists [], []. split; [reflexivity|]. cbn [last_from].
    destruct (matches U r (prev, [])); [discriminate|discriminate].
  - destruct (matches U r (prev, c :: t)) eqn:E.
    + destruct (IH _ H) as (pre & post & -> & Hm).
      exists (c :: pre), post. split; [reflexivity|exact Hm].
    + exists [], (c :: t). split; [reflexivity|]. cbn [last_from]. rewrite E. discriminate.
Qed.

Lemma matches_LitI_inv (keyword : list N) :
  forall prev s q,
    In q (matches U (LitI U keyword) (prev, s)) ->
    exists occ,
      s = occ ++ snd q /\ fst q = last_from prev occ
      /\ Forall2 (fun k c => ignorecase U k c = true) keyword occ.
Proof.
  induction keyword as [|k keyword IH]; intros prev s q H.
  - cbn in H. destruct H as [<-|[]]. exists []. repeat split. constructor.
  - cbn [LitI matches snd] in H.
    destruct s as [|c t]; [destruct H|].
    destruct (ignorecase U k c) eqn:Hk; [|destruct H].
    cbn [flat_map] in H. rewrite app_nil_r in H.
    destruct (IH _ _ _ H) as (occ & Hs & Hq & Hall).
    exists (c :: occ). cbn [app last_from]. repeat split; [congruence|exact Hq|].
    constructor; assumption.
Qed.

Lemma ignorecase_ascii_upper (k c : N) :
  ascii_isupper k = true -> is_ascii c = true -> ignorecase U k c = true ->
  ascii_upper c = k.
Proof.
  unfold ascii_isupper, between, is_ascii. intros Hk Hc.
  apply andb_true_iff in Hk. destruct Hk as [H1 H2].
  apply N.leb_le in H1. apply N.leb_le in H2. apply N.ltb_lt in Hc.
  unfold ignorecase, is_ascii, ascii_isalpha, ascii_isupper, between.
  replace (N.ltb k 128) with true by (symmetry; apply N.ltb_lt; lia).
  replace (N.leb 65 k) with true by (symmetry; apply N.leb_le; lia).
  replace (N.leb k 90) with true by (symmetry; apply N.leb_le; lia).
  cbn [andb orb].
  unfold lower, is_ascii. replace (N.ltb c 128) with true by (symmetry; apply N.ltb_lt; lia).
  assert (Hkl : ascii_lower k = (k + 32)%N).
  { unfold ascii_lower, ascii_isupper, between.
    replace (N.leb 65 k) with true by (symmetry; apply N.leb_le; lia).
    replace (N.leb k 90) with true by (symmetry; apply N.leb_le; lia).
    reflexivity. }
  rewrite Hkl. intros H.
  assert (Hl : ascii_lower c = (k + 32)%N).
  { cbn [existsb] in H. apply orb_true_iff in H. destruct H as [H|H].
    - apply N.eqb_eq in H. exact H.
    - exfalso. unfold case_fixes in H.
      assert (Hlt : (ascii_lower c < 128)%N).
      { unfold ascii_lower, ascii_isupper, between.
        destruct (N.leb 65 c && N.leb c 90) eqn:E; [|lia].
        apply andb_true_iff in E. destruct E as [_ E]. apply N.leb_le in E. lia. }
      destruct (N.eqb (k + 32) 105); [|destruct (N.eqb (k + 32) 115)]; cbn [existsb] in H;
        try discriminate; rewrite orb_false_r in H; apply N.eqb_eq in H; lia. }
  unfold ascii_lower, ascii_isupper, between in Hl.
  unfold ascii_upper, ascii_islower, between.
  destruct (N.leb 65 c && N.leb c 90) eqn:E.
  - apply andb_true_iff in E. destruct E as [E1 E2].
    apply N.leb_le in E1. apply N.leb_le in E2.
    replace (N.leb 97 c) with false by (symmetry; apply N.leb_gt; lia).
    cbn [andb]. lia.
  - subst c.
    replace (N.leb 97 (k + 32)) with true by (symmetry; apply N.leb_le; lia).
    replace (N.leb (k + 32) 122) with true by (symmetry; apply N.leb_le; lia).
    cbn [andb]. lia.
Qed.

Lemma spelled_ascii (keyword : list N) :
  forall occ,
    forallb ascii_isupper keyword = true ->
    forallb is_ascii occ = true ->
    Forall2 (fun k c => ignorecase U k c = true) keyword occ ->
    map ascii_upper occ = keyword.
Proof.
  intros occ Hup Hasc H. induction H as [|k c keyword occ Hkc _ IH]; [reflexivity|].
  cbn [forallb] in Hup, Hasc.
  apply andb_true_iff in Hup. destruct Hup as [Hk Hup].
  apply andb_true_iff in Hasc. destruct Hasc as [Hc Hasc].
  cbn [map]. rewrite (ignorecase_ascii_upper k c Hk Hc Hkc), (IH Hup Hasc). reflexivity.
Qed.

Lemma keyword_pattern_sound (keyword text : list N) :
  keyword <> [] ->
  forallb ascii_isupper keyword = true ->
  forallb is_ascii text = true ->
  search U (keyword_pattern U keyword) text = true ->
  occurs_as_word U keyword text.
Proof.
  intros Hne Hup Hasc H.
  destruct (search_from_found _ _ _ H) as (pre & post & -> & Hm).
  unfold keyword_pattern in Hm. cbn [matches fst snd] in Hm.
  destruct (xorb (word_at U (last_from None pre)) (word_at U (hd_error post))) eqn:Hb;
    [|exfalso; apply Hm; reflexivity].
  cbn [flat_map] in Hm. rewrite app_nil_r in Hm.
  match type of Hm with ?l <> [] =>
    assert (Hin : exists x, In x l) by (destruct l as [|x l']; [congruence|exists x; left; reflexivity])
  end.
  destruct Hin as (x & Hin).
  apply in_flat_map in Hin. destruct Hin as (q & Hq & Hx).
  destruct (matches_LitI_inv _ _ _ _ Hq) as (occ & Hpost & Hfst & Hall).
  rewrite forallb_app in Hasc. apply andb_true_iff in Hasc. destruct Hasc as [_ Hasc].
  rewrite Hpost, forallb_app in Hasc. apply andb_true_iff in Hasc. destruct Hasc as [Hocc _].
  pose proof (spelled_ascii keyword occ Hup Hocc Hall) as Hsp.
  destruct (spelling_last_is_word U keyword occ (last_from None pre) Hne Hup Hsp) as [Hlast Hfirst].
  exists pre, occ, (snd q). repeat split; [congruence|exact Hsp| |].
  - assert (Hhd : hd_error post = hd_error occ).
    { rewrite Hpost. destruct occ; [subst keyword; cbn in Hne; congruence|reflexivity]. }
    rewrite Hhd, Hfirst in Hb. destruct (word_at U (last_from None pre)); [discriminate|reflexivity].
  - rewrite Hfst, Hlast in Hx.
    destruct (word_at U (hd_error (snd q))); [destruct Hx|reflexivity].
Qed.

End ValidatorSound.

(** X1.  On a text of ASCII characters validate_query accepts exactly
    when the parser finds a first statement whose type, in upper case,
    is SELECT and no blocked keyword occurs in the text as a whole
    word: a keyword inside a longer word (updated_at) never causes a
    rejection. *)
Theorem validate_query_accepts_exactly :
  forall (U : unicode) (P : sqlparse) (query : list N),
    forallb is_ascii query = true ->
    (fst (validate_query U P query) = true
     <-> (exists stmt rest,
            parse P (strip U query) = Ok (stmt :: rest)
            /\ upper U (get_type P stmt) = py "SELECT")
         /\ forall keyword, In keyword Config.BLOCKED_SQL_KEYWORDS ->
                            ~ occurs_as_word U keyword query).
Proof.
  intros U P query Hasc. unfold validate_query.
  assert (Hkw : forall keyword, In keyword Config.BLOCKED_SQL_KEYWORDS ->
                  keyword <> [] /\ forallb ascii_isupper keyword = true).
  { intros keyword Hin. pose proof blocked_keywords_upper as Hall.
    rewrite forallb_forall in Hall. specialize (Hall keyword Hin).
    apply andb_true_iff in Hall. destruct Hall as [Hup Hne].
    split; [intros ->; discriminate|exact Hup]. }
  split.
  - intros H.
    destruct (parse P (strip U query)) as [[|stmt stmts]|e]; try discriminate.
    destruct (truthy (get_type P stmt)) eqn:Ht; cbn [negb orb] in H; try discriminate.
    destruct (str_eqb (upper U (get_type P stmt)) (py "SELECT")) eqn:Hs;
      cbn [negb] in H; try discriminate.
    destruct (find _ Config.BLOCKED_SQL_KEYWORDS) eqn:Hfind; try discriminate.
    split.
    + exists stmt, stmts. split; [reflexivity|]. apply str_eqb_eq, Hs.
    + intros keyword Hin Hocc.
      pose proof (find_none _ _ Hfind keyword Hin) as Hnone. cbn beta in Hnone.
      destruct (Hkw keyword Hin) as [Hne Hup].
      rewrite (keyword_pattern_found U keyword query Hne Hup Hocc) in Hnone. discriminate.
  - intros [(stmt & rest & -> & Hsel) Hno].
    assert (Hs : str_eqb (upper U (get_type P stmt)) (py "SELECT") = true)
      by (apply str_eqb_eq, Hsel).
    assert (Ht : truthy (get_type P stmt) = true).
    { destruct (get_type P stmt); [discriminate Hsel|reflexivity]. }
    rewrite Ht, Hs. cbn [negb orb].
    destruct (find _ Config.BLOCKED_SQL_KEYWORDS) as [keyword|] eqn:Hfind; [|reflexivity].
    exfalso. apply find_some in Hfind. destruct Hfind as [Hin Hfound].
    destruct (Hkw keyword Hin) as [Hne Hup].
    exact (Hno keyword Hin (keyword_pattern_sound U keyword query Hne Hup Hasc Hfound)).
Qed.

Lemma validate_query_accepts_exactly_witness :
  forallb is_ascii (py "SELECT updated_at FROM drops") = true
  /\ forall keyword,
       In keyword Config.BLOCKED_SQL_KEYWORDS ->
       ~ occurs_as_word ascii_only keyword (py "SELECT updated_at FROM drops").
Proof.
  split; [reflexivity|].
  exact (proj2 (proj1 (validate_query_accepts_exactly ascii_only plain_sqlparse
                         (py "SELECT updated_at FROM drops") eq_refl) eq_refl)).
Defined.

(** ** The heuristic fixer: the flag and the quotes *)

Section QuotePassMore.
Import Re.
Variable U : unicode.
Local Arguments N.eqb : simpl never.
Local Arguments N.leb : simpl never.
Local Arguments N.ltb : simpl never.

Lemma scan_sp_no_hit :
  forall s, hits (scan U (string_pattern U) None s 0) = [] ->
            scan U (string_pattern U) None s 0 = map Keep s.
Proof.
  induction s as [|c t IH]; intros H.
  - apply scan_sp_nil.
  - destruct (quote_match U (c :: t)) as [n|] eqn:E.
    + rewrite (scan_sp_some U None _ n E) in H. discriminate.
    + rewrite (scan_sp_none U None c t E) in *. cbn [map]. f_equal. apply IH. exact H.
Qed.

Lemma quote_literals_unflagged query :
  snd (quote_literals U query) = false -> quote_literals U query = (query, false).
Proof.
  unfold quote_literals, sub. cbn [snd]. intros H.
  destruct (hits (scan U (string_pattern U) None query 0)) eqn:E; [|discriminate].
  rewrite (scan_sp_no_hit query E). fold render.
  rewrite flat_map_render_keep. reflexivity.
Qed.

Lemma bareword_unquote w :
  forallb bareword_char w = true -> unquote w = w.
Proof.
  induction w as [|c w IH]; [reflexivity|].
  cbn [forallb]. intros H. apply andb_true_iff in H. destruct H as [Hc Hw].
  unfold unquote. cbn [filter]. fold (unquote w). rewrite (IH Hw).
  destruct (N.eqb_spec c 39) as [->|]; [discriminate|reflexivity].
Qed.

Lemma unquote_app a b : unquote (a ++ b) = unquote a ++ unquote b.
Proof. apply filter_app. Qed.

Lemma unquote_quoted_aux :
  forall n s, length s <= n -> unquote (quoted U s) = unquote s.
Proof.
  induction n as [|n IH]; intros s Hn.
  - destruct s; [|simpl in Hn; lia]. rewrite quoted_nil. reflexivity.
  - destruct (quote_match U s) as [m|] eqn:H.
    + destruct (quote_match_shape U s m H) as (c & t & k & -> & Hc & -> & Hk & Hw).
      rewrite (quoted_some U _ _ H).
      replace (k + 3) with (S (S (S k))) by lia.
      cbn [firstn skipn]. unfold add_quotes_to_strings. cbn [skipn].
      change (py "= '") with [61%N; 32%N; 39%N]. change (py "'") with [39%N].
      rewrite <- (firstn_skipn k t) at 3.
      change (61%N :: 32%N :: c :: firstn k t ++ skipn k t)
        with ([61%N; 32%N] ++ (c :: firstn k t) ++ skipn k t).
      change ([61%N; 32%N; 39%N] ++ c :: firstn k t)
        with ([61%N; 32%N] ++ [39%N] ++ (c :: firstn k t)).
      rewrite !unquote_app.
      rewrite IH by (rewrite length_skipn; simpl in Hn; lia).
      assert (Hcw : forallb bareword_char (c :: firstn k t) = true)
        by (cbn [forallb]; rewrite Hc, Hw; reflexivity).
      rewrite (bareword_unquote _ Hcw).
      change (unquote [39%N]) with (@nil N).
      change (unquote [61%N; 32%N; 39%N]) with [61%N; 32%N].
      change (unquote [61%N; 32%N]) with [61%N; 32%N].
      rewrite app_nil_r, <- !app_assoc. reflexivity.
    + destruct s as [|c t]; [rewrite quoted_nil; reflexivity|].
      rewrite (quoted_none U c t H).
      unfold unquote. cbn [filter]. fold (unquote (quoted U t)). fold (unquote t).
      rewrite IH by (simpl in Hn; lia). reflexivity.
Qed.

End QuotePassMore.

(** X2.  When detect_and_fix_common_issues reports changed = false the
    text it returns is the query it was given; so SQLAgent.process_query,
    which keeps its query in that case, always goes on with the text the
    fixer returned. *)
Theorem unflagged_fix_returns_the_query :
  forall (U : unicode) (query : list N) (s : schema_info),
    snd (detect_and_fix_common_issues U query s) = false ->
    fst (detect_and_fix_common_issues U query s) = query.
Proof.
  intros U query s. unfold detect_and_fix_common_issues.
  destruct (quote_literals U query) as [t b] eqn:E.
  rewrite fix_table_names_flag. cbn [fst snd]. intros H.
  apply orb_false_iff in H. destruct H as [-> H].
  rewrite (fix_table_names_same U s t H). cbn [fst].
  pose proof (quote_literals_unflagged U query) as Hq. rewrite E in Hq.
  specialize (Hq eq_refl). congruence.
Qed.

Lemma unflagged_fix_returns_the_query_witness :
  snd (detect_and_fix_common_issues Demo.ascii_only
         (py "SELECT name FROM users") Demo.users_schema) = false
  /\ fst (detect_and_fix_common_issues Demo.ascii_only
            (py "SELECT name FROM users") Demo.users_schema)
     = py "SELECT name FROM users".
Proof.
  split; [reflexivity|].
  exact (unflagged_fix_returns_the_query Demo.ascii_only
           (py "SELECT name FROM users") Demo.users_schema eq_refl).
Defined.

(** X3.  The literal-quoting pass only inserts single quotes: without
    its single quotes, the text after the pass is the text before it.
    No character is dropped, changed or moved. *)
Theorem quote_literals_only_adds_quotes :
  forall (U : unicode) (query : list N),
    unquote (fst (quote_literals U query)) = unquote query.
Proof.
  intros U query. exact (unquote_quoted_aux U (length query) query (le_n _)).
Qed.

(** ** The pipeline: cost, executions, failures *)

Section Costs.
Variable W : world.
Variable the_schema : schema_info.
Variable table_samples : list (list N * list row).

Lemma completion_calls_app a b :
  completion_calls (a ++ b) = completion_calls a + completion_calls b.
Proof. unfold completion_calls. rewrite filter_app, length_app. reflexivity. Qed.

Lemma completion_calls_le cs : completion_calls cs <= length cs.
Proof. apply filter_length_le. Qed.

Lemma fallback_calls_facts (model fallback tool : list N) (cs : trace) :
  fallback_calls model fallback tool cs ->
  forallb is_tool_completion cs = true
  /\ length cs <= 2
  /\ (str_eqb model fallback = true -> length cs <= 1)
  /\ models cs = firstn (length cs) [model; fallback].
Proof.
  intros [->|[(ms & o & -> & Ho)|(ms & e & o & -> & Hm)]]; cbn; repeat split; try lia.
  intros Hm'. rewrite Hm in Hm'. discriminate.
Qed.

Ltac give_fallback_calls :=
  first
    [ left; reflexivity
    | right; left; eexists _, _; split; [reflexivity|];
      intros ? He; first [discriminate He|
        match goal with H : negb ?b = false |- ?b = true =>
          destruct b; [reflexivity|discriminate H] end]
    | right; right; eexists _, _, _; split; [reflexivity|];
      match goal with H : negb ?b = true |- ?b = false =>
        destruct b; [discriminate H|reflexivity] end ].

Lemma generate_sql_query_calls (user_query : list N) (tr : trace) :
  exists cs r,
    LLMService.generate_sql_query W user_query the_schema table_samples tr
    = (Ok r, tr ++ cs ++ [EvGenerate user_query r])
    /\ fallback_calls (LLM_MODEL W) (py "gpt-4") (py "generate_sql_query") cs
    /\ json_truthy (snd r) = true.
Proof.
  unfold LLMService.generate_sql_query, LLMService.read_generated_query, slice. run_monad.
  repeat split_match; give_events; cbn [snd json_truthy truthy app];
    (split; [give_fallback_calls|]); try reflexivity.
  all: try assumption.
  all: match goal with
       | Hn : negb (json_truthy _) = false |- _ =>
           cbn [json_truthy] in Hn; apply negb_false_iff in Hn; exact Hn
       end.
Qed.

Lemma validate_reason_truthy q : truthy (snd (SQLAgent.validate W q)) = true.
Proof.
  unfold SQLAgent.validate, validate_query. repeat split_match; reflexivity.
Qed.

Lemma debug_query_calls (query : list N) (s : schema_info) (error_message : list N) (tr : trace) :
  exists cs r,
    SQLAgent.debug_query W query s error_message tr
    = (Ok r, tr ++ cs ++ [EvDebug query error_message r])
    /\ fallback_calls (LLM_MODEL W) (py "gpt-3.5-turbo") (py "fix_sql_query") cs
    /\ repair_truthy r = true
    /\ (forall fixed, r = Fixed fixed -> valid W fixed = true).
Proof.
  destruct (debug_query_run W query s error_message tr) as (cs0 & r0 & Hrun0 & _ & Hvalid).
  revert Hrun0.
  unfold SQLAgent.debug_query, SQLAgent.read_fixed_query. run_monad.
  repeat split_match; intros Hrun0; give_events;
    cbn [repair_truthy json_truthy truthy app];
    (split; [give_fallback_calls|]); (split; [|try (injection Hrun0 as <- _; exact Hvalid)]);
    try reflexivity.
  all: try (match goal with H : SQLAgent.validate W ?q = (_, ?l) |- truthy ?l = true =>
              pose proof (validate_reason_truthy q) as Hq; rewrite H in Hq; exact Hq end).
  all: try assumption.
  all: try (match goal with
            | Hn : negb (json_truthy _) = false |- _ =>
                cbn [json_truthy] in Hn; apply negb_false_iff in Hn; exact Hn
            end).
Qed.

Lemma summarize_query_results_calls (user_query sql : list N) (results : list row) (n : nat)
      (tr : trace) :
  exists cs t,
    LLMService.summarize_query_results W user_query sql results n tr
    = (Ok t, tr ++ cs ++ [EvSummarize user_query sql t])
    /\ length cs <= 1
    /\ (results = [] -> cs = []).
Proof.
  unfold LLMService.summarize_query_results, LLMService.summarization_fallback. run_monad.
  cbn [error get_mock_response].
  repeat split_match; give_events; cbn [length]; (split; [lia|]); try reflexivity;
    discriminate.
Qed.

End Costs.

Section RequestCosts.
Variable W : world.
Variable the_schema : schema_info.
Variable table_samples : list (list N * list row).

Lemma completion_calls_leaf cs e :
  is_completion e = false -> completion_calls (cs ++ [e]) <= length cs.
Proof.
  intros He. rewrite completion_calls_app. unfold completion_calls at 2.
  cbn [filter]. rewrite He. cbn [length]. pose proof (completion_calls_le cs). lia.
Qed.

Lemma debug_query_cost (q : list N) (s : schema_info) (e : list N) (tr : trace) :
  exists cs r,
    SQLAgent.debug_query W q s e tr = (Ok r, tr ++ cs ++ [EvDebug q e r])
    /\ completion_calls (cs ++ [EvDebug q e r]) <= 2.
Proof.
  destruct (debug_query_calls W q s e tr) as (cs & r & Hrun & Hcs & _).
  exists cs, r. split; [exact Hrun|].
  destruct (fallback_calls_facts _ _ _ _ Hcs) as (_ & Hlen & _).
  pose proof (completion_calls_leaf cs (EvDebug q e r) eq_refl). lia.
Qed.

Lemma agent_process_query_calls (sql : list N) (tr : trace) :
  exists evs r,
    SQLAgent.process_query W sql the_schema tr = (Ok r, tr ++ evs)
    /\ completion_calls evs <= 2.
Proof.
  unfold SQLAgent.process_query.
  destruct (detect_and_fix_common_issues (tables W) sql the_schema) as [fixed_query was_modified].
  set (q := if was_modified then fixed_query else sql).
  destruct (SQLAgent.validate W q) as [is_valid reason].
  destruct is_valid.
  - exists [], (true, q). rewrite app_nil_r. split; [reflexivity|]. cbn. lia.
  - run_monad.
    destruct (postgres_execute_query W tr q) as [rows|e].
    + exists [EvExecute q (Ok rows)], (true, q). split; [reflexivity|]. cbn. lia.
    + destruct (debug_query_cost q the_schema e (tr ++ [EvExecute q (Raise e)]))
        as (cs & r & Hrun & Hcs).
      rewrite Hrun.
      assert (Hc : completion_calls (EvExecute q (Raise e) :: cs ++ [EvDebug q e r]) <= 2).
      { change (completion_calls ([EvExecute q (Raise e)] ++ cs ++ [EvDebug q e r]) <= 2).
        rewrite completion_calls_app.
        cbn [completion_calls filter is_completion length app] in *. lia. }
      destruct r as [res|res].
      * destruct (SQLAgent.validate W res) as [ok' reason'].
        eexists (EvExecute q (Raise e) :: cs ++ [EvDebug q e (Fixed res)]), _.
        split; [rewrite <- !app_assoc; destruct ok'; reflexivity|exact Hc].
      * exists (EvExecute q (Raise e) :: cs ++ [EvDebug q e (NotFixed res)]), (false, reason).
        split; [rewrite <- !app_assoc; reflexivity|exact Hc].
Qed.

Lemma answer_calls (user_query sql : list N) (original : option (list N))
      (rows : list row) (tr : trace) :
  exists evs r,
    match rows with
    | [] => ret (get_empty_results_response (Some sql))
    | _ :: _ =>
        summary_text <- LLMService.summarize_query_results W user_query sql rows 10 ;;
        ret (QueryService.success_response sql original rows summary_text)
    end tr = (Ok r, tr ++ evs)
    /\ completion_calls evs <= 1.
Proof.
  destruct rows as [|r rows].
  - exists [], (get_empty_results_response (Some sql)). rewrite app_nil_r.
    split; [reflexivity|cbn; lia].
  - run_monad.
    destruct (summarize_query_results_calls W user_query sql (r :: rows) 10 tr)
      as (cs & t & Hrun & Hcs & _).
    rewrite Hrun. eexists _, _. split; [reflexivity|].
    pose proof (completion_calls_leaf cs (EvSummarize user_query sql t) eq_refl). lia.
Qed.

Lemma execute_validated_calls (user_query p : list N) (tr : trace) :
  exists evs r,
    QueryService.execute_validated W the_schema user_query p tr = (Ok r, tr ++ evs)
    /\ completion_calls evs <= 3.
Proof.
  unfold QueryService.execute_validated.
  unfold try_except at 1. unfold bind at 1. unfold execute_query, call.
  destruct (postgres_execute_query W tr p) as [rows|e] eqn:Hx.
  - destruct (answer_calls user_query p None rows (tr ++ [EvExecute p (Ok rows)]))
      as (evs & r & Hrun & Hev).
    rewrite Hrun. exists (EvExecute p (Ok rows) :: evs), r.
    split; [rewrite <- app_assoc; reflexivity|].
    change (completion_calls ([EvExecute p (Ok rows)] ++ evs) <= 3).
    rewrite completion_calls_app. cbn [completion_calls filter is_completion length] in *.
    lia.
  - unfold bind at 1.
    destruct (debug_query_cost p the_schema e (tr ++ [EvExecute p (Raise e)]))
      as (cs & [fixed|fixed] & Hrun & Hleaf); rewrite Hrun.
    + unfold try_except at 1. unfold bind at 1.
      set (tr' := (tr ++ [EvExecute p (Raise e)]) ++ cs ++ [EvDebug p e (Fixed fixed)]).
      destruct (postgres_execute_query W tr' fixed) as [rows|e'] eqn:Hx'.
      * destruct (answer_calls user_query fixed (Some p) rows (tr' ++ [EvExecute fixed (Ok rows)]))
          as (evs & r & Hrun' & Hev).
        rewrite Hrun'.
        exists ([EvExecute p (Raise e)] ++ (cs ++ [EvDebug p e (Fixed fixed)])
                ++ [EvExecute fixed (Ok rows)] ++ evs), r.
        split; [unfold tr'; rewrite <- !app_assoc; reflexivity|].
        rewrite !completion_calls_app in *.
        cbn [completion_calls filter is_completion length] in *. lia.
      * exists ([EvExecute p (Raise e)] ++ (cs ++ [EvDebug p e (Fixed fixed)])
                ++ [EvExecute fixed (Raise e')]),
               (get_mock_response (py "execution_error") (Some (JString e))).
        split; [unfold tr', ret; rewrite <- !app_assoc; reflexivity|].
        rewrite !completion_calls_app in *.
        cbn [completion_calls filter is_completion length] in *. lia.
    + exists ([EvExecute p (Raise e)] ++ cs ++ [EvDebug p e (NotFixed fixed)]),
             (get_mock_response (py "execution_error") (Some (JString e))).
      split; [unfold ret; rewrite <- !app_assoc; reflexivity|].
      rewrite !completion_calls_app in *.
      cbn [completion_calls filter is_completion length] in *. lia.
Qed.

Lemma process_query_calls (user_query : list N) (tr : trace) :
  exists evs r,
    QueryService.process_query W the_schema table_samples user_query tr = (Ok r, tr ++ evs)
    /\ completion_calls evs <= 7
    /\ exists cs g rest,
         evs = cs ++ EvGenerate user_query g :: rest
         /\ forallb is_tool_completion cs = true /\ json_truthy (snd g) = true.
Proof.
  unfold QueryService.process_query.
  unfold try_except at 1. unfold bind at 1.
  destruct (generate_sql_query_calls W the_schema table_samples user_query tr)
    as (cs & [ok generated] & Hrun & Hfall & Hne).
  destruct (fallback_calls_facts _ _ _ _ Hfall) as (Htool & Hcs & _).
  pose proof (completion_calls_leaf cs (EvGenerate user_query (ok, generated)) eq_refl) as Hleaf.
  rewrite Hrun. destruct ok; cbn [negb].
  - unfold bind at 1. unfold SQLAgent.process_query_value.
    destruct generated as [|sql|tag ne|tag t].
    2: { destruct (agent_process_query_calls sql
                     (tr ++ cs ++ [EvGenerate user_query (true, JString sql)]))
           as (evs & [ok p] & Hrun' & Hev).
         rewrite Hrun'. destruct ok; cbn [negb].
         + destruct (execute_validated_calls user_query p
                       ((tr ++ cs ++ [EvGenerate user_query (true, JString sql)]) ++ evs))
             as (evs' & r & Hrun'' & Hev').
           rewrite Hrun''.
           exists ((cs ++ [EvGenerate user_query (true, JString sql)]) ++ evs ++ evs'), r.
           split; [rewrite <- !app_assoc; reflexivity|].
           split; [rewrite !completion_calls_app in *; lia|].
           exists cs, (true, JString sql), (evs ++ evs').
           split; [rewrite <- !app_assoc; reflexivity|]. split; assumption.
         + exists ((cs ++ [EvGenerate user_query (true, JString sql)]) ++ evs),
                  (get_mock_response (py "sql_validation_failed") (Some (JString p))).
           split; [unfold ret; rewrite <- !app_assoc; reflexivity|].
           split; [rewrite !completion_calls_app in *; lia|].
           exists cs, (true, JString sql), evs.
           split; [rewrite <- !app_assoc; reflexivity|]. split; assumption. }
    all: eexists (cs ++ [EvGenerate user_query (true, _)]), _;
      (split; [reflexivity|]); (split; [lia|]);
      eexists cs, _, []; repeat split; assumption.
  - exists (cs ++ [EvGenerate user_query (false, generated)]),
           (get_mock_response (py "sql_generation_failed") (Some generated)).
    split; [reflexivity|]. split; [lia|].
    exists cs, (false, generated), []. repeat split; assumption.
Qed.

End RequestCosts.

Section ExecutionFacts.

Lemma executions_app a b : executions (a ++ b) = executions a ++ executions b.
Proof. apply flat_map_app. Qed.

Lemma generations_app a b : generations (a ++ b) = generations a ++ generations b.
Proof. apply flat_map_app. Qed.

Lemma tool_completions_quiet cs :
  forallb is_tool_completion cs = true -> executions cs = [] /\ generations cs = [].
Proof.
  induction cs as [|e cs IH]; [split; reflexivity|].
  cbn [forallb]. intros H. apply andb_true_iff in H. destruct H as [He Hcs].
  destruct e; try discriminate. exact (IH Hcs).
Qed.

Lemma summary_completions_quiet cs :
  forallb is_summary_completion cs = true -> executions cs = [] /\ generations cs = [].
Proof.
  induction cs as [|e cs IH]; [split; reflexivity|].
  cbn [forallb]. intros H. apply andb_true_iff in H. destruct H as [He Hcs].
  destruct e; try discriminate. exact (IH Hcs).
Qed.

Variable W : world.
Variable the_schema : schema_info.
Variable user_query : list N.

Lemma debug_events_quiet q e r evs :
  debug_events W q e r evs -> executions evs = [] /\ generations evs = [].
Proof.
  intros [cs Hcs _]. destruct (tool_completions_quiet cs Hcs) as [Hx Hg].
  rewrite executions_app, generations_app, Hx, Hg. split; reflexivity.
Qed.

Lemma summary_events_quiet sql t evs :
  summary_events user_query sql t evs -> executions evs = [] /\ generations evs = [].
Proof.
  intros [cs Hcs]. destruct (summary_completions_quiet cs Hcs) as [Hx Hg].
  rewrite executions_app, generations_app, Hx, Hg. split; reflexivity.
Qed.

Lemma answer_events_report sql original rows evs r :
  answer_events user_query sql original rows evs r ->
  executions evs = [] /\ generations evs = []
  /\ success r = true /\ query r = Some sql /\ data r = Some rows
  /\ original_query r = match rows with [] => None | _ :: _ => original end.
Proof.
  intros [|row rows' t evs' H].
  - repeat split.
  - destruct (summary_events_quiet _ _ _ H) as [Hx Hg]. repeat split; assumption.
Qed.

Lemma agent_events_executions q reason evs r :
  agent_events W q reason evs r ->
  generations evs = []
  /\ (executions evs = [] \/ exists o, executions evs = [(q, o)])
  /\ (fst r = true -> snd r = q \/ valid W (snd r) = true)
  /\ (fst r = false ->
        snd r = reason /\ valid W q = false
        /\ exists e, executions evs = [(q, Raise e)]).
Proof.
  intros [Hv|rows Hv|e fixed evs' Hv Hd|e m evs' Hv Hd].
  - repeat split; try discriminate; left; reflexivity.
  - repeat split; try discriminate; [right; eexists; reflexivity|left; reflexivity].
  - destruct (debug_events_quiet _ _ _ _ Hd) as [Hx Hg].
    inversion Hd as [cs Hcs Hvalid]. subst.
    repeat split; try discriminate.
    + exact Hg.
    + right. exists (Raise e).
      change (executions ([EvExecute q (Raise e)] ++ cs ++ [EvDebug q e (Fixed fixed)])
              = [(q, Raise e)]).
      rewrite executions_app, Hx. reflexivity.
    + intros _. right. exact (Hvalid _ eq_refl).
  - destruct (debug_events_quiet _ _ _ _ Hd) as [Hx Hg].
    assert (E : executions (EvExecute q (Raise e) :: evs') = [(q, Raise e)]).
    { change (executions ([EvExecute q (Raise e)] ++ evs') = [(q, Raise e)]).
      rewrite executions_app, Hx. reflexivity. }
    repeat split; try discriminate.
    + exact Hg.
    + right. exists (Raise e). exact E.
    + exact Hv.
    + exists e. exact E.
Qed.

Lemma execution_events_executions p evs r :
  execution_events W user_query p evs r ->
  generations evs = []
  /\ ((exists o, executions evs = [(p, o)])
      \/ exists e fixed o, executions evs = [(p, Raise e); (fixed, o)] /\ valid W fixed = true)
  /\ (success r = true ->
        exists pre q rows, executions evs = pre ++ [(q, Ok rows)]
                           /\ query r = Some q /\ data r = Some rows)
  /\ (success r = false ->
        exists e rest, executions evs = (p, Raise e) :: rest
                       /\ r = get_mock_response (py "execution_error") (Some (JString e))).
Proof.
  intros [rows evs' r' Ha|e m evs' Hd|e fixed evs' e' Hd|e fixed evs' rows evs'' r' Hd Ha].
  - destruct (answer_events_report _ _ _ _ _ Ha) as (Hx & Hg & Hs & Hq & Hdata & _).
    assert (E : executions (EvExecute p (Ok rows) :: evs') = [(p, Ok rows)]).
    { change (executions ([EvExecute p (Ok rows)] ++ evs') = [(p, Ok rows)]).
      rewrite executions_app, Hx. reflexivity. }
    repeat split.
    + exact Hg.
    + left. eexists. exact E.
    + intros _. exists [], p, rows. repeat split; assumption.
    + intros H. congruence.
  - destruct (debug_events_quiet _ _ _ _ Hd) as [Hx Hg].
    assert (E : executions (EvExecute p (Raise e) :: evs') = [(p, Raise e)]).
    { change (executions ([EvExecute p (Raise e)] ++ evs') = [(p, Raise e)]).
      rewrite executions_app, Hx. reflexivity. }
    repeat split.
    + exact Hg.
    + left. eexists. exact E.
    + discriminate.
    + intros _. exists e, []. split; [exact E|reflexivity].
  - destruct (debug_events_quiet _ _ _ _ Hd) as [Hx Hg].
    inversion Hd as [cs Hcs Hvalid]. subst.
    assert (E : executions (EvExecute p (Raise e) :: (cs ++ [EvDebug p e (Fixed fixed)])
                            ++ [EvExecute fixed (Raise e')])
                = [(p, Raise e); (fixed, Raise e')]).
    { change (executions ([EvExecute p (Raise e)] ++ (cs ++ [EvDebug p e (Fixed fixed)])
                          ++ [EvExecute fixed (Raise e')]) = [(p, Raise e); (fixed, Raise e')]).
      rewrite !executions_app in *. rewrite Hx. reflexivity. }
    repeat split.
    + change (generations ([EvExecute p (Raise e)] ++ (cs ++ [EvDebug p e (Fixed fixed)])
                           ++ [EvExecute fixed (Raise e')]) = []).
      rewrite !generations_app in *. rewrite Hg. reflexivity.
    + right. exists e, fixed, (Raise e'). split; [exact E|exact (Hvalid _ eq_refl)].
    + discriminate.
    + intros _. exists e, [(fixed, Raise e')]. split; [exact E|reflexivity].
  - destruct (debug_events_quiet _ _ _ _ Hd) as [Hx Hg].
    destruct (answer_events_report _ _ _ _ _ Ha) as (Hx' & Hg' & Hs & Hq & Hdata & _).
    inversion Hd as [cs Hcs Hvalid]. subst.
    assert (E : executions (EvExecute p (Raise e) :: (cs ++ [EvDebug p e (Fixed fixed)])
                            ++ EvExecute fixed (Ok rows) :: evs'')
                = [(p, Raise e); (fixed, Ok rows)]).
    { change (executions ([EvExecute p (Raise e)] ++ (cs ++ [EvDebug p e (Fixed fixed)])
                          ++ [EvExecute fixed (Ok rows)] ++ evs'')
              = [(p, Raise e); (fixed, Ok rows)]).
      rewrite !executions_app in *. rewrite Hx, Hx'. reflexivity. }
    repeat split.
    + change (generations ([EvExecute p (Raise e)] ++ (cs ++ [EvDebug p e (Fixed fixed)])
                           ++ [EvExecute fixed (Ok rows)] ++ evs'') = []).
      rewrite !generations_app in *. rewrite Hg, Hg'. reflexivity.
    + right. exists e, fixed, (Ok rows). split; [exact E|exact (Hvalid _ eq_refl)].
    + intros _. exists [(p, Raise e)], fixed, rows. repeat split; assumption.
    + intros H. congruence.
Qed.

End ExecutionFacts.

Section RequestAnatomy.
Variable W : world.
Variable the_schema : schema_info.
Variable user_query : list N.

Lemma validate_reason_nonempty q : snd (SQLAgent.validate W q) <> [].
Proof.
  unfold SQLAgent.validate, validate_query.
  repeat split_match; cbn [snd]; discriminate.
Qed.

Lemma request_events_anatomy evs r :
  request_events W the_schema user_query evs r ->
  (exists m, generations evs = [(false, m)] /\ executions evs = []
             /\ r = get_mock_response (py "sql_generation_failed") (Some m))
  \/ (exists v, is_text v = false
                /\ generations evs = [(true, v)] /\ executions evs = []
                /\ r = get_mock_response (py "general_error")
                         (Some (JString (exception_text W ReSub v))))
  \/ (exists sql,
        generations evs = [(true, JString sql)]
        /\ length (executions evs) <= 3
        /\ (forall q o, In (q, o) (executions evs) ->
              valid W q = true \/ q = the_heuristic_text W sql the_schema)
        /\ (success r = true ->
              exists pre q rows, executions evs = pre ++ [(q, Ok rows)]
                                 /\ query r = Some q /\ data r = Some rows)
        /\ (success r = false ->
              (valid W (the_heuristic_text W sql the_schema) = false
               /\ (exists e, executions evs
                             = [(the_heuristic_text W sql the_schema, Raise e)])
               /\ r = get_mock_response (py "sql_validation_failed")
                        (Some (JString
                                 (snd (SQLAgent.validate W
                                         (the_heuristic_text W sql the_schema))))))
              \/ exists p e, In (p, Raise e) (executions evs)
                             /\ r = get_mock_response (py "execution_error")
                                      (Some (JString e)))).
Proof.
  intros [cs m Hcs|cs v Hcs Hv|cs sql evs' m Hcs Ha|cs sql evs' p evs'' r' Hcs Ha Hx];
    destruct (tool_completions_quiet cs Hcs) as [Hxc Hgc].
  - left. exists m. rewrite generations_app, executions_app, Hxc, Hgc. repeat split.
  - right. left. exists v. rewrite generations_app, executions_app, Hxc, Hgc. repeat split.
    exact Hv.
  - right. right. exists sql. cbv zeta in Ha. fold (the_heuristic_text W sql the_schema) in Ha.
    destruct (agent_events_executions _ _ _ _ _ Ha) as (Hg & Hxa & _ & Hfail).
    destruct (Hfail eq_refl) as (Hm & Hinv & e0 & Hraised). cbn [snd] in Hm. subst m.
    change (cs ++ EvGenerate user_query (true, JString sql) :: evs')
      with (cs ++ [EvGenerate user_query (true, JString sql)] ++ evs').
    rewrite !generations_app, !executions_app, Hxc, Hgc, Hg.
    cbn [app generations executions flat_map].
    repeat split.
    + destruct Hxa as [->|[o ->]]; cbn; lia.
    + intros q o Hin. right. destruct Hxa as [E|[o' E]]; rewrite E in Hin.
      * destruct Hin.
      * destruct Hin as [Hin|[]]. congruence.
    + discriminate.
    + intros _. left. split; [exact Hinv|]. split; [|reflexivity].
      exists e0. rewrite Hraised. reflexivity.
  - right. right. exists sql. cbv zeta in Ha. fold (the_heuristic_text W sql the_schema) in Ha.
    destruct (agent_events_executions _ _ _ _ _ Ha) as (Hg & Hxa & Hok & _).
    specialize (Hok eq_refl). cbn [snd] in Hok.
    destruct (execution_events_executions _ _ _ _ _ Hx) as (Hg' & Hxe & Hs & Hf).
    change (cs ++ EvGenerate user_query (true, JString sql) :: evs' ++ evs'')
      with (cs ++ [EvGenerate user_query (true, JString sql)] ++ evs' ++ evs'').
    rewrite !generations_app, !executions_app, Hxc, Hgc, Hg, Hg'.
    cbn [app generations executions flat_map].
    repeat split.
    + rewrite length_app.
      assert (length (executions evs') <= 1) by (destruct Hxa as [->|[o ->]]; cbn; lia).
      assert (length (executions evs'') <= 2)
        by (destruct Hxe as [[o ->]|(e & fixed & o & -> & _)]; cbn; lia).
      lia.
    + intros q o Hin. apply in_app_or in Hin. destruct Hin as [Hin|Hin].
      * right. destruct Hxa as [E|[o' E]]; rewrite E in Hin.
        -- destruct Hin.
        -- destruct Hin as [Hin|[]]. congruence.
      * assert (Hp : valid W p = true \/ p = the_heuristic_text W sql the_schema)
          by (destruct Hok as [->|Hv]; [right; reflexivity|left; exact Hv]).
        destruct Hxe as [[o' E]|(e & fixed & o' & E & Hv)]; rewrite E in Hin.
        -- destruct Hin as [Hin|[]]. injection Hin as <- _. exact Hp.
        -- destruct Hin as [Hin|[Hin|[]]].
           ++ injection Hin as <- _. exact Hp.
           ++ injection Hin as <- _. left. exact Hv.
    + intros H. destruct (Hs H) as (pre & q & rows & E & Hq & Hd).
      exists (executions evs' ++ pre), q, rows. rewrite E, app_assoc. repeat split; assumption.
    + intros H. right. destruct (Hf H) as (e & rest & E & ->).
      exists p, e. split; [|reflexivity].
      apply in_or_app. right. rewrite E. left. reflexivity.
Qed.

Lemma request_events_fields evs r :
  request_events W the_schema user_query evs r ->
  present (was_debugged r) = present (original_query r)
  /\ present (mock r) = negb (success r)
  /\ present (summary r) = success r
  /\ record_count r = match data r with
                      | Some (row :: rows) => Some (length (row :: rows))
                      | _ => None
                      end.
Proof.
  assert (Ha : forall sql original rows evs' r',
             answer_events user_query sql original rows evs' r' ->
             present (was_debugged r') = present (original_query r')
             /\ present (mock r') = negb (success r')
             /\ present (summary r') = success r'
             /\ record_count r' = match data r' with
                                  | Some (row :: rows) => Some (length (row :: rows))
                                  | _ => None
                                  end).
  { intros sql original rows evs' r' [|row rows' t evs'' H].
    - repeat split.
    - destruct original; repeat split. }
  intros [cs m Hcs|cs v Hcs Hv|cs sql evs' m Hcs Hag|cs sql evs' p evs'' r' Hcs Hag Hx].
  - repeat split.
  - repeat split.
  - repeat split.
  - destruct Hx as [rows evs0 r0 H|e m evs0 Hd|e fixed evs0 e' Hd|e fixed evs0 rows evs1 r0 Hd H].
    + exact (Ha _ _ _ _ _ H).
    + repeat split.
    + repeat split.
    + exact (Ha _ _ _ _ _ H).
Qed.

End RequestAnatomy.

Lemma default_message_truthy (error_type : list N) :
  truthy (default_message error_type) = true.
Proof.
  unfold default_message.
  assert (Hall : forallb (fun kv => truthy (snd kv)) error_responses = true)
    by (vm_compute; reflexivity).
  destruct (dict_get error_responses error_type) as [d|] eqn:E; [|reflexivity].
  revert E Hall. generalize error_responses.
  induction l as [|[k v] l IH]; [discriminate|].
  cbn [dict_get forallb snd]. intros E Hall.
  apply andb_true_iff in Hall. destruct Hall as [Hv Hall].
  destruct (str_eqb k error_type); [injection E as <-; exact Hv|exact (IH E Hall)].
Qed.

Lemma mock_message_truthy (error_type : list N) (custom : option json) :
  exists m, error (get_mock_response error_type custom)
            = Some {| error_type := error_type; error_message := m |}
            /\ json_truthy m = true
            /\ (forall c, custom = Some c -> json_truthy c = true -> m = c)
            /\ (forall c, custom = Some (JString c) -> exists text, m = JString text).
Proof.
  unfold get_mock_response. cbn [error]. eexists. split; [reflexivity|].
  pose proof (default_message_truthy error_type) as Hd.
  split; [|split].
  - destruct custom as [c|]; [destruct (json_truthy c) eqn:Hc|]; assumption.
  - intros c -> Hc. rewrite Hc. reflexivity.
  - intros c ->. cbn [json_truthy]. destruct (truthy c); eexists; reflexivity.
Qed.

Lemma mock_text_message (error_type text : list N) :
  exists m, error (get_mock_response error_type (Some (JString text)))
            = Some {| error_type := error_type; error_message := JString m |}
            /\ m <> [] /\ (text <> [] -> m = text).
Proof.
  unfold get_mock_response. cbn [error json_truthy].
  pose proof (default_message_truthy error_type) as Hd.
  destruct text as [|c x]; cbn [truthy]; eexists; (split; [reflexivity|]); split;
    try congruence; try discriminate.
  intros E. rewrite E in Hd. discriminate.
Qed.

(** X4.  A request calls generate_sql_query once, the completion API at
    most seven times (two for the generation, two for each of the two
    repairs, one for the summary) and the executor at most three
    times. *)
Theorem request_calls_are_bounded :
  forall (W : world) (the_schema : schema_info) (table_samples : list (list N * list row))
         (user_query : list N) (tr : trace),
    exists r evs,
      QueryService.process_query W the_schema table_samples user_query tr = (Ok r, tr ++ evs)
      /\ length (generations evs) = 1
      /\ completion_calls evs <= 7
      /\ length (executions evs) <= 3.
Proof.
  intros W the_schema table_samples user_query tr.
  destruct (process_query_run W the_schema table_samples user_query tr)
    as (evs & r & Hrun & Hev).
  destruct (process_query_calls W the_schema table_samples user_query tr)
    as (evs' & r' & Hrun' & Hcalls & _).
  assert (evs' = evs) by (rewrite Hrun in Hrun'; injection Hrun' as _ E;
                          exact (eq_sym (app_inv_head _ _ _ E))).
  subst evs'. exists r, evs. split; [exact Hrun|].
  destruct (request_events_anatomy _ _ _ _ _ Hev)
    as [(m & -> & -> & _)|[(v & _ & -> & -> & _)|(sql & -> & Hlen & _)]];
    repeat split; cbn; try lia; assumption.
Qed.

(** X5.  Every text that reaches the executor in a request was accepted
    by the validator, or is the generated query after the heuristics:
    a repaired query is never executed without having been validated. *)
Theorem executed_texts_are_valid_or_generated :
  forall (W : world) (the_schema : schema_info) (table_samples : list (list N * list row))
         (user_query : list N) (tr : trace),
    exists r evs,
      QueryService.process_query W the_schema table_samples user_query tr = (Ok r, tr ++ evs)
      /\ forall q o,
           In (q, o) (executions evs) ->
           valid W q = true
           \/ exists sql, generations evs = [(true, JString sql)]
                          /\ q = the_heuristic_text W sql the_schema.
Proof.
  intros W the_schema table_samples user_query tr.
  destruct (process_query_run W the_schema table_samples user_query tr)
    as (evs & r & Hrun & Hev).
  exists r, evs. split; [exact Hrun|].
  intros q o Hin.
  destruct (request_events_anatomy _ _ _ _ _ Hev)
    as [(m & _ & E & _)|[(v & _ & _ & E & _)|(sql & Hg & _ & Hx & _)]].
  - rewrite E in Hin. destruct Hin.
  - rewrite E in Hin. destruct Hin.
  - destruct (Hx q o Hin) as [Hv|Hq]; [left; exact Hv|right; exists sql; split; assumption].
Qed.

Lemma executed_texts_are_valid_or_generated_witness :
  exists r evs,
    QueryService.process_query typo_world users_schema [] (py "names") [] = (Ok r, [] ++ evs)
    /\ In (py "SELECT name FROM users", Ok [[(py "name", VStr (py "ann"))]]) (executions evs)
    /\ (valid typo_world (py "SELECT name FROM users") = true
        \/ exists sql, generations evs = [(true, JString sql)]
                       /\ py "SELECT name FROM users"
                          = the_heuristic_text typo_world sql users_schema).
Proof.
  destruct (executed_texts_are_valid_or_generated typo_world users_schema [] (py "names") [])
    as (r & evs & Hrun & H).
  exists r, evs. split; [exact Hrun|].
  assert (Hin : In (py "SELECT name FROM users", Ok [[(py "name", VStr (py "ann"))]])
                   (executions evs)).
  { vm_compute in Hrun. injection Hrun as _ <-. right. left. reflexivity. }
  split; [exact Hin|]. exact (H _ _ Hin).
Defined.

(** X6.  A response with success = true reports the last execution of
    the request: its query is the last text executed, that execution
    did not raise, and its data are the rows it returned. *)
Theorem success_reports_the_last_execution :
  forall (W : world) (the_schema : schema_info) (table_samples : list (list N * list row))
         (user_query : list N) (tr : trace),
    exists r evs,
      QueryService.process_query W the_schema table_samples user_query tr = (Ok r, tr ++ evs)
      /\ (success r = true ->
          exists earlier q rows,
            executions evs = earlier ++ [(q, Ok rows)]
            /\ query r = Some q /\ data r = Some rows).
Proof.
  intros W the_schema table_samples user_query tr.
  destruct (process_query_run W the_schema table_samples user_query tr)
    as (evs & r & Hrun & Hev).
  exists r, evs. split; [exact Hrun|].
  intros Hs.
  destruct (request_events_anatomy _ _ _ _ _ Hev)
    as [(m & _ & _ & ->)|[(v & _ & _ & _ & ->)|(sql & _ & _ & _ & H & _)]];
    [discriminate|discriminate|exact (H Hs)].
Qed.

Lemma success_reports_the_last_execution_witness :
  exists r evs,
    QueryService.process_query typo_world users_schema [] (py "names") [] = (Ok r, [] ++ evs)
    /\ success r = true
    /\ exists earlier q rows,
         executions evs = earlier ++ [(q, Ok rows)]
         /\ query r = Some q /\ data r = Some rows.
Proof.
  destruct (success_reports_the_last_execution typo_world users_schema [] (py "names") [])
    as (r & evs & Hrun & H).
  exists r, evs. split; [exact Hrun|].
  assert (Hs : success r = true) by (vm_compute in Hrun; injection Hrun as <- _; reflexivity).
  split; [exact Hs|exact (H Hs)].
Defined.

(** X7.  A response with success = false is one of four.  Generation
    failed: nothing was executed and the message is the value
    generate_sql_query returned, which counts as true.  Generation gave
    as the query a value that is not a str (a list): the agent raises
    on it, nothing is executed and the type is general_error, the
    message being the text of that exception when it has one; this is
    the only way to the general_error response.  The agent gave up: the
    generated query after the heuristics was rejected by the validator,
    executed once all the same, and raised; the message is the verdict
    of the validator on it, not what the repairer answered.  Or an
    execution of Steps 3 and 4 raised: the type is execution_error, and
    the message is the text of that error when it has one. *)
Theorem failures_are_classified :
  forall (W : world) (the_schema : schema_info) (table_samples : list (list N * list row))
         (user_query : list N) (tr : trace),
    exists r evs,
      QueryService.process_query W the_schema table_samples user_query tr = (Ok r, tr ++ evs)
      /\ (success r = false ->
          (exists m,
             generations evs = [(false, m)] /\ json_truthy m = true /\ executions evs = []
             /\ error r = Some {| error_type := py "sql_generation_failed";
                                  error_message := m |})
          \/ (exists v m,
                generations evs = [(true, v)] /\ is_text v = false /\ executions evs = []
                /\ error r = Some {| error_type := py "general_error";
                                     error_message := JString m |}
                /\ m <> []
                /\ (exception_text W ReSub v <> [] -> m = exception_text W ReSub v))
          \/ (exists sql e,
                generations evs = [(true, JString sql)]
                /\ valid W (the_heuristic_text W sql the_schema) = false
                /\ executions evs = [(the_heuristic_text W sql the_schema, Raise e)]
                /\ error r = Some {| error_type := py "sql_validation_failed";
                                     error_message :=
                                       JString (snd (SQLAgent.validate W
                                                       (the_heuristic_text W sql the_schema))) |})
          \/ (exists sql p e m,
                generations evs = [(true, JString sql)]
                /\ In (p, Raise e) (executions evs)
                /\ error r = Some {| error_type := py "execution_error";
                                     error_message := JString m |}
                /\ m <> [] /\ (e <> [] -> m = e))).
Proof.
  intros W the_schema table_samples user_query tr.
  destruct (process_query_run W the_schema table_samples user_query tr)
    as (evs & r & Hrun & Hev).
  destruct (process_query_calls W the_schema table_samples user_query tr)
    as (evs' & r' & Hrun' & _ & cs & g & rest & Hevs & Htool & Hne).
  assert (Hsame : evs = evs') by (rewrite Hrun in Hrun'; injection Hrun' as _ E;
                                  exact (app_inv_head _ _ _ E)).
  rewrite Hevs in Hsame. clear Hevs Hrun'. subst evs.
  exists r, (cs ++ EvGenerate user_query g :: rest). split; [exact Hrun|]. intros Hs.
  destruct (request_events_anatomy _ _ _ _ _ Hev)
    as [(m & Hg & Hx & ->)|[(v & Hv & Hg & Hx & ->)|(sql & Hg & _ & _ & _ & H)]].
  - left. exists m. split; [exact Hg|].
    assert (Hm : json_truthy m = true).
    { change (cs ++ EvGenerate user_query g :: rest)
        with (cs ++ [EvGenerate user_query g] ++ rest) in Hg.
      rewrite !generations_app, (proj2 (tool_completions_quiet cs Htool)) in Hg.
      cbn [generations flat_map app] in Hg. injection Hg as -> _. exact Hne. }
    split; [exact Hm|]. split; [exact Hx|].
    unfold get_mock_response. cbn [error]. rewrite Hm. reflexivity.
  - right. left.
    destruct (mock_text_message (py "general_error") (exception_text W ReSub v))
      as (m & Hm & Hmne & Hc).
    exists v, m. repeat split; assumption.
  - right. right. destruct (H Hs) as [(Hv & (e & Hx) & ->)|(p & e & Hin & ->)].
    + left. exists sql, e. split; [exact Hg|]. split; [exact Hv|]. split; [exact Hx|].
      pose proof (validate_reason_truthy W (the_heuristic_text W sql the_schema)) as Hr.
      unfold get_mock_response. cbn [error json_truthy]. rewrite Hr. reflexivity.
    + right.
      destruct (mock_text_message (py "execution_error") e) as (m & Hm & Hmne & Hc).
      exists sql, p, e, m. repeat split; assumption.
Qed.

Lemma failures_are_classified_witness :
  exists r evs,
    QueryService.process_query failing_world users_schema [] (py "all users") []
    = (Ok r, [] ++ evs)
    /\ success r = false
    /\ error r = Some {| error_type := py "execution_error";
                         error_message := JString (py "relation does not exist") |}.
Proof.
  destruct (failures_are_classified failing_world users_schema [] (py "all users") [])
    as (r & evs & Hrun & H).
  exists r, evs. split; [exact Hrun|].
  assert (Hs : success r = false) by (vm_compute in Hrun; injection Hrun as <- _; reflexivity).
  split; [exact Hs|].
  destruct (H Hs) as [(m & _ & _ & _ & Herr)|[(v & m & _ & _ & _ & Herr & _)
                     |[(sql & e & _ & _ & _ & Herr)|(sql & p & e & m & _ & Hin & Herr & Hm & Hem)]]].
  - exfalso. vm_compute in Hrun. injection Hrun as <- _. discriminate Herr.
  - exfalso. vm_compute in Hrun. injection Hrun as <- _. discriminate Herr.
  - exfalso. vm_compute in Hrun. injection Hrun as <- _. discriminate Herr.
  - vm_compute in Hrun. injection Hrun as <- _. reflexivity.
Defined.

(** X8.  The optional fields of a response agree: was_debugged is there
    exactly when original_query is; mock exactly on failure; summary
    exactly on success; record_count exactly when data holds at least
    one row, and then it is their number (the empty-results response
    has no record_count). *)
Theorem response_fields_agree :
  forall (W : world) (the_schema : schema_info) (table_samples : list (list N * list row))
         (user_query : list N) (tr : trace),
    exists r evs,
      QueryService.process_query W the_schema table_samples user_query tr = (Ok r, tr ++ evs)
      /\ present (was_debugged r) = present (original_query r)
      /\ present (mock r) = negb (success r)
      /\ present (summary r) = success r
      /\ record_count r = match data r with
                          | Some (row :: rows) => Some (length (row :: rows))
                          | _ => None
                          end.
Proof.
  intros W the_schema table_samples user_query tr.
  destruct (process_query_run W the_schema table_samples user_query tr)
    as (evs & r & Hrun & Hev).
  exists r, evs. split; [exact Hrun|].
  exact (request_events_fields _ _ _ _ _ Hev).
Qed.

(** ** The calls of the services one by one *)

(** X9.  generate_sql_query never raises and never returns a value
    that counts as false, be it a query or a message.  Its completion
    calls are: none; or one, to the configured model, which returned or
    is gpt-4 itself; or two with the same messages, the first to the
    configured model, which raised, the second to gpt-4.  So gpt-4 is
    asked as a fallback only after the first call raised, and then
    always. *)
Theorem generate_sql_query_falls_back_once :
  forall (W : world) (the_schema : schema_info) (table_samples : list (list N * list row))
         (user_query : list N) (tr : trace),
    exists cs r,
      LLMService.generate_sql_query W user_query the_schema table_samples tr
      = (Ok r, tr ++ cs ++ [EvGenerate user_query r])
      /\ json_truthy (snd r) = true
      /\ (cs = []
          \/ (exists messages outcome,
                cs = [EvCompletion (LLM_MODEL W) messages (Some (py "generate_sql_query"))
                        outcome]
                /\ (forall e, outcome = Raise e ->
                      str_eqb (LLM_MODEL W) (py "gpt-4") = true))
          \/ (exists messages e outcome,
                cs = [EvCompletion (LLM_MODEL W) messages (Some (py "generate_sql_query"))
                        (Raise e);
                      EvCompletion (py "gpt-4") messages (Some (py "generate_sql_query"))
                        outcome]
                /\ str_eqb (LLM_MODEL W) (py "gpt-4") = false))
      /\ models cs = firstn (length cs) [LLM_MODEL W; py "gpt-4"]
      /\ length cs <= (if str_eqb (LLM_MODEL W) (py "gpt-4") then 1 else 2).
Proof.
  intros W the_schema table_samples user_query tr.
  destruct (generate_sql_query_calls W the_schema table_samples user_query tr)
    as (cs & r & Hrun & Hfall & Hne).
  exists cs, r. split; [exact Hrun|]. split; [exact Hne|]. split; [exact Hfall|].
  destruct (fallback_calls_facts _ _ _ _ Hfall) as (_ & Hlen & Hone & Hmodels).
  split; [exact Hmodels|].
  destruct (str_eqb (LLM_MODEL W) (py "gpt-4")); [exact (Hone eq_refl)|exact Hlen].
Qed.

(** X10.  debug_query never raises and never returns a value that
    counts as false.  When it reports success the query it returns has
    been accepted by the validator.  Its completion calls are: none; or
    one, to the configured model, which returned or is gpt-3.5-turbo
    itself; or two with the same messages, the first to the configured
    model, which raised, the second to gpt-3.5-turbo. *)
Theorem debug_query_success_is_validated :
  forall (W : world) (s : schema_info) (query error_message : list N) (tr : trace),
    exists cs r,
      SQLAgent.debug_query W query s error_message tr
      = (Ok r, tr ++ cs ++ [EvDebug query error_message r])
      /\ repair_truthy r = true
      /\ (forall fixed, r = Fixed fixed -> valid W fixed = true)
      /\ (cs = []
          \/ (exists messages outcome,
                cs = [EvCompletion (LLM_MODEL W) messages (Some (py "fix_sql_query")) outcome]
                /\ (forall e, outcome = Raise e ->
                      str_eqb (LLM_MODEL W) (py "gpt-3.5-turbo") = true))
          \/ (exists messages e outcome,
                cs = [EvCompletion (LLM_MODEL W) messages (Some (py "fix_sql_query"))
                        (Raise e);
                      EvCompletion (py "gpt-3.5-turbo") messages (Some (py "fix_sql_query"))
                        outcome]
                /\ str_eqb (LLM_MODEL W) (py "gpt-3.5-turbo") = false))
      /\ models cs = firstn (length cs) [LLM_MODEL W; py "gpt-3.5-turbo"]
      /\ length cs <= (if str_eqb (LLM_MODEL W) (py "gpt-3.5-turbo") then 1 else 2).
Proof.
  intros W s query error_message tr.
  destruct (debug_query_calls W query s error_message tr)
    as (cs & r & Hrun & Hfall & Hne & Hvalid).
  exists cs, r. split; [exact Hrun|]. split; [exact Hne|]. split; [exact Hvalid|].
  split; [exact Hfall|].
  destruct (fallback_calls_facts _ _ _ _ Hfall) as (_ & Hlen & Hone & Hmodels).
  split; [exact Hmodels|].
  destruct (str_eqb (LLM_MODEL W) (py "gpt-3.5-turbo")); [exact (Hone eq_refl)|exact Hlen].
Qed.

Lemma debug_query_success_is_validated_witness :
  exists cs r,
    SQLAgent.debug_query typo_world (py "SELECT nam FROM users") users_schema
      (py "column nam does not exist") []
    = (Ok r, [] ++ cs ++ [EvDebug (py "SELECT nam FROM users") (py "column nam does not exist") r])
    /\ r = Fixed (py "SELECT name FROM users")
    /\ valid typo_world (py "SELECT name FROM users") = true.
Proof.
  destruct (debug_query_success_is_validated typo_world users_schema
              (py "SELECT nam FROM users") (py "column nam does not exist") [])
    as (cs & r & Hrun & _ & Hvalid & _).
  exists cs, r. split; [exact Hrun|].
  assert (Hok : r = Fixed (py "SELECT name FROM users")).
  { vm_compute in Hrun. injection Hrun as <- _. reflexivity. }
  split; [exact Hok|exact (Hvalid _ Hok)].
Defined.

Section Markdown.
Variable W : world.


Lemma existsb_str_eqb_In k cols : existsb (str_eqb k) cols = true <-> In k cols.
Proof.
  rewrite existsb_exists. split.
  - intros (x & Hin & Hx). apply str_eqb_eq in Hx. subst. exact Hin.
  - intros Hin. exists k. split; [exact Hin|]. apply str_eqb_eq. reflexivity.
Qed.

Lemma add_columns_spec (r : row) :
  forall cols,
    NoDup cols ->
    NoDup (LLMService.add_columns cols r)
    /\ (forall k, In k (LLMService.add_columns cols r) <-> In k cols \/ In k (map fst r))
    /\ exists more, LLMService.add_columns cols r = cols ++ more.
Proof.
  unfold LLMService.add_columns.
  induction r as [|[k v] r IH]; intros cols Hnd; cbn [fold_left map fst].
  - split; [exact Hnd|]. split; [|exists []; rewrite app_nil_r; reflexivity].
    intros k. cbn. tauto.
  - destruct (existsb (str_eqb k) cols) eqn:E.
    + destruct (IH cols Hnd) as (H1 & H2 & H3). split; [exact H1|]. split; [|exact H3].
      intros k'. rewrite H2. apply existsb_str_eqb_In in E. cbn [In].
      split; [tauto|]. intros [H|[<-|H]]; tauto.
    + assert (Hnot : ~ In k cols).
      { intros Hin. apply existsb_str_eqb_In in Hin. congruence. }
      assert (Hnd' : NoDup (cols ++ [k])).
      { apply NoDup_app; [exact Hnd|repeat constructor; intros []|].
        intros x Hx [<-|[]]. exact (Hnot Hx). }
      destruct (IH (cols ++ [k]) Hnd') as (H1 & H2 & more & H3).
      split; [exact H1|]. split.
      * intros k'. rewrite H2, in_app_iff. cbn [In]. tauto.
      * exists (k :: more). rewrite H3, <- app_assoc. reflexivity.
Qed.

Lemma header_columns_spec (rows : list row) :
  forall cols,
    NoDup cols ->
    NoDup (fold_left LLMService.add_columns rows cols)
    /\ (forall k, In k (fold_left LLMService.add_columns rows cols)
                  <-> In k cols \/ exists r, In r rows /\ In k (map fst r)).
Proof.
  induction rows as [|r rows IH]; intros cols Hnd; cbn [fold_left].
  - split; [exact Hnd|]. intros k. split; [tauto|]. intros [H|(r & [] & _)]. exact H.
  - destruct (add_columns_spec r cols Hnd) as (H1 & H2 & _).
    destruct (IH _ H1) as (H3 & H4). split; [exact H3|].
    intros k. rewrite H4, H2. cbn [In]. split.
    + intros [[H|H]|(r' & Hr' & Hk)].
      * left. exact H.
      * right. exists r. split; [left; reflexivity|exact H].
      * right. exists r'. split; [right; exact Hr'|exact Hk].
    + intros [H|(r' & [<-|Hr'] & Hk)].
      * left. left. exact H.
      * left. right. exact Hk.
      * right. exists r'. split; assumption.
Qed.



Lemma map_result_length {A B} (f : A -> result B) (l : list A) :
  forall bs, LLMService.map_result f l = Ok bs -> length bs = length l.
Proof.
  induction l as [|a l IH]; intros bs H; cbn [LLMService.map_result] in H.
  - injection H as <-. reflexivity.
  - destruct (f a) as [b|e]; [|discriminate].
    destruct (LLMService.map_result f l) as [bs'|e]; [|discriminate].
    injection H as <-. cbn [length]. rewrite (IH bs' eq_refl). reflexivity.
Qed.


End Markdown.



(** X12.  The columns of the table are the column names of the
    displayed rows, and only those, each once, in the order they are
    first seen.  When the formatting succeeds on rows that have a
    column, the table is the header line made of these columns, the
    separator line with one --- per column, and one line per displayed
    row; when the displayed rows have no column at all, no table is
    made. *)
Theorem markdown_header_lists_each_column_once :
  forall (W : world) (results : list row) (max_rows : nat),
    let md := LLMService.format_results_to_markdown W results max_rows in
    let columns := header_columns results max_rows in
    NoDup columns
    /\ (forall k, In k columns
                  <-> exists r, In r (firstn max_rows results) /\ In k (map fst r))
    /\ (results <> [] -> columns <> [] -> LLMService.markdown_error md = None ->
        exists lines,
          LLMService.markdown_results md
          = py "| " ++ join (py " | ") columns ++ py " |" ++ nl
            ++ py "| " ++ join (py " | ") (map (fun _ => py "---") columns) ++ py " |" ++ nl
            ++ concat lines
          /\ LLMService.map_result (LLMService.format_row W columns) (firstn max_rows results)
             = Ok lines
          /\ length lines = LLMService.displayed_rows md)
    /\ (results <> [] -> columns = [] ->
        LLMService.markdown_results md = py "Results structure could not be determined"
        /\ LLMService.displayed_rows md = 0).
Proof.
  intros W results max_rows. cbv zeta. unfold header_columns.
  destruct (header_columns_spec (firstn max_rows results) [] (NoDup_nil _)) as [H1 H2].
  split; [exact H1|]. split; [intros k; rewrite H2; cbn [In]; tauto|].
  unfold LLMService.format_results_to_markdown.
  destruct results as [|row0 rows]; [split; intros H; congruence|].
  cbn [length]. set (results := row0 :: rows).
  destruct (fold_left LLMService.add_columns (firstn max_rows results) []) as [|c cols] eqn:E.
  - split; [intros _ H; congruence|]. intros _ _. split; reflexivity.
  - split; [|intros _ H; discriminate H]. intros _ _.
    destruct (LLMService.map_result (LLMService.format_row W (c :: cols))
                (firstn max_rows results)) as [lines|e] eqn:El;
      cbn [LLMService.markdown_results LLMService.displayed_rows LLMService.markdown_error];
      [|discriminate].
    intros _. exists lines. split; [|split; [reflexivity|]].
    + rewrite <- !app_assoc. reflexivity.
    + exact (map_result_length _ _ _ El).
Qed.

Lemma markdown_header_lists_each_column_once_witness :
  LLMService.markdown_results
    (LLMService.format_results_to_markdown typo_world
       [[(py "name", VStr (py "ann")); (py "age", VNone)]; [(py "city", VStr (py "x|y"))]] 10)
  = py "| name | age | city |" ++ nl
    ++ py "| --- | --- | --- |" ++ nl
    ++ py "| ann |  |  |" ++ nl
    ++ py "|  |  | `x|y` |" ++ nl.
Proof.
  destruct (proj1 (proj2 (proj2 (markdown_header_lists_each_column_once typo_world
              [[(py "name", VStr (py "ann")); (py "age", VNone)]; [(py "city", VStr (py "x|y"))]]
              10))) ltac:(discriminate) ltac:(discriminate) eq_refl)
    as (lines & Hmd & Hlines & _).
  rewrite Hmd. vm_compute in Hlines. injection Hlines as <-. reflexivity.
Defined.

(** On an empty result summarize_query_results makes no
    completion call: it returns the fixed sentence, or the fallback
    sentence when the client cannot be initialized. *)
Theorem summarize_nothing_makes_no_call :
  forall (W : world) (user_query sql : list N) (max_rows : nat) (tr : trace),
    let t := match get_or_initialize_client W TheLLMService tr with
             | Ok _ => py "The query returned no results."
             | Raise _ => fallback_sentence
             end in
    LLMService.summarize_query_results W user_query sql [] max_rows tr
    = (Ok t, tr ++ [EvSummarize user_query sql t]).
Proof.
  intros W user_query sql max_rows tr. cbv zeta.
  unfold LLMService.summarize_query_results, LLMService.summarization_fallback. run_monad.
  destruct (get_or_initialize_client W TheLLMService tr); reflexivity.
Qed.

(** ** The API key, the client and the prompts of a service *)

Section KeyFacts.
Variable O : outside.

Lemma resolve_reads (which : service) (st st' : service_state) :
  customer_id st = customer_id st' -> _initial_api_key st = _initial_api_key st' ->
  _resolve_api_key O which st = _resolve_api_key O which st'.
Proof.
  intros Hc Hi. unfold _resolve_api_key, customer_key. rewrite Hc, Hi. reflexivity.
Qed.

End KeyFacts.

Lemma get_credentials_found (S : store) (cid : list N) (customer : document) :
  get_credentials S cid = Some customer
  <-> find_credentials S cid = Ok (Some customer) /\ customer <> []
      /\ key_check_raises customer = false.
Proof.
  unfold get_credentials, found. split.
  - destruct (find_credentials S cid) as [[[|kv d]|]|e]; try discriminate.
    destruct (key_check_raises (kv :: d)) eqn:E; [discriminate|].
    intros H. injection H as <-. repeat split; [discriminate|exact E].
  - intros (-> & Hne & Hk). destruct customer as [|kv d]; [congruence|].
    rewrite Hk. reflexivity.
Qed.

(** X13.  A key _resolve_api_key returns is not empty and has no blank
    at either end; it is the key of the customer, stripped, when
    get_credentials knows the customer and the customer has a key that
    is truthy, and the initial key, stripped, otherwise.  The key of
    the customer is used exactly when the store has a document for the
    customer whose openai_api_key is a str that is not empty; a stored
    key that is truthy and has no method strip (a number, a list, a
    nested document) makes get_credentials answer None, so that the
    initial key is used as if the customer were unknown. *)
Theorem resolved_key_is_trimmed :
  forall (O : outside) (which : service) (st : service_state) (k : list N),
    _resolve_api_key O which st = Ok k ->
    k <> []
    /\ (forall d, hd_error k = Some d \/ hd_error (rev k) = Some d ->
                  isspace (chars O) d = false)
    /\ (exists raw,
          k = strip (chars O) raw
          /\ (customer_key O st = Some (PStr raw)
              \/ (customer_key O st = None /\ _initial_api_key st = Some raw)))
    /\ (forall raw,
          customer_key O st = Some (PStr raw)
          <-> exists c cid customer,
                customer_id st = Some (c :: cid)
                /\ find_credentials (mongo O) (c :: cid) = Ok (Some customer)
                /\ dict_get customer (py "openai_api_key") = Some (PStr raw)
                /\ raw <> [])
    /\ (forall c cid customer v,
          customer_id st = Some (c :: cid) ->
          find_credentials (mongo O) (c :: cid) = Ok (Some customer) ->
          dict_get customer (py "openai_api_key") = Some v ->
          truth v = true -> has_strip v = false ->
          get_credentials (mongo O) (c :: cid) = None
          /\ exists raw, _initial_api_key st = Some raw /\ k = strip (chars O) raw).
Proof.
  intros O which st k Hk.
  assert (Hmain :
    k <> []
    /\ (forall d, hd_error k = Some d \/ hd_error (rev k) = Some d ->
                  isspace (chars O) d = false)
    /\ (exists raw,
          k = strip (chars O) raw
          /\ (customer_key O st = Some (PStr raw)
              \/ (customer_key O st = None /\ _initial_api_key st = Some raw)))).
  { revert Hk. unfold _resolve_api_key.
    assert (Hraw : forall raw, match strip (chars O) raw with
                               | [] => Raise (key_required which)
                               | c :: k' => Ok (c :: k')
                               end = Ok k ->
                               k <> [] /\ k = strip (chars O) raw).
    { intros raw H. destruct (strip (chars O) raw); [discriminate|].
      injection H as <-. split; [discriminate|reflexivity]. }
    destruct (customer_key O st) as [v|] eqn:Hc.
    - destruct (negb (truth v)); [discriminate|].
      destruct v as [|raw|d|b'|tag b]; try discriminate.
      intros H. destruct (Hraw raw H) as [Hne ->].
      split; [exact Hne|]. split; [intros d; apply strip_ends|].
      exists raw. split; [reflexivity|left; reflexivity].
    - destruct (_initial_api_key st) as [raw|]; [|discriminate].
      destruct (negb (truth (PStr raw))); [discriminate|].
      intros H. destruct (Hraw raw H) as [Hne ->].
      split; [exact Hne|]. split; [intros d; apply strip_ends|].
      exists raw. split; [reflexivity|right; split; reflexivity]. }
  destruct Hmain as (H1 & H2 & H3).
  split; [exact H1|]. split; [exact H2|]. split; [exact H3|]. split.
  - intros raw. unfold customer_key. split.
    + destruct (customer_id st) as [[|c cid]|]; try discriminate.
      destruct (get_credentials (mongo O) (c :: cid)) as [customer|] eqn:Hg; [|discriminate].
      apply get_credentials_found in Hg. destruct Hg as (Hf & _ & _).
      destruct (dict_get customer (py "openai_api_key")) as [v|] eqn:Hv; [|discriminate].
      destruct (truth v) eqn:Ht; [|discriminate].
      intros H. injection H as ->. exists c, cid, customer.
      repeat split; try assumption. intros ->. discriminate Ht.
    + intros (c & cid & customer & -> & Hf & Hv & Hne).
      assert (Hg : get_credentials (mongo O) (c :: cid) = Some customer).
      { apply get_credentials_found. split; [exact Hf|]. split.
        - intros ->. discriminate Hv.
        - unfold key_check_raises. rewrite Hv. cbn [has_strip negb]. apply andb_false_r. }
      rewrite Hg, Hv. cbn [truth]. destruct raw; [congruence|reflexivity].
  - intros c cid customer v Hid Hf Hv Ht Hs.
    assert (Hg : get_credentials (mongo O) (c :: cid) = None).
    { unfold get_credentials, found. rewrite Hf.
      destruct customer as [|kv d]; [reflexivity|].
      unfold key_check_raises. rewrite Hv, Ht, Hs. reflexivity. }
    split; [exact Hg|].
    destruct H3 as (raw & -> & [Hc|[Hc Hi]]).
    + exfalso. unfold customer_key in Hc. rewrite Hid, Hg in Hc. discriminate.
    + exists raw. split; [exact Hi|reflexivity].
Qed.

Lemma resolved_key_is_trimmed_witness :
  _resolve_api_key DemoStore.demo_outside TheLLMService (DemoStore.fresh (Some (py "acme")))
  = Ok (py "sk-acme")
  /\ py "sk-acme" <> [].
Proof.
  split; [reflexivity|].
  exact (proj1 (resolved_key_is_trimmed DemoStore.demo_outside TheLLMService
                  (DemoStore.fresh (Some (py "acme"))) (py "sk-acme") eq_refl)).
Defined.

(** X14.  A key of the customer that holds only blanks is truthy, so it
    keeps the initial key from being used, and blank, so it is refused:
    _resolve_api_key raises whatever the initial key is, and
    _get_or_initialize_client with it, leaving the state as it was and
    constructing no client. *)
Theorem blank_customer_key_blocks_the_fallback :
  forall (O : outside) (which : service) (st : service_state) (raw : list N),
    customer_key O st = Some (PStr raw) ->
    strip (chars O) raw = [] ->
    _resolve_api_key O which st = Raise (key_required which)
    /\ _get_or_initialize_client O which st = (Raise (key_required which), st, []).
Proof.
  intros O which st raw Hc Hs.
  assert (H : _resolve_api_key O which st = Raise (key_required which)).
  { unfold _resolve_api_key. rewrite Hc.
    destruct (negb (truth (PStr raw))); [reflexivity|]. rewrite Hs. reflexivity. }
  split; [exact H|]. unfold _get_or_initialize_client. rewrite H. reflexivity.
Qed.


Lemma build_facts (O : outside) (which : service) (st : service_state) (k : list N) :
  client st = None \/ same_key (current_api_key_in_use st) k = false ->
  let '(r, st', made) :=
    match OpenAI O k with
    | Ok c =>
        (Ok c,
         {| customer_id := customer_id st; _initial_api_key := _initial_api_key st;
            api_key := api_key st; client := Some c; current_api_key_in_use := Some k |},
         [k])
    | Raise e =>
        (Raise (match which with
                | TheLLMService => py "Failed to initialize OpenAI client: " ++ e
                | TheSQLAgent => e
                end),
         {| customer_id := customer_id st; _initial_api_key := _initial_api_key st;
            api_key := api_key st; client := None; current_api_key_in_use := None |},
         [k])
    end in
  customer_id st' = customer_id st
  /\ _initial_api_key st' = _initial_api_key st
  /\ length made <= 1
  /\ (present (client st) = present (current_api_key_in_use st) ->
      present (client st') = present (current_api_key_in_use st'))
  /\ (forall c, r = Ok c ->
        client st' = Some c
        /\ exists k0, Ok k = Ok k0
                      /\ current_api_key_in_use st' = Some k0
                      /\ (made = [] \/ made = [k0]))
  /\ (forall c k0, client st = Some c -> current_api_key_in_use st = Some k0 ->
        Ok k = Ok k0 ->
        r = Ok c /\ st' = st /\ made = []).
Proof.
  intros Hnew.
  assert (Hno : forall c k0, client st = Some c -> current_api_key_in_use st = Some k0 ->
                             @Ok (list N) k = Ok k0 -> False).
  { intros c k0 H1 H2 H3. injection H3 as <-.
    destruct Hnew as [Hn|Hn]; [congruence|].
    rewrite H2 in Hn. cbn in Hn. rewrite str_eqb_refl in Hn. discriminate. }
  destruct (OpenAI O k) as [c'|e];
    refine (conj eq_refl (conj eq_refl (conj (le_n 1) (conj (fun _ => eq_refl) (conj _ _))))).
  - intros c H. injection H as <-. split; [reflexivity|].
    exists k. repeat split. right. reflexivity.
  - intros c k0 H1 H2 H3. exfalso. exact (Hno c k0 H1 H2 H3).
  - discriminate.
  - intros c k0 H1 H2 H3. exfalso. exact (Hno c k0 H1 H2 H3).
Qed.

(** X15.  _get_or_initialize_client constructs at most one client and
    keeps the link between the client and the key it was made with:
    both are set or both are None afterwards, if they were so before.
    When it returns a client, that is the stored one and the stored key
    is the resolved one.  When the stored client was made with the key
    that is resolved now, it is returned as it is and nothing is
    constructed. *)
Theorem client_is_rebuilt_only_for_a_new_key :
  forall (O : outside) (which : service) (st : service_state),
    let '(r, st', made) := _get_or_initialize_client O which st in
    customer_id st' = customer_id st
    /\ _initial_api_key st' = _initial_api_key st
    /\ length made <= 1
    /\ (present (client st) = present (current_api_key_in_use st) ->
        present (client st') = present (current_api_key_in_use st'))
    /\ (forall c, r = Ok c ->
          client st' = Some c
          /\ exists k, _resolve_api_key O which st = Ok k
                       /\ current_api_key_in_use st' = Some k
                       /\ (made = [] \/ made = [k]))
    /\ (forall c k, client st = Some c -> current_api_key_in_use st = Some k ->
          _resolve_api_key O which st = Ok k ->
          r = Ok c /\ st' = st /\ made = []).
Proof.
  intros O which st. unfold _get_or_initialize_client.
  destruct (_resolve_api_key O which st) as [k|e] eqn:Hk.
  - pose proof (build_facts O which st k) as Hbuild.
    destruct (client st) as [c|] eqn:Hc; [|apply Hbuild; left; reflexivity].
    destruct (same_key (current_api_key_in_use st) k) eqn:Hs; [|apply Hbuild; right; reflexivity].
    clear Hbuild.
    assert (Hcur : current_api_key_in_use st = Some k).
    { unfold same_key in Hs. destruct (current_api_key_in_use st) as [k'|]; [|discriminate].
      apply str_eqb_eq in Hs. congruence. }
    split; [reflexivity|]. split; [reflexivity|]. split; [cbn; lia|].
    split; [rewrite Hc; tauto|]. split.
    + intros c' H. injection H as <-. split; [exact Hc|].
      exists k. repeat split; [exact Hcur|left; reflexivity].
    + intros c' k0 H1 H2 H3. injection H1 as <-. repeat split.
  - split; [reflexivity|]. split; [reflexivity|]. split; [cbn; lia|].
    split; [tauto|]. split; discriminate.
Qed.

Lemma blank_customer_key_blocks_the_fallback_witness :
  customer_key DemoStore.demo_outside (DemoStore.fresh (Some (py "void")))
  = Some (PStr (py "   "))
  /\ _initial_api_key (DemoStore.fresh (Some (py "void"))) = Some (py "sk-global")
  /\ _resolve_api_key DemoStore.demo_outside TheLLMService (DemoStore.fresh (Some (py "void")))
     = Raise (py "OpenAI API key is required.").
Proof.
  split; [reflexivity|]. split; [reflexivity|].
  exact (proj1 (blank_customer_key_blocks_the_fallback DemoStore.demo_outside TheLLMService
                  (DemoStore.fresh (Some (py "void"))) (py "   ") eq_refl eq_refl)).
Defined.

Lemma client_is_rebuilt_only_for_a_new_key_witness :
  let st := {| customer_id := Some (py "acme"); _initial_api_key := Some (py "sk-global");
               api_key := None; client := Some 1%N;
               current_api_key_in_use := Some (py "sk-acme") |} in
  _resolve_api_key DemoStore.demo_outside TheSQLAgent st = Ok (py "sk-acme")
  /\ _get_or_initialize_client DemoStore.demo_outside TheSQLAgent st = (Ok 1%N, st, []).
Proof.
  intros st. split; [reflexivity|].
  pose proof (client_is_rebuilt_only_for_a_new_key DemoStore.demo_outside TheSQLAgent st) as H.
  destruct (_get_or_initialize_client DemoStore.demo_outside TheSQLAgent st) as [[r st'] made].
  destruct H as (_ & _ & _ & _ & _ & H).
  destruct (H 1%N (py "sk-acme") eq_refl eq_refl eq_refl) as (-> & -> & ->).
  reflexivity.
Defined.

(** X16.  The API key QueryService.process_query is given is stored in
    an attribute that is never read: after lines 54 to 60 the key that
    is resolved, the outcome of _get_or_initialize_client, the keys the
    constructor is called with and the client kept do not depend on
    it. *)
Theorem request_key_is_not_consulted :
  forall (O : outside) (which : service) (new_id key key' : option (list N))
         (st : service_state),
    let a := _get_or_initialize_client O which (prepare new_id key st) in
    let b := _get_or_initialize_client O which (prepare new_id key' st) in
    fst (fst a) = fst (fst b)
    /\ snd a = snd b
    /\ client (snd (fst a)) = client (snd (fst b))
    /\ current_api_key_in_use (snd (fst a)) = current_api_key_in_use (snd (fst b))
    /\ _resolve_api_key O which (prepare new_id key st)
       = _resolve_api_key O which (set_customer_id new_id st).
Proof.
  intros O which new_id key key' st. cbv zeta.
  assert (Hp : forall k,
             customer_id (prepare new_id k st) = customer_id (set_customer_id new_id st)
             /\ _initial_api_key (prepare new_id k st) = _initial_api_key (set_customer_id new_id st)
             /\ client (prepare new_id k st) = client (set_customer_id new_id st)
             /\ current_api_key_in_use (prepare new_id k st)
                = current_api_key_in_use (set_customer_id new_id st)).
  { intros [[|c k]|]; repeat split. }
  assert (Hg : forall k,
             let x := _get_or_initialize_client O which (prepare new_id k st) in
             let y := _get_or_initialize_client O which (set_customer_id new_id st) in
             fst (fst x) = fst (fst y) /\ snd x = snd y
             /\ client (snd (fst x)) = client (snd (fst y))
             /\ current_api_key_in_use (snd (fst x)) = current_api_key_in_use (snd (fst y))).
  { intros k. cbv zeta. destruct (Hp k) as (H1 & H2 & H3 & H4).
    unfold _get_or_initialize_client.
    rewrite (resolve_reads O which _ _ H1 H2), H3, H4.
    destruct (_resolve_api_key O which (set_customer_id new_id st)) as [r|e];
      [|repeat split; cbn [fst snd]; assumption].
    destruct (client (set_customer_id new_id st)) eqn:Hcl;
      [destruct (same_key _ r); [repeat split; cbn [fst snd]; congruence|]|];
      destruct (OpenAI O r); repeat split. }
  destruct (Hg key) as (A1 & A2 & A3 & A4). destruct (Hg key') as (B1 & B2 & B3 & B4).
  destruct (Hp key) as (H1 & H2 & _).
  repeat split; try congruence.
  apply resolve_reads; assumption.
Qed.

Section PromptFacts.
Variable O : outside.

Lemma lookup_prompt_truthy (prompt_id default : list N) (st : service_state) (v : pyval) :
  default <> [] -> lookup_prompt O prompt_id default st = Ok v -> truth v = true.
Proof.
  intros Hd.
  assert (H : forall p, truth (or_stored_prompt O prompt_id default st p) = true).
  { intros p. unfold or_stored_prompt. destruct (truth p) eqn:Hp; cbn [negb].
    - rewrite Hp. exact Hp.
    - destruct (truth (get_prompt (mongo O) prompt_id (customer_id st))) eqn:Hg; cbn [negb].
      + exact Hg.
      + destruct default; [congruence|reflexivity]. }
  unfold lookup_prompt.
  destruct (customer_id st) as [[|c cid]|].
  - intros E. injection E as <-. apply H.
  - destruct (get_customer_prompt_settings (mongo O) (c :: cid)); try discriminate.
    intros E. injection E as <-. apply H.
  - intros E. injection E as <-. apply H.
Qed.

End PromptFacts.

(** X17.  The lookup of a prompt, for a default that is not empty,
    never gives a falsy value.  A truthy entry of the customer's prompt
    settings wins over the prompt collection; without a customer the
    collection is asked for the default prompt, and the default of the
    source is used when that gives nothing.  The settings are those of
    the document get_credentials answers with: when the store has a
    document whose API key passes the check of get_credentials, a
    truthy entry of its prompt_settings is the prompt; when
    get_credentials answers None, be it for a key that fails the check,
    the customer has no settings and the collection is asked, then the
    default. *)
Theorem prompt_lookup_order :
  forall (O : outside) (prompt_id default : list N) (st : service_state),
    default <> [] ->
    (forall v, lookup_prompt O prompt_id default st = Ok v -> truth v = true)
    /\ (forall c cid settings v,
          customer_id st = Some (c :: cid) ->
          get_customer_prompt_settings (mongo O) (c :: cid) = PDict settings ->
          dict_get settings prompt_id = Some v -> truth v = true ->
          lookup_prompt O prompt_id default st = Ok v)
    /\ (forall v,
          customer_id st = None ->
          get_prompt (mongo O) prompt_id None = v -> truth v = true ->
          lookup_prompt O prompt_id default st = Ok v)
    /\ (customer_id st = None ->
        truth (get_prompt (mongo O) prompt_id None) = false ->
        lookup_prompt O prompt_id default st = Ok (PStr default))
    /\ (forall c cid customer settings v,
          customer_id st = Some (c :: cid) ->
          find_credentials (mongo O) (c :: cid) = Ok (Some customer) ->
          key_check_raises customer = false ->
          dict_get customer (py "prompt_settings") = Some (PDict settings) ->
          dict_get settings prompt_id = Some v -> truth v = true ->
          lookup_prompt O prompt_id default st = Ok v)
    /\ (forall c cid,
          customer_id st = Some (c :: cid) ->
          get_credentials (mongo O) (c :: cid) = None ->
          lookup_prompt O prompt_id default st
          = Ok (let stored := get_prompt (mongo O) prompt_id (Some (c :: cid)) in
                if truth stored then stored else PStr default)).
Proof.
  intros O prompt_id default st Hd.
  split; [intros v; apply lookup_prompt_truthy; exact Hd|].
  assert (H2 : forall c cid settings v,
            customer_id st = Some (c :: cid) ->
            get_customer_prompt_settings (mongo O) (c :: cid) = PDict settings ->
            dict_get settings prompt_id = Some v -> truth v = true ->
            lookup_prompt O prompt_id default st = Ok v).
  { intros c cid settings v Hc Hs Hv Ht. unfold lookup_prompt, or_stored_prompt.
    rewrite Hc, Hs, Hv, Ht. cbn [negb]. rewrite Ht. reflexivity. }
  split; [exact H2|]. split; [|split; [|split]].
  - intros v Hc Hv Ht. unfold lookup_prompt, or_stored_prompt. rewrite Hc. cbn [truth negb].
    rewrite Hv, Ht. reflexivity.
  - intros Hc Ht. unfold lookup_prompt, or_stored_prompt. rewrite Hc. cbn [truth negb].
    rewrite Ht. reflexivity.
  - intros c cid customer settings v Hc Hf Hk Hs Hv Ht.
    apply (H2 c cid settings v Hc); [|exact Hv|exact Ht].
    unfold get_customer_prompt_settings.
    assert (Hg : get_credentials (mongo O) (c :: cid) = Some customer).
    { apply get_credentials_found. split; [exact Hf|]. split; [|exact Hk].
      intros ->. discriminate Hs. }
    rewrite Hg, Hs. reflexivity.
  - intros c cid Hc Hg. unfold lookup_prompt, get_customer_prompt_settings, or_stored_prompt.
    rewrite Hc, Hg. cbn [dict_get truth negb]. cbv zeta.
    destruct (truth (get_prompt (mongo O) prompt_id (Some (c :: cid)))); reflexivity.
Qed.

Lemma prompt_lookup_order_witness :
  DEFAULT_SUMMARY_PROMPT <> []
  /\ get_summary_prompt DemoStore.demo_outside (DemoStore.fresh (Some (py "acme")))
     = Ok (PStr (py "Be brief.")).
Proof.
  assert (Hd : DEFAULT_SUMMARY_PROMPT <> []) by discriminate.
  split; [exact Hd|].
  refine (proj1 (proj2 (prompt_lookup_order DemoStore.demo_outside
            (py "result_summary_system_message") DEFAULT_SUMMARY_PROMPT
            (DemoStore.fresh (Some (py "acme"))) Hd))
            97%N (py "cme") _ (PStr (py "Be brief.")) eq_refl eq_refl eq_refl eq_refl).
Defined.

(** ** What is written to the credential store *)

(** X18.  The key create_credentials stores comes back unchanged: when
    the document of the customer holds the openai_api_key that
    create_credentials wrote for the key it was given, _resolve_api_key
    returns exactly the stored text; and when that key was missing or
    blank, so that the empty string was stored, the key is resolved as
    if there were no customer. *)
Theorem stored_key_round_trip :
  forall (O : outside) (which : service) (st : service_state) (c : N) (cid : list N)
         (customer : document)
         (openai_api_key postgres_username postgres_password postgres_host postgres_db
          : option (list N)),
    customer_id st = Some (c :: cid) ->
    get_credentials (mongo O) (c :: cid) = Some customer ->
    dict_get customer (py "openai_api_key")
    = dict_get (credential_data (chars O) (c :: cid) openai_api_key postgres_username
                  postgres_password postgres_host postgres_db) (py "openai_api_key") ->
    match stored_key (chars O) openai_api_key with
    | [] =>
        _resolve_api_key O which st
        = _resolve_api_key O which
            {| customer_id := None; _initial_api_key := _initial_api_key st;
               api_key := api_key st; client := client st;
               current_api_key_in_use := current_api_key_in_use st |}
    | k :: key => _resolve_api_key O which st = Ok (k :: key)
    end.
Proof.
  intros O which st c cid customer key u p h d Hc Hg Hk.
  change (dict_get (credential_data (chars O) (c :: cid) key u p h d) (py "openai_api_key"))
    with (Some (PStr (stored_key (chars O) key))) in Hk.
  unfold _resolve_api_key, customer_key. rewrite Hc, Hg, Hk. cbn [customer_id _initial_api_key].
  destruct (stored_key (chars O) key) as [|k key'] eqn:E; cbn [truth truthy].
  - reflexivity.
  - cbn [negb].
    assert (Hs : strip (chars O) (k :: key') = k :: key').
    { unfold stored_key in E. destruct key as [[|x key]|]; try discriminate.
      rewrite <- E. apply strip_idempotent. }
    rewrite Hs. reflexivity.
Qed.

Lemma stored_key_round_trip_witness :
  get_credentials (mongo DemoStore.demo_outside) (py "bolt") = Some DemoStore.bolt
  /\ _resolve_api_key DemoStore.demo_outside TheSQLAgent (DemoStore.fresh (Some (py "bolt")))
     = Ok (py "sk-bolt").
Proof.
  split; [reflexivity|].
  exact (stored_key_round_trip DemoStore.demo_outside TheSQLAgent
           (DemoStore.fresh (Some (py "bolt"))) 98%N (py "olt") DemoStore.bolt
           (Some (py " sk-bolt ")) None None None None eq_refl eq_refl eq_refl).
Defined.

Lemma update_step_keys (updates : document) (kv : list N * pyval) :
  (forall k v, In (k, v) updates -> v <> PNone /\ update_key_ok k) ->
  forall k v, In (k, v) (update_step updates kv) -> v <> PNone /\ update_key_ok k.
Proof.
  intros Hinv k v. destruct kv as [key value]. unfold update_step.
  assert (Hset : forall k', value <> PNone -> update_key_ok k' ->
                 In (k, v) (dict_set updates k' value) -> v <> PNone /\ update_key_ok k).
  { intros k' Hv Hk' Hin. destruct (in_dict_set _ _ _ _ _ Hin) as [H|[-> ->]].
    - exact (Hinv _ _ H).
    - split; assumption. }
  assert (Hbody : value <> PNone ->
            In (k, v)
              (if str_eqb key (py "openai_api_key") then dict_set updates key value
               else if existsb (str_eqb key)
                         (map py ["postgres_username"; "postgres_password"; "postgres_host";
                                  "postgres_db"]%string)
               then dict_set updates
                      (py "postgres_connection." ++ replace key (py "postgres_") []) value
               else if startswith key (py "prompt_")
               then dict_set updates
                      (py "prompt_settings." ++ replace key (py "prompt_") []) value
               else updates) ->
            v <> PNone /\ update_key_ok k).
  { intros Hv.
    destruct (str_eqb key (py "openai_api_key")) eqn:E1.
    { apply str_eqb_eq in E1. subst key. apply Hset; [exact Hv|left; reflexivity]. }
    destruct (existsb _ _) eqn:E2.
    { apply Hset; [exact Hv|]. right. left.
      apply existsb_exists in E2. destruct E2 as (x & Hx & Hkx).
      apply str_eqb_eq in Hkx. subst x.
      cbn [map In] in Hx.
      destruct Hx as [<-|[<-|[<-|[<-|[]]]]]; vm_compute; tauto. }
    destruct (startswith key (py "prompt_")) eqn:E3; [|apply Hinv].
    apply Hset; [exact Hv|]. right. right. apply startswith_app. }
  destruct value; [apply Hinv|apply Hbody; discriminate..].
Qed.

(** X19.  The document update_credentials hands to $set holds no None
    and only the keys openai_api_key, postgres_connection.username,
    .password, .host and .db, and keys under prompt_settings.  The
    field postgres_connection.database, which create_credentials
    writes, is never among them: postgres_db is written to
    postgres_connection.db. *)
Theorem update_never_names_the_database_field :
  forall (kwargs : list (list N * pyval)) (k : list N) (v : pyval),
    In (k, v) (updates_of kwargs) ->
    v <> PNone
    /\ update_key_ok k
    /\ k <> py "postgres_connection.database".
Proof.
  assert (H : forall kwargs updates,
             (forall k v, In (k, v) updates -> v <> PNone /\ update_key_ok k) ->
             forall k v, In (k, v) (fold_left update_step kwargs updates) ->
                         v <> PNone /\ update_key_ok k).
  { induction kwargs as [|kv kwargs IH]; intros updates Hinv; [exact Hinv|].
    cbn [fold_left]. apply IH. apply update_step_keys. exact Hinv. }
  intros kwargs k v Hin.
  destruct (H kwargs [] (fun k v (F : In (k, v) []) => match F with end) k v Hin) as [Hv Hk].
  split; [exact Hv|]. split; [exact Hk|].
  intros ->. destruct Hk as [Hk|[Hk|Hk]]; [discriminate| |discriminate].
  cbn [map In] in Hk. destruct Hk as [Hk|[Hk|[Hk|[Hk|[]]]]]; discriminate.
Qed.

Lemma update_never_names_the_database_field_witness :
  In (py "postgres_connection.db", PStr (py "sales"))
     (updates_of [(py "postgres_db", PStr (py "sales")); (py "postgres_host", PNone)])
  /\ py "postgres_connection.db" <> py "postgres_connection.database".
Proof.
  assert (Hin : In (py "postgres_connection.db", PStr (py "sales"))
                   (updates_of [(py "postgres_db", PStr (py "sales"));
                                (py "postgres_host", PNone)]))
    by (left; reflexivity).
  split; [exact Hin|].
  exact (proj2 (proj2 (update_never_names_the_database_field _ _ _ Hin))).
Defined.

(** ** The second validator, app/utils/sql_validator.py *)

Section Contains.


Lemma startswith_split (sub : list N) :
  forall s, startswith s sub = true -> exists post, s = sub ++ post.
Proof.
  induction sub as [|x sub IH]; intros s H.
  - exists s. reflexivity.
  - destruct s as [|y s]; [discriminate|]. cbn in H.
    apply andb_true_iff in H. destruct H as [H1 H2].
    apply N.eqb_eq in H1. subst y. destruct (IH s H2) as [post ->].
    exists post. reflexivity.
Qed.

Lemma contains_split (sub : list N) :
  forall s, SQLValidator.contains s sub = true -> exists pre post, s = pre ++ sub ++ post.
Proof.
  induction s as [|c s IH]; cbn [SQLValidator.contains]; intros H.
  - rewrite orb_false_r in H. destruct (startswith_split _ _ H) as [post E].
    exists [], post. exact E.
  - apply orb_true_iff in H. destruct H as [H|H].
    + destruct (startswith_split _ _ H) as [post E]. exists [], post. exact E.
    + destruct (IH H) as (pre & post & ->). exists (c :: pre), post. reflexivity.
Qed.

End Contains.

Section Spaces.
Variable U : unicode.

Lemma upper_ascii (s : list N) :
  forallb is_ascii s = true -> upper U s = map ascii_upper s.
Proof.
  induction s as [|c s IH]; [reflexivity|].
  cbn [forallb]. intros H. apply andb_true_iff in H. destruct H as [Hc Hs].
  unfold upper in *. cbn [flat_map map]. rewrite Hc, (IH Hs). reflexivity.
Qed.

Lemma ascii_upper_32 (c : N) : ascii_upper c = 32%N -> c = 32%N.
Proof.
  unfold ascii_upper, ascii_islower, between.
  destruct (N.leb 97 c && N.leb c 122) eqn:E; [|tauto].
  apply andb_true_iff in E. destruct E as [E1 E2].
  apply N.leb_le in E1. lia.
Qed.

Lemma upper_letters_no_space (keyword : list N) :
  forallb ascii_isupper keyword = true -> ~ In 32%N keyword.
Proof.
  intros H Hin. rewrite forallb_forall in H. specialize (H _ Hin). discriminate.
Qed.

(** [u] followed by a space starts with [keyword] followed by a space. *)
Lemma keyword_then_space (keyword u post : list N) :
  ~ In 32%N keyword ->
  u ++ [32%N] = keyword ++ 32%N :: post ->
  exists b, u = keyword ++ b /\ (b = [] \/ hd_error b = Some 32%N).
Proof.
  revert u. induction keyword as [|k keyword IH]; intros u Hno H.
  - cbn [app] in *. exists u. split; [reflexivity|].
    destruct u as [|x u]; [left; reflexivity|right].
    cbn in H. injection H as -> _. reflexivity.
  - destruct u as [|x u].
    + cbn in H. injection H as <- _. exfalso. apply Hno. left. reflexivity.
    + cbn in H. injection H as -> H.
      destruct (IH u (fun Hin => Hno (or_intror Hin)) H) as (b & -> & Hb).
      exists b. split; [reflexivity|exact Hb].
Qed.

(** A keyword between spaces in [w] followed by a space lies in [w]
    after a space and before a space or the end. *)
Lemma spaced_keyword_in (keyword post : list N) :
  ~ In 32%N keyword ->
  forall pre w,
    w ++ [32%N] = pre ++ 32%N :: keyword ++ 32%N :: post ->
    exists a b, w = a ++ 32%N :: keyword ++ b
                /\ (b = [] \/ hd_error b = Some 32%N).
Proof.
  intros Hno. induction pre as [|x pre IH]; intros w H.
  - cbn [app] in H. destruct w as [|c w].
    + exfalso. cbn in H. injection H as H. destruct keyword; discriminate.
    + cbn in H. injection H as -> H.
      destruct (keyword_then_space keyword w post Hno H) as (b & -> & Hb).
      exists [], b. split; [reflexivity|exact Hb].
  - destruct w as [|c w].
    + exfalso. cbn in H. injection H as _ H. destruct pre; discriminate.
    + cbn in H. injection H as -> H.
      destruct (IH w H) as (a & b & -> & Hb).
      exists (x :: a), b. split; [reflexivity|exact Hb].
Qed.

Lemma map_upper_split (q a k b : list N) :
  map ascii_upper q = a ++ k ++ b ->
  exists qa occ qb, q = qa ++ occ ++ qb
                    /\ map ascii_upper qa = a /\ map ascii_upper occ = k
                    /\ map ascii_upper qb = b.
Proof.
  intros H. apply map_eq_app in H. destruct H as (qa & rest & -> & Ha & H).
  apply map_eq_app in H. destruct H as (occ & qb & -> & Hk & Hb).
  exists qa, occ, qb. repeat split; assumption.
Qed.

Lemma last_from_snoc (a : list N) (c : N) :
  forall prev, last_from prev (a ++ [c]) = Some c.
Proof. induction a as [|x a IH]; intros prev; [reflexivity|]. cbn. apply IH. Qed.

Lemma isword_space : isword U 32 = false.
Proof. reflexivity. Qed.

(** On a text of ASCII characters, what has_blocked_keywords looks for
    is a whole-word occurrence. *)
Lemma spaced_keyword_occurs (keyword query : list N) :
  keyword <> [] ->
  forallb ascii_isupper keyword = true ->
  forallb is_ascii query = true ->
  SQLValidator.contains (py " " ++ upper U query ++ py " ") (py " " ++ keyword ++ py " ") = true ->
  occurs_as_word U keyword query.
Proof.
  intros Hne Hup Hasc H.
  rewrite (upper_ascii query Hasc) in H.
  destruct (contains_split _ _ H) as (pre & post & E).
  change (py " ") with [32%N] in E. cbn [app] in E.
  rewrite <- app_assoc in E. cbn [app] in E.
  pose proof (upper_letters_no_space keyword Hup) as Hno.
  destruct (spaced_keyword_in keyword post Hno pre (32%N :: map ascii_upper query) E)
    as (a & b & Hw & Hb).
  assert (Hu : exists A, map ascii_upper query = A ++ keyword ++ b
                         /\ (A = [] \/ exists a', A = a' ++ [32%N])).
  { destruct a as [|x a].
    - cbn [app] in Hw. injection Hw as Hw. exists []. split; [exact Hw|left; reflexivity].
    - cbn [app] in Hw. injection Hw as _ Hw. exists (a ++ [32%N]).
      split; [rewrite <- app_assoc; exact Hw|right; exists a; reflexivity]. }
  destruct Hu as (A & Hu & HA).
  destruct (map_upper_split query A keyword b Hu) as (qa & occ & qb & -> & Hqa & Hocc & Hqb).
  exists qa, occ, qb. repeat split; [exact Hocc| |].
  - destruct HA as [->|[a' ->]].
    + destruct qa; [reflexivity|discriminate].
    + apply map_eq_app in Hqa. destruct Hqa as (qa' & l & -> & _ & Hl).
      destruct l as [|x [|y l]]; try discriminate.
      cbn in Hl. injection Hl as Hx. apply ascii_upper_32 in Hx. subst x.
      rewrite last_from_snoc. exact isword_space.
  - destruct Hb as [->|Hb].
    + destruct qb; [reflexivity|discriminate].
    + destruct b as [|x b]; [discriminate|]. injection Hb as ->.
      destruct qb as [|y qb]; [discriminate|]. cbn in Hqb. injection Hqb as Hy _.
      apply ascii_upper_32 in Hy. subst y. exact isword_space.
Qed.

End Spaces.

(** X20.  On a text of ASCII characters, whatever
    SQLValidator.has_blocked_keywords flags (a blocked keyword between
    blanks or the ends of the upper-cased text) is rejected by
    SQLAgent.validate_query too: the scan of the agent is at least as
    strict. *)
Theorem agent_scan_subsumes_validator_scan :
  forall (U : unicode) (P : sqlparse) (query : list N),
    forallb is_ascii query = true ->
    SQLValidator.has_blocked_keywords U query = true ->
    fst (validate_query U P query) = false.
Proof.
  intros U P query Hasc H. unfold SQLValidator.has_blocked_keywords in H.
  apply existsb_exists in H. destruct H as (keyword & Hin & Hk).
  pose proof blocked_keywords_upper as Hall.
  rewrite forallb_forall in Hall. specialize (Hall keyword Hin).
  apply andb_true_iff in Hall. destruct Hall as [Hup Hne].
  assert (Hne' : keyword <> []) by (intros ->; discriminate).
  pose proof (spaced_keyword_occurs U keyword query Hne' Hup Hasc Hk) as Hocc.
  pose proof (keyword_pattern_found U keyword query Hne' Hup Hocc) as Hfound.
  unfold validate_query.
  destruct (parse P (strip U query)) as [[|stmt stmts]|e]; try reflexivity.
  destruct (negb (truthy (get_type P stmt)) || _); try reflexivity.
  destruct (find _ Config.BLOCKED_SQL_KEYWORDS) eqn:Hfind; try reflexivity.
  pose proof (find_none _ _ Hfind keyword Hin) as Hnone. cbn beta in Hnone. congruence.
Qed.

Lemma agent_scan_subsumes_validator_scan_witness :
  forallb is_ascii (py "select 1 ; drop table users") = true
  /\ SQLValidator.has_blocked_keywords ascii_only (py "select 1 ; drop table users") = true
  /\ fst (validate_query ascii_only plain_sqlparse (py "select 1 ; drop table users")) = false.
Proof.
  split; [reflexivity|]. split; [reflexivity|].
  exact (agent_scan_subsumes_validator_scan ascii_only plain_sqlparse
           (py "select 1 ; drop table users") eq_refl eq_refl).
Defined.


(** X21.  SQLValidator.validate_query and validate_and_sanitize answer
    (False, "Empty query") to a text that is empty or holds only
    blanks, whatever the parser would make of it. *)
Theorem blank_query_is_rejected_unparsed :
  forall (U : unicode) (P : sqlparse) (query : list N),
    forallb (isspace U) query = true ->
    SQLValidator.validate_query U P query = (false, Some (py "Empty query"))
    /\ SQLValidator.validate_and_sanitize U P query = (false, Some (py "Empty query")).
Proof.
  intros U P query H.
  assert (E : SQLValidator.validate_query U P query = (false, Some (py "Empty query"))).
  { unfold SQLValidator.validate_query. rewrite (strip_blank U query H).
    cbn [truthy negb]. rewrite orb_true_r. reflexivity. }
  split; [exact E|]. unfold SQLValidator.validate_and_sanitize. rewrite E. reflexivity.
Qed.

Lemma blank_query_is_rejected_unparsed_witness :
  forallb (isspace ascii_only) (py "   ") = true
  /\ SQLValidator.validate_query ascii_only plain_sqlparse (py "   ")
     = (false, Some (py "Empty query")).
Proof.
  split; [reflexivity|].
  exact (proj1 (blank_query_is_rejected_unparsed ascii_only plain_sqlparse (py "   ") eq_refl)).
Defined.

(** ** Authentication, app/core/auth.py *)

Section AuthFacts.
Import Auth.
Variable O : Auth.outside.

Lemma verify_password_iff (plain : list N) (stored : pyval) :
  verify_password plain stored = true <-> stored = PStr plain.
Proof.
  unfold verify_password, str_equals. destruct stored as [|s|items|bs|tag b].
  - split; discriminate.
  - rewrite str_eqb_eq. split; [intros ->; reflexivity|intros H; injection H as ->; reflexivity].
  - destruct (present _); split; discriminate.
  - split; discriminate.
  - split; discriminate.
Qed.

Lemma accept_customer_granted (sub : pyval) (customer : document) :
  accept_customer O sub = Granted customer ->
  truth sub = true
  /\ exists id, token_data O sub = Ok id /\ get_credentials (Auth.mongo O) id = Some customer.
Proof.
  unfold accept_customer. destruct (truth sub); [|discriminate]. cbn [negb].
  destruct (token_data O sub) as [id|e]; [|discriminate].
  destruct (get_credentials (Auth.mongo O) id) as [c|] eqn:E; [|discriminate].
  intros H. injection H as <-. split; [reflexivity|]. exists id. split; [reflexivity|exact E].
Qed.

End AuthFacts.

(** X22.  authenticate_customer returns a customer exactly when
    get_credentials answers with that customer and its password field
    is a str equal to the password given: a customer without a password
    field, or with a password that is not a str, never authenticates.
    In terms of the store: the document found for the id has that
    password, and its openai_api_key passes the check get_credentials
    makes; with a key that is truthy and has no method strip (a number,
    a list) the customer does not authenticate, whatever the
    password. *)
Theorem authentication_needs_the_stored_password :
  forall (O : Auth.outside) (customer_id password : list N) (customer : document),
    (Auth.authenticate_customer O customer_id password = Some customer
     <-> get_credentials (Auth.mongo O) customer_id = Some customer
         /\ dict_get customer (py "password") = Some (PStr password))
    /\ (Auth.authenticate_customer O customer_id password = Some customer
        <-> find_credentials (Auth.mongo O) customer_id = Ok (Some customer)
            /\ key_check_raises customer = false
            /\ dict_get customer (py "password") = Some (PStr password)).
Proof.
  intros O customer_id password customer.
  assert (H : Auth.authenticate_customer O customer_id password = Some customer
              <-> get_credentials (Auth.mongo O) customer_id = Some customer
                  /\ dict_get customer (py "password") = Some (PStr password)).
  { unfold Auth.authenticate_customer.
    destruct (get_credentials (Auth.mongo O) customer_id) as [c|];
      [|split; [discriminate|intros [H _]; discriminate]].
    destruct (dict_get c (py "password")) as [stored|] eqn:E.
    - destruct (Auth.verify_password password stored) eqn:V; cbn [negb].
      + apply verify_password_iff in V. subst stored. split.
        * intros H. injection H as <-. split; [reflexivity|exact E].
        * intros [H _]. exact H.
      + split; [discriminate|]. intros [H1 H2]. injection H1 as <-.
        rewrite E in H2. injection H2 as ->.
        assert (Auth.verify_password password (PStr password) = true)
          by (apply verify_password_iff; reflexivity).
        congruence.
    - split; [discriminate|]. intros [H1 H2]. injection H1 as <-. congruence. }
  split; [exact H|]. rewrite H, get_credentials_found. split.
  - intros ((Hf & _ & Hk) & Hp). repeat split; assumption.
  - intros (Hf & Hk & Hp). repeat split; try assumption. intros ->. discriminate Hp.
Qed.

Lemma authentication_needs_the_stored_password_witness :
  Auth.authenticate_customer DemoAuth.demo_outside (py "acme") (py "s3cret")
  = Some DemoAuth.acme
  /\ Auth.authenticate_customer DemoAuth.demo_outside (py "odd") (py "s3cret") = None.
Proof.
  split.
  - apply (proj2 (authentication_needs_the_stored_password DemoAuth.demo_outside
                    (py "acme") (py "s3cret") DemoAuth.acme)).
    repeat split.
  - destruct (Auth.authenticate_customer DemoAuth.demo_outside (py "odd") (py "s3cret"))
      as [c|] eqn:E; [|reflexivity].
    destruct (proj1 (proj2 (authentication_needs_the_stored_password DemoAuth.demo_outside
                              (py "odd") (py "s3cret") c)) E) as (Hf & Hk & _).
    vm_compute in Hf. injection Hf as <-. discriminate Hk.
Defined.

(** X23.  get_current_customer returns a customer only for a token that
    jwt.decode accepted: under settings.SECRET_KEY, or, after that
    failed with a JWTError, under the secret key of the customer the
    unverified claims name.  The customer returned is the one the store
    has for the sub claim of that token.  The unverified claims alone
    never give access. *)
Theorem access_needs_a_verified_token :
  forall (O : Auth.outside) (token : list N) (customer : document),
    Auth.get_current_customer O token = Auth.Granted customer ->
    exists sub id,
      truth sub = true
      /\ Auth.token_data O sub = Ok id
      /\ get_credentials (Auth.mongo O) id = Some customer
      /\ ((exists payload,
             Auth.jwt_decode O token (Auth.SECRET_KEY O) = Auth.Decoded payload
             /\ Auth.sub_of payload = sub)
          \/ (exists e unverified payload,
                Auth.jwt_decode O token (Auth.SECRET_KEY O) = Auth.JWTError e
                /\ Auth.jwt_get_unverified_claims O token = Auth.Decoded unverified
                /\ Auth.sub_of unverified = sub
                /\ Auth.jwt_decode O token (Auth.get_customer_secret_key O sub)
                   = Auth.Decoded payload)).
Proof.
  intros O token customer. unfold Auth.get_current_customer.
  destruct (Auth.jwt_decode O token (Auth.SECRET_KEY O)) as [payload|e|e] eqn:D; [| |discriminate].
  - intros H. destruct (accept_customer_granted O _ _ H) as (Ht & id & Hid & Hc).
    exists (Auth.sub_of payload), id. repeat split; try assumption.
    left. exists payload. split; reflexivity.
  - destruct (Auth.jwt_get_unverified_claims O token) as [unverified|e'|e'] eqn:Uc; try discriminate.
    cbv zeta. destruct (truth (Auth.sub_of unverified)) eqn:Ht; [|discriminate]. cbn [negb].
    destruct (Auth.jwt_decode O token (Auth.get_customer_secret_key O (Auth.sub_of unverified)))
      as [payload|e'|e'] eqn:D'; try discriminate.
    intros H. destruct (accept_customer_granted O _ _ H) as (_ & id & Hid & Hc).
    exists (Auth.sub_of unverified), id. repeat split; try assumption.
    right. exists e, unverified, payload. repeat split; assumption.
Qed.

Lemma access_needs_a_verified_token_witness :
  Auth.get_current_customer DemoAuth.demo_outside (py "k-acme") = Auth.Granted DemoAuth.acme
  /\ exists sub id,
       truth sub = true
       /\ Auth.token_data DemoAuth.demo_outside sub = Ok id
       /\ get_credentials (Auth.mongo DemoAuth.demo_outside) id = Some DemoAuth.acme.
Proof.
  split; [reflexivity|].
  destruct (access_needs_a_verified_token DemoAuth.demo_outside (py "k-acme") DemoAuth.acme
              eq_refl) as (sub & id & H1 & H2 & H3 & _).
  exists sub, id. repeat split; assumption.
Defined.

(** ** The executor, app/db/postgres_client.py *)

(** X24.  execute_query closes the connection it opened on every path:
    when connect succeeded the last call is a close, close is called
    once, and a second time only when the first close raised after a
    successful fetch.  When connect raised nothing else is called.  The
    text is handed to cursor.execute as it is, at most once, and rows
    are returned only when every call succeeded. *)
Theorem opened_connection_is_closed :
  forall (D : PostgresClient.driver) (query : list N),
    let '(r, calls) := PostgresClient.execute_query D query in
    match PostgresClient.connect D with
    | Raise e => r = Raise e /\ calls = [PostgresClient.Connect false]
    | Ok _ =>
        (exists between ok,
           calls = PostgresClient.Connect true :: between ++ [PostgresClient.Close ok])
        /\ 1 <= PostgresClient.closes calls <= 2
        /\ (PostgresClient.closes calls = 2 ->
            PostgresClient.succeeded (PostgresClient.fetchall D) = true
            /\ PostgresClient.succeeded (PostgresClient.close_first D) = false)
    end
    /\ (PostgresClient.statements calls = [] \/ PostgresClient.statements calls = [query])
    /\ (forall rows, r = Ok rows ->
          PostgresClient.fetchall D = Ok rows
          /\ calls = [PostgresClient.Connect true; PostgresClient.Cursor true;
                      PostgresClient.Execute query true; PostgresClient.Fetchall true;
                      PostgresClient.Close true]).
Proof.
  intros D query. unfold PostgresClient.execute_query, PostgresClient.cleanup.
  destruct (PostgresClient.connect D) as [[]|e] eqn:Hc.
  2:{ cbn. repeat split; try discriminate. left. reflexivity. }
  destruct (PostgresClient.cursor D) as [[]|e];
    [destruct (PostgresClient.execute D query) as [[]|e];
     [destruct (PostgresClient.fetchall D) as [rows|e];
      [destruct (PostgresClient.close_first D) as [[]|e];
       [|destruct (PostgresClient.close_again D) as [[]|e']]
      |destruct (PostgresClient.close_first D) as [[]|e']]
     |destruct (PostgresClient.close_first D) as [[]|e']]
    |destruct (PostgresClient.close_first D) as [[]|e']].
  all: cbn [app PostgresClient.succeeded PostgresClient.closes PostgresClient.statements
            flat_map filter PostgresClient.is_close length].
  all: refine (conj (conj _ (conj _ _)) (conj _ _)).
  all: try lia.
  all: try (intros H; first [discriminate H | split; reflexivity]).
  all: try (left; reflexivity).
  all: try (right; reflexivity).
  all: try (intros rows' H; first [discriminate H | injection H as <-; split; reflexivity]).
  all: match goal with
       | |- exists between ok, ?h :: ?l = _ =>
           exists (removelast l);
           match eval cbn in (last l (PostgresClient.Connect true)) with
           | PostgresClient.Close ?b => exists b
           end; reflexivity
       end.
Qed.

(** ** The foreign keys read by query *)

Section GroupingFacts.

Lemma existsb_str_In x l : existsb (str_eqb x) l = true <-> In x l.
Proof.
  rewrite existsb_exists. split.
  - intros (y & Hin & Hy). apply str_eqb_eq in Hy. subst. exact Hin.
  - intros Hin. exists x. split; [exact Hin|apply str_eqb_refl].
Qed.

Lemma first_seen_In : forall l s t, In t (first_seen s l) <-> In t l /\ ~ In t s.
Proof.
  induction l as [|x l IH]; intros s t; cbn [first_seen].
  - cbn. tauto.
  - destruct (existsb (str_eqb x) s) eqn:E.
    + apply existsb_str_In in E. rewrite IH. cbn [In]. split; [tauto|].
      intros [[<-|H] Hn]; [contradiction|tauto].
    + assert (Hx : ~ In x s) by (intros H; apply existsb_str_In in H; congruence).
      cbn [In]. rewrite IH. cbn [In]. split.
      * intros [<-|[H1 H2]]; [tauto|]. split; [tauto|]. intros H; apply H2; right; exact H.
      * intros [[<-|H1] H2]; [left; reflexivity|].
        destruct (list_eq_dec N.eq_dec x t) as [->|Hne]; [left; reflexivity|].
        right. split; [exact H1|]. intros [H|H]; [congruence|contradiction].
Qed.

Lemma first_seen_NoDup : forall l s, NoDup (first_seen s l).
Proof.
  induction l as [|x l IH]; intros s; cbn [first_seen]; [constructor|].
  destruct (existsb (str_eqb x) s); [apply IH|].
  constructor; [|apply IH]. rewrite first_seen_In. intros [_ H]. apply H. left. reflexivity.
Qed.

Lemma first_seen_snoc : forall l s x,
  first_seen s (l ++ [x])
  = first_seen s l ++ (if existsb (str_eqb x) (s ++ l) then [] else [x]).
Proof.
  induction l as [|y l IH]; intros s x; cbn [app first_seen].
  - rewrite app_nil_r. destruct (existsb (str_eqb x) s); reflexivity.
  - destruct (existsb (str_eqb y) s) eqn:E.
    + rewrite IH. f_equal.
      rewrite !existsb_app. cbn [existsb].
      destruct (str_eqb x y) eqn:Exy; [|reflexivity].
      apply str_eqb_eq in Exy. subst y. rewrite E. reflexivity.
    + rewrite IH. cbn [app]. f_equal. f_equal.
      assert (Hx : existsb (str_eqb x) (y :: s ++ l) = existsb (str_eqb x) (s ++ y :: l)).
      { rewrite !existsb_app. cbn [existsb]. rewrite existsb_app.
        destruct (str_eqb x y), (existsb (str_eqb x) s), (existsb (str_eqb x) l); reflexivity. }
      cbn [app] in *. rewrite Hx. reflexivity.
Qed.

Lemma rows_to_snoc t seen r :
  rows_to t (seen ++ [r])
  = rows_to t seen ++ (if str_eqb (referred_table_of r) t then [r] else []).
Proof. unfold rows_to. rewrite filter_app. reflexivity. Qed.

Lemma rows_to_none t seen :
  ~ In t (map referred_table_of seen) -> rows_to t seen = [].
Proof.
  induction seen as [|r seen IH]; [reflexivity|]. cbn [map In rows_to filter]. intros H.
  destruct (str_eqb (referred_table_of r) t) eqn:E.
  - apply str_eqb_eq in E. tauto.
  - apply IH. tauto.
Qed.

Lemma dict_get_entries seen key T :
  present (dict_get (map (entry seen) T) key) = existsb (str_eqb key) T.
Proof.
  induction T as [|t T IH]; [reflexivity|].
  cbn [map dict_get entry existsb]. rewrite (str_eqb_sym key t).
  destruct (str_eqb t key); [reflexivity|exact IH].
Qed.

Lemma entry_other seen r t :
  str_eqb (referred_table_of r) t = false -> entry (seen ++ [r]) t = entry seen t.
Proof.
  intros H. unfold entry. rewrite rows_to_snoc, H, app_nil_r. reflexivity.
Qed.

Lemma entry_same seen r :
  entry (seen ++ [r]) (referred_table_of r)
  = (referred_table_of r,
     {| constrained_columns :=
          map constrained_column (rows_to (referred_table_of r) seen) ++ [constrained_column r];
        referred_table := referred_table_of r;
        referred_columns :=
          map referred_column (rows_to (referred_table_of r) seen) ++ [referred_column r] |}).
Proof.
  unfold entry. rewrite rows_to_snoc, str_eqb_refl, !map_app. reflexivity.
Qed.

Lemma append_columns_absent seen r T :
  ~ In (referred_table_of r) T ->
  append_columns (map (entry seen) T) (referred_table_of r) r = map (entry (seen ++ [r])) T.
Proof.
  induction T as [|t T IH]; [reflexivity|]. cbn [In map append_columns]. intros H.
  unfold entry at 1. cbn [fst].
  destruct (str_eqb t (referred_table_of r)) eqn:E.
  - apply str_eqb_eq in E. subst t. tauto.
  - fold (entry seen t). rewrite IH by tauto.
    rewrite entry_other by (rewrite str_eqb_sym; exact E). reflexivity.
Qed.

Lemma append_columns_present seen r T :
  NoDup T -> In (referred_table_of r) T ->
  append_columns (map (entry seen) T) (referred_table_of r) r = map (entry (seen ++ [r])) T.
Proof.
  induction T as [|t T IH]; [intros _ []|]. intros Hnd Hin.
  inversion Hnd as [|? ? Hnot Hnd']; subst.
  cbn [map append_columns]. unfold entry at 1.
  destruct (str_eqb t (referred_table_of r)) eqn:E.
  - apply str_eqb_eq in E. subst t. rewrite entry_same. cbn [constrained_columns referred_table referred_columns].
    f_equal. clear IH Hin Hnd Hnd'.
    induction T as [|t T IHT]; [reflexivity|]. cbn [map]. 
    rewrite entry_other.
    + f_equal. apply IHT. intros H. apply Hnot. right. exact H.
    + destruct (str_eqb (referred_table_of r) t) eqn:E; [|reflexivity].
      apply str_eqb_eq in E. exfalso. apply Hnot. left. symmetry. exact E.
  - fold (entry seen t). rewrite entry_other by (rewrite str_eqb_sym; exact E).
    f_equal. apply IH; [exact Hnd'|].
    destruct Hin as [->|Hin]; [rewrite str_eqb_refl in E; discriminate|exact Hin].
Qed.

Lemma append_columns_skip (d extra : list (list N * foreign_key)) key r :
  (forall k fk, In (k, fk) d -> str_eqb k key = false) ->
  append_columns (d ++ extra) key r = d ++ append_columns extra key r.
Proof.
  induction d as [|[k fk] d IH]; intros H; [reflexivity|].
  cbn [app append_columns]. rewrite (H k fk (or_introl eq_refl)).
  f_equal. apply IH. intros k' fk' Hin. apply (H k' fk'). right. exact Hin.
Qed.

Lemma group_step_grouped seen r :
  group_step (grouped seen) r = grouped (seen ++ [r]).
Proof.
  unfold group_step, grouped. fold (entry seen). fold (entry (seen ++ [r])).
  cbv zeta. rewrite dict_get_entries.
  rewrite (map_app referred_table_of seen [r]). cbn [map].
  rewrite first_seen_snoc. cbn [app].
  set (T := first_seen [] (map referred_table_of seen)).
  assert (HT : existsb (str_eqb (referred_table_of r)) T
               = existsb (str_eqb (referred_table_of r)) (map referred_table_of seen)).
  { destruct (existsb (str_eqb (referred_table_of r)) T) eqn:E1,
             (existsb (str_eqb (referred_table_of r)) (map referred_table_of seen)) eqn:E2;
      try reflexivity.
    - apply existsb_str_In in E1. apply first_seen_In in E1. destruct E1 as [E1 _].
      apply existsb_str_In in E1. congruence.
    - apply existsb_str_In in E2.
      assert (In (referred_table_of r) T) by (apply first_seen_In; split; [exact E2|intros []]).
      apply existsb_str_In in H. congruence. }
  rewrite <- HT.
  destruct (existsb (str_eqb (referred_table_of r)) T) eqn:E.
  - rewrite app_nil_r. apply append_columns_present.
    + apply first_seen_NoDup.
    + apply existsb_str_In. exact E.
  - assert (Hnot : ~ In (referred_table_of r) T)
      by (intros H; apply existsb_str_In in H; congruence).
    assert (Hrows : rows_to (referred_table_of r) seen = []).
    { apply rows_to_none. intros H. apply existsb_str_In in H. congruence. }
    rewrite map_app. cbn [map].
    rewrite append_columns_skip.
    + cbn [append_columns]. rewrite str_eqb_refl, entry_same, Hrows. cbn [app map].
      f_equal. apply map_ext_in. intros t Ht. symmetry. apply entry_other.
      destruct (str_eqb (referred_table_of r) t) eqn:Et; [|reflexivity].
      apply str_eqb_eq in Et. subst t. contradiction.
    + intros k fk Hin. apply in_map_iff in Hin. destruct Hin as (t & Ht & Hin).
      unfold entry in Ht. injection Ht as <- _.
      destruct (str_eqb t (referred_table_of r)) eqn:Et; [|reflexivity].
      apply str_eqb_eq in Et. subst t. contradiction.
Qed.

Lemma fold_group_step rows :
  forall seen, fold_left group_step rows (grouped seen) = grouped (seen ++ rows).
Proof.
  induction rows as [|r rows IH]; intros seen; cbn [fold_left].
  - rewrite app_nil_r. reflexivity.
  - rewrite group_step_grouped, IH, <- app_assoc. reflexivity.
Qed.

End GroupingFacts.

(** X25.  The loop of _get_foreign_keys_fallback groups the rows by the
    table they refer to: one foreign key per table, in the order the
    tables are first seen, whose constrained and referred columns are
    those of the rows of that table, in the order of the rows. *)
Theorem foreign_keys_are_grouped_by_table :
  forall rows : list fk_row,
    group_foreign_keys rows
    = map (fun t => {| constrained_columns := map constrained_column (rows_to t rows);
                       referred_table := t;
                       referred_columns := map referred_column (rows_to t rows) |})
          (first_seen [] (map referred_table_of rows)).
Proof.
  intros rows. unfold group_foreign_keys.
  change (@nil (list N * foreign_key)) with (grouped []).
  rewrite fold_group_step. cbn [app]. unfold grouped. rewrite map_map. reflexivity.
Qed.

(** ** Loading the schema *)

Section LoadFacts.
Variable W : world.

Lemma get_table_sample_run (table_name : list N) (limit : nat) (tr : trace) :
  exists rows o,
    SchemaLoad.get_table_sample W table_name limit tr
    = (Ok rows, tr ++ [EvExecute (SchemaLoad.sample_query table_name limit) o])
    /\ o = postgres_execute_query W tr (SchemaLoad.sample_query table_name limit)
    /\ rows = match o with Ok rows => rows | Raise _ => [] end.
Proof.
  unfold SchemaLoad.get_table_sample, try_except, execute_query, call, ret.
  destruct (postgres_execute_query W tr (SchemaLoad.sample_query table_name limit)) as [rows|e];
    eexists _, _; repeat split.
Qed.

Lemma load_samples_run (table_names : list (list N)) :
  forall samples tr,
    SchemaLoad.load_samples W table_names samples tr
    = (Ok (fold_left SchemaLoad.keep_sample (SchemaLoad.sample_outcomes W tr table_names)
             samples),
       tr ++ map (fun a => EvExecute (SchemaLoad.sample_query (fst a) 3) (snd a))
                 (SchemaLoad.sample_outcomes W tr table_names)).
Proof.
  induction table_names as [|t rest IH]; intros samples tr.
  - cbn. rewrite app_nil_r. reflexivity.
  - cbn [SchemaLoad.load_samples SchemaLoad.sample_outcomes]. unfold bind at 1.
    destruct (get_table_sample_run t 3 tr) as (sample & o & Hrun & -> & ->).
    rewrite Hrun. cbv zeta. cbn [fold_left map fst snd]. rewrite IH, <- app_assoc.
    cbn [app]. f_equal. f_equal. unfold SchemaLoad.keep_sample. cbn [fst snd].
    destruct (postgres_execute_query W tr (SchemaLoad.sample_query t 3)) as [[|r rows]|e];
      reflexivity.
Qed.

Lemma sample_outcomes_tables tr (table_names : list (list N)) :
  map fst (SchemaLoad.sample_outcomes W tr table_names) = table_names.
Proof.
  revert tr. induction table_names as [|t rest IH]; intros tr; [reflexivity|].
  cbn [SchemaLoad.sample_outcomes map fst]. rewrite IH. reflexivity.
Qed.

Lemma executed_answers (answers : list (list N * result (list row))) :
  executed (map (fun a => EvExecute (SchemaLoad.sample_query (fst a) 3) (snd a)) answers)
  = map (fun t => SchemaLoad.sample_query t 3) (map fst answers).
Proof.
  induction answers as [|a l IH]; [reflexivity|].
  cbn [map]. unfold executed in *. cbn [flat_map app]. rewrite IH. reflexivity.
Qed.

Lemma kept_samples (answers : list (list N * result (list row))) :
  forall samples t rows,
    In (t, rows) (fold_left SchemaLoad.keep_sample answers samples) ->
    In (t, rows) samples \/ (rows <> [] /\ In (t, Ok rows) answers).
Proof.
  induction answers as [|[t0 o] answers IH]; intros samples t rows H; cbn [fold_left] in H.
  - left. exact H.
  - destruct (IH _ _ _ H) as [H'|[Hne Hin]].
    + unfold SchemaLoad.keep_sample in H'. cbn [fst snd] in H'.
      destruct o as [[|r rows0]|e]; try (left; exact H').
      destruct (in_dict_set _ _ _ _ _ H') as [H''|[-> ->]].
      * left. exact H''.
      * right. split; [discriminate|left; reflexivity].
    + right. split; [exact Hne|right; exact Hin].
Qed.

End LoadFacts.

(** X26.  _load_schema_info never raises and leaves a schema, never
    None.  When get_schema_info raises the schema is empty, the samples
    are left as they were and nothing is executed.  Otherwise one
    sample query with LIMIT 3 is executed per table, in the order of
    the schema, and table_samples is what it was, with the rows the
    executor returned stored under the table for every query that
    returned at least one row, a query that raised or returned nothing
    leaving its entry as it was.  So every entry of table_samples was
    there before or holds the rows, at least one, that the sample query
    of its table returned in this load. *)
Theorem schema_load_never_fails :
  forall (W : world) (get_schema_info : trace -> result Data.schema_info)
         (st : SchemaLoad.query_service_state) (tr : trace),
    exists st' evs,
      SchemaLoad._load_schema_info W get_schema_info st tr = (Ok st', tr ++ evs)
      /\ match get_schema_info tr with
         | Raise _ =>
             SchemaLoad.schema_info st' = Some []
             /\ SchemaLoad.table_samples st' = SchemaLoad.table_samples st
             /\ evs = []
         | Ok s =>
             let answers := SchemaLoad.sample_outcomes W tr (keys s) in
             SchemaLoad.schema_info st' = Some s
             /\ map fst answers = keys s
             /\ evs = map (fun a => EvExecute (SchemaLoad.sample_query (fst a) 3) (snd a))
                          answers
             /\ executed evs = map (fun t => SchemaLoad.sample_query t 3) (keys s)
             /\ SchemaLoad.table_samples st'
                = fold_left SchemaLoad.keep_sample answers (SchemaLoad.table_samples st)
             /\ forall t rows,
                  In (t, rows) (SchemaLoad.table_samples st') ->
                  In (t, rows) (SchemaLoad.table_samples st)
                  \/ (In t (keys s) /\ rows <> []
                      /\ In (EvExecute (SchemaLoad.sample_query t 3) (Ok rows)) evs)
         end.
Proof.
  intros W get_schema_info st tr.
  unfold SchemaLoad._load_schema_info, try_except, consult. unfold bind at 1.
  destruct (get_schema_info tr) as [s|e].
  - unfold bind at 1. rewrite load_samples_run. unfold ret. eexists _, _.
    split; [reflexivity|]. cbv zeta.
    cbn [SchemaLoad.schema_info SchemaLoad.table_samples].
    pose proof (sample_outcomes_tables W tr (keys s)) as Ht.
    refine (conj eq_refl (conj Ht (conj eq_refl (conj _ (conj eq_refl _))))).
    + rewrite executed_answers, Ht. reflexivity.
    + intros t rows H. destruct (kept_samples _ _ _ _ H) as [H'|[Hne Hin]].
      * left. exact H'.
      * right. split; [|split; [exact Hne|]].
        -- rewrite <- Ht. apply (in_map fst _ _ Hin).
        -- apply (in_map (fun a => EvExecute (SchemaLoad.sample_query (fst a) 3) (snd a))
                     _ _ Hin).
  - unfold ret. eexists _, []. rewrite app_nil_r. split; [reflexivity|]. repeat split.
Qed.

Lemma schema_load_never_fails_witness :
  exists st' evs,
    SchemaLoad._load_schema_info typo_world (fun _ => Ok users_schema)
      {| SchemaLoad.schema_info := None; SchemaLoad.table_samples := [] |} []
    = (Ok st', [] ++ evs)
    /\ evs = [EvExecute (py "SELECT * FROM users LIMIT 3")
                (Raise (py "column nam does not exist"))]
    /\ SchemaLoad.table_samples st' = [].
Proof.
  destruct (schema_load_never_fails typo_world (fun _ => Ok users_schema)
              {| SchemaLoad.schema_info := None; SchemaLoad.table_samples := [] |} [])
    as (st' & evs & Hrun & _ & _ & Hevs & _ & Hsamples & _).
  exists st', evs. split; [exact Hrun|]. split; [exact Hevs|exact Hsamples].
Defined.
